(** * ISAAC live session manager: audio codec, playback scheduler,
      transcription reconciler, teardown and the inactivity check.

    A shallow embedding of [src/App.tsx] (the live audio session code) and
    of the service worker (periodic inactivity check), with the properties
    the specification states about them; then of the text chat of
    [src/App.tsx], the input line ([UserInput.tsx]), the chat history
    ([ChatHistory.tsx]) and the caches and notification clicks of the
    service worker, with properties read off the code.

    Conventions of the embedding.
    - A JavaScript "binary string" (every code unit below 256) is a
      [string]; a [Uint8Array] is a [list byte].
    - Audio samples and clock times are JavaScript numbers.  Every value the
      modelled code computes from them is obtained by comparisons, by
      multiplying or dividing by the power of two 32768, or by adding a
      buffer duration; samples are [Float32Array] elements, so the products
      and quotients by 32768 are exact in double precision.  Samples and
      times are therefore modelled as rationals [Q]; NaN and infinities are
      outside the model.
    - Platform functions the source calls ([btoa], [atob], the typed-array
      constructors, [createBuffer], [AudioBufferSourceNode.stop],
      [AudioContext.close], ...) are modelled from their standards,
      including the exceptions they throw.  Typed arrays use the byte
      order of the platform, taken to be little-endian.
    - A handler of the component is one transition: the continuation of
      [onmessage] after its only [await] (of [decodeAudioData], which has
      no [await] of its own) runs in a microtask, before the next event.
    - The variables a callback closes over are given to it explicitly, as
      the [Render] that created it.
    - Text the user types or the model sends is a [string] as well: the
      model covers the strings whose code units are all below 256. *)

From Stdlib Require Import ZArith QArith Qabs Qround Lia Bool List Ascii String.
From Stdlib.Strings Require Import Byte.
From stdpp Require Import base option list gmap strings.
Import ListNotations.

Local Open Scope Z_scope.

(** ** Bytes *)

Definition Z_of_byte (b : byte) : Z := Z.of_N (Byte.to_N b).

(** Storing a number into a [Uint8Array] keeps it modulo 256. *)
Definition byte_of_Z (z : Z) : byte :=
  byte_of_ascii (ascii_of_N (Z.to_N (z mod 256))).

(** ** Base64: the platform's [btoa] and [atob] *)

Module Base64.

Definition alphabet : string :=
  "ABCDEFGHIJKLMNOPQRSTUVWXYZabcdefghijklmnopqrstuvwxyz0123456789+/".

Definition pad : ascii := "="%char.

(** The character of a sextet. *)
Definition char_of (v : Z) : ascii :=
  match String.get (Z.to_nat v) alphabet with
  | Some c => c
  | None => pad
  end.

(** The sextet of a character of the alphabet. *)
Definition value_of (c : ascii) : option Z :=
  let n := Z.of_N (N_of_ascii c) in
  if (65 <=? n) && (n <=? 90) then Some (n - 65)
  else if (97 <=? n) && (n <=? 122) then Some (n - 97 + 26)
  else if (48 <=? n) && (n <=? 57) then Some (n - 48 + 52)
  else if n =? 43 then Some 62
  else if n =? 47 then Some 63
  else None.

(** TAB, LF, FF, CR and SPACE. *)
Definition is_whitespace (c : ascii) : bool :=
  let n := Z.of_N (N_of_ascii c) in
  (n =? 9) || (n =? 10) || (n =? 12) || (n =? 13) || (n =? 32).

Definition is_pad (c : ascii) : bool := Ascii.eqb c pad.

(** Three bytes give four sextets; a last group of one byte gives two
    sextets and a last group of two bytes gives three. *)
Fixpoint sextets_of_bytes (bs : list byte) : list Z :=
  match bs with
  | [] => []
  | [b0] =>
      let n := Z_of_byte b0 * 16 in
      [n / 64; n mod 64]
  | [b0; b1] =>
      let n := (Z_of_byte b0 * 256 + Z_of_byte b1) * 4 in
      [n / 4096; (n / 64) mod 64; n mod 64]
  | b0 :: b1 :: b2 :: rest =>
      let n := Z_of_byte b0 * 65536 + Z_of_byte b1 * 256 + Z_of_byte b2 in
      n / 262144 :: (n / 4096) mod 64 :: (n / 64) mod 64 :: n mod 64
        :: sextets_of_bytes rest
  end.

Definition padding (len : nat) : list ascii :=
  match (len mod 3)%nat with
  | 1%nat => [pad; pad]
  | 2%nat => [pad]
  | _ => []
  end.

Definition encode_bytes (bs : list byte) : list ascii :=
  map char_of (sextets_of_bytes bs) ++ padding (length bs).

(** [btoa(binary)]: every code unit of the argument is below 256 here, so
    the call cannot throw. *)
Definition btoa (binary : string) : string :=
  string_of_list_ascii (encode_bytes (list_byte_of_string binary)).

(** Four sextets give three bytes; of a last group of two sextets the
    last four bits are dropped, of a last group of three the last two. *)
Fixpoint bytes_of_sextets (vs : list Z) : list byte :=
  match vs with
  | v0 :: v1 :: v2 :: v3 :: rest =>
      let n := ((v0 * 64 + v1) * 64 + v2) * 64 + v3 in
      byte_of_Z (n / 65536) :: byte_of_Z (n / 256) :: byte_of_Z n
        :: bytes_of_sextets rest
  | [v0; v1; v2] =>
      let n := ((v0 * 64 + v1) * 64 + v2) / 4 in
      [byte_of_Z (n / 256); byte_of_Z n]
  | [v0; v1] =>
      let n := (v0 * 64 + v1) / 16 in
      [byte_of_Z n]
  | _ => []
  end.

(** Remove one or two trailing [=]. *)
Definition strip_padding (cs : list ascii) : list ascii :=
  match rev cs with
  | p0 :: p1 :: r =>
      if is_pad p0 then (if is_pad p1 then rev r else rev (p1 :: r)) else cs
  | [p0] => if is_pad p0 then [] else cs
  | [] => cs
  end.

Fixpoint values_of (cs : list ascii) : option (list Z) :=
  match cs with
  | [] => Some []
  | c :: cs' =>
      match value_of c, values_of cs' with
      | Some v, Some vs => Some (v :: vs)
      | _, _ => None
      end
  end.

(** The forgiving-base64 decoding of a list of characters. *)
Definition decode_chars (data : list ascii) : option (list byte) :=
  let d1 := List.filter (fun c => negb (is_whitespace c)) data in
  let d2 := if (length d1 mod 4 =? 0)%nat then strip_padding d1 else d1 in
  if (length d2 mod 4 =? 1)%nat then None
  else option_map bytes_of_sextets (values_of d2).

(** [atob(data)]: [None] stands for the [InvalidCharacterError] that
    [atob] throws when the argument is not base64. *)
Definition atob (data : string) : option string :=
  option_map string_of_list_byte (decode_chars (list_ascii_of_string data)).

End Base64.

(** ** Exceptions and a small error monad *)

Inductive Exn : Type :=
| InvalidCharacterError   (* atob on a string that is not base64 *)
| RangeError              (* typed-array view over a misaligned buffer *)
| NotSupportedError       (* createBuffer with a zero length or channel count *)
| InvalidStateError       (* stop() on a source that was never started,
                             close() on a closed context *)
| DatabaseError.          (* a failed IndexedDB request *)

Inductive Result (A : Type) : Type :=
| Ok (a : A)
| Throw (e : Exn).
Arguments Ok {A} a.
Arguments Throw {A} e.

Definition bind {A B : Type} (r : Result A) (k : A -> Result B) : Result B :=
  match r with
  | Ok a => k a
  | Throw e => Throw e
  end.

Notation "'let*' x ':=' r 'in' k" := (bind r (fun x => k))
  (at level 10, x name, r at level 100, k at level 200).

Definition of_option {A : Type} (e : Exn) (o : option A) : Result A :=
  match o with
  | Some a => Ok a
  | None => Throw e
  end.

(** ** The audio codec ([src/App.tsx], lines 10-59) *)

Module Codec.

(** An [AudioBuffer]: one list of samples per channel, each of [frames]
    samples. *)
Record AudioBuffer : Type := mkAudioBuffer {
  channelData : list (list Q);
  frames : nat;
  sampleRate : positive
}.

(** [AudioBuffer.duration], in seconds. *)
Definition duration (b : AudioBuffer) : Q := Z.of_nat (frames b) # sampleRate b.

(** [decode(base64)]: [atob], then one byte per code unit. *)
Definition decode (base64 : string) : Result (list byte) :=
  let* binaryString := of_option InvalidCharacterError (Base64.atob base64) in
  Ok (list_byte_of_string binaryString).

(** A little-endian pair of bytes read as a signed 16-bit integer. *)
Definition int16_of_bytes (lo hi : byte) : Z :=
  let u := Z_of_byte lo + 256 * Z_of_byte hi in
  if u <? 32768 then u else u - 65536.

Fixpoint int16_view (buffer : list byte) : list Z :=
  match buffer with
  | lo :: hi :: rest => int16_of_bytes lo hi :: int16_view rest
  | _ => []
  end.

(** [new Int16Array(buffer)]: a [RangeError] when the byte length of the
    buffer is not a multiple of the element size; otherwise the view reads
    the bytes in pairs. *)
Definition new_Int16Array (buffer : list byte) : Result (list Z) :=
  if (length buffer mod 2 =? 0)%nat then Ok (int16_view buffer)
  else Throw RangeError.

(** [ctx.createBuffer(numChannels, frameCount, sampleRate)]: a
    [NotSupportedError] when the channel count or the length is zero.
    The length argument is converted to an integer by truncation, which
    the caller below has done already.  The limits an implementation puts
    on the channel count and on the rate are not modelled; the source calls
    it with one channel at 24000 Hz. *)
Definition createBuffer (numChannels frameCount : nat) (rate : positive)
  : Result AudioBuffer :=
  if (numChannels =? 0)%nat || (frameCount =? 0)%nat then Throw NotSupportedError
  else Ok (mkAudioBuffer (repeat (repeat 0%Q frameCount) numChannels) frameCount rate).

(** The samples of one channel: [dataInt16[i * numChannels + channel] /
    32768.0] for every frame [i]. *)
Definition channel_samples (dataInt16 : list Z) (numChannels frameCount channel : nat)
  : list Q :=
  map (fun i => nth (i * numChannels + channel) dataInt16 0 # 32768) (seq 0 frameCount).

(** [decodeAudioData(data, ctx, sampleRate, numChannels)].  In the source
    [frameCount] is the quotient [dataInt16.length / numChannels] as a
    number; [createBuffer] truncates it, and the writes of the loop at an
    index beyond the truncated length are ignored by the typed array, so
    the frame count is the integer quotient. *)
Definition decodeAudioData (data : list byte) (rate : positive) (numChannels : nat)
  : Result AudioBuffer :=
  let* dataInt16 := new_Int16Array data in
  let frameCount := (length dataInt16 / numChannels)%nat in
  let* buffer := createBuffer numChannels frameCount rate in
  Ok (mkAudioBuffer
        (map (channel_samples dataInt16 numChannels frameCount) (seq 0 numChannels))
        (frames buffer) (sampleRate buffer)).

(** [encode(bytes)]: one code unit per byte, then [btoa]. *)
Definition encode (bytes : list byte) : string :=
  Base64.btoa (string_of_list_byte bytes).

(** Truncation of a number toward zero. *)
Definition Qtruncate (q : Q) : Z := Z.quot (Qnum q) (Z.pos (Qden q)).

(** Storing a number into an [Int16Array]: truncate, reduce modulo 2^16,
    read as signed. *)
Definition ToInt16 (q : Q) : Z :=
  let m := Qtruncate q mod 65536 in
  if m <? 32768 then m else m - 65536.

(** The two bytes of a 16-bit integer in the buffer, low byte first. *)
Definition bytes_of_int16 (z : Z) : list byte :=
  let u := z mod 65536 in
  [byte_of_Z (u mod 256); byte_of_Z (u / 256)].

(** [new Uint8Array(int16.buffer)]. *)
Definition buffer_of_int16 (int16 : list Z) : list byte :=
  flat_map bytes_of_int16 int16.

Record GenAIBlob : Type := mkBlob {
  data : string;
  mimeType : string
}.

(** The [Int16Array] filled by the loop of [createBlob]. *)
Definition int16_of_samples (samples : list Q) : list Z :=
  map (fun s => ToInt16 (s * 32768)) samples.

Definition createBlob (samples : list Q) : GenAIBlob :=
  let int16 := int16_of_samples samples in
  {| data := encode (buffer_of_int16 int16);
     mimeType := "audio/pcm;rate=16000" |}.

(** The composition the round-trip law is about: the payload of
    [createBlob] given to [decode] and [decodeAudioData], one channel. *)
Definition decode_createBlob (samples : list Q) (rate : positive) : Result AudioBuffer :=
  let* bytes := decode (data (createBlob samples)) in
  decodeAudioData bytes rate 1.

(** The specification's wording of the quantisation, "round(s * 32768)":
    [z] is a nearest integer of [q], whatever the rule for ties. *)
Definition spec_rounds_to (q : Q) (z : Z) : Prop :=
  (Qabs (inject_Z z - q) <= 1 # 2)%Q.

(** One quantisation step. *)
Definition quantum : Q := 1 # 32768.

End Codec.

(** ** The live session ([src/App.tsx], component [App]) *)

Module Live.
Import Codec.

Inductive Role : Type := user | model | error.

Definition Role_eqb (a b : Role) : bool :=
  match a, b with
  | user, user | model, model | error, error => true
  | _, _ => false
  end.

Record Message : Type := mkMessage {
  role : Role;
  content : string;
  image : option string
}.

(** An entry written by the voice path: it never carries an image. *)
Definition entry (r : Role) (c : string) : Message := mkMessage r c None.

(** An [AudioBufferSourceNode]: its buffer, the time given to [start]
    if it was started, and whether [stop] was called. *)
Record SourceNode : Type := mkSourceNode {
  buffer : AudioBuffer;
  startedAt : option Q;
  stopped : bool
}.

Inductive ContextState : Type := suspended | running | closed.

Definition ContextState_eqb (a b : ContextState) : bool :=
  match a, b with
  | suspended, suspended | running, running | closed, closed => true
  | _, _ => false
  end.

Inductive Context : Type := inputContext | outputContext.

(** The platform calls that release something, in the order made;
    [ContextCloseRejected] is a [close()] whose promise is rejected. *)
Inductive Effect : Type :=
| SessionClose (session : nat)
| TrackStop (track : nat)
| ProcessorDisconnect (node : nat)
| StreamSourceDisconnect (node : nat)
| ContextClose (which : Context)
| ContextCloseRejected (which : Context)
| SourceStop (source : nat).

(** The values a function of the component closes over: the state
    variables of the render that created it. *)
Record Render : Type := mkRender {
  r_isListening : bool;
  r_isOffline : bool
}.

(** The state of the component: React state, the refs, the heap of
    source nodes the refs point into (a node's identity is its index),
    and the journal of releasing platform calls. *)
Record AppState : Type := mkAppState {
  messages : list Message;
  isListening : bool;
  isLoading : bool;
  liveSessionRef : option nat;
  inputAudioContextRef : option ContextState;
  outputAudioContextRef : option ContextState;
  scriptProcessorRef : option nat;
  mediaStreamSourceRef : option nat;
  mediaStreamRef : option (list nat);
  outputSourcesRef : gset nat;
  nextStartTimeRef : Q;
  currentInputTranscriptionRef : string;
  currentOutputTranscriptionRef : string;
  nodes : list SourceNode;
  journal : list Effect
}.

Definition set_messages (f : list Message -> list Message) (s : AppState) : AppState :=
  mkAppState (f (messages s)) (isListening s) (isLoading s) (liveSessionRef s)
    (inputAudioContextRef s) (outputAudioContextRef s) (scriptProcessorRef s)
    (mediaStreamSourceRef s) (mediaStreamRef s) (outputSourcesRef s)
    (nextStartTimeRef s) (currentInputTranscriptionRef s)
    (currentOutputTranscriptionRef s) (nodes s) (journal s).

Definition set_isListening (b : bool) (s : AppState) : AppState :=
  mkAppState (messages s) b (isLoading s) (liveSessionRef s)
    (inputAudioContextRef s) (outputAudioContextRef s) (scriptProcessorRef s)
    (mediaStreamSourceRef s) (mediaStreamRef s) (outputSourcesRef s)
    (nextStartTimeRef s) (currentInputTranscriptionRef s)
    (currentOutputTranscriptionRef s) (nodes s) (journal s).

Definition set_isLoading (b : bool) (s : AppState) : AppState :=
  mkAppState (messages s) (isListening s) b (liveSessionRef s)
    (inputAudioContextRef s) (outputAudioContextRef s) (scriptProcessorRef s)
    (mediaStreamSourceRef s) (mediaStreamRef s) (outputSourcesRef s)
    (nextStartTimeRef s) (currentInputTranscriptionRef s)
    (currentOutputTranscriptionRef s) (nodes s) (journal s).

Definition set_liveSession (v : option nat) (s : AppState) : AppState :=
  mkAppState (messages s) (isListening s) (isLoading s) v
    (inputAudioContextRef s) (outputAudioContextRef s) (scriptProcessorRef s)
    (mediaStreamSourceRef s) (mediaStreamRef s) (outputSourcesRef s)
    (nextStartTimeRef s) (currentInputTranscriptionRef s)
    (currentOutputTranscriptionRef s) (nodes s) (journal s).

Definition set_inputAudioContext (v : option ContextState) (s : AppState) : AppState :=
  mkAppState (messages s) (isListening s) (isLoading s) (liveSessionRef s)
    v (outputAudioContextRef s) (scriptProcessorRef s)
    (mediaStreamSourceRef s) (mediaStreamRef s) (outputSourcesRef s)
    (nextStartTimeRef s) (currentInputTranscriptionRef s)
    (currentOutputTranscriptionRef s) (nodes s) (journal s).

Definition set_outputAudioContext (v : option ContextState) (s : AppState) : AppState :=
  mkAppState (messages s) (isListening s) (isLoading s) (liveSessionRef s)
    (inputAudioContextRef s) v (scriptProcessorRef s)
    (mediaStreamSourceRef s) (mediaStreamRef s) (outputSourcesRef s)
    (nextStartTimeRef s) (currentInputTranscriptionRef s)
    (currentOutputTranscriptionRef s) (nodes s) (journal s).

Definition set_scriptProcessor (v : option nat) (s : AppState) : AppState :=
  mkAppState (messages s) (isListening s) (isLoading s) (liveSessionRef s)
    (inputAudioContextRef s) (outputAudioContextRef s) v
    (mediaStreamSourceRef s) (mediaStreamRef s) (outputSourcesRef s)
    (nextStartTimeRef s) (currentInputTranscriptionRef s)
    (currentOutputTranscriptionRef s) (nodes s) (journal s).

Definition set_mediaStreamSource (v : option nat) (s : AppState) : AppState :=
  mkAppState (messages s) (isListening s) (isLoading s) (liveSessionRef s)
    (inputAudioContextRef s) (outputAudioContextRef s) (scriptProcessorRef s)
    v (mediaStreamRef s) (outputSourcesRef s)
    (nextStartTimeRef s) (currentInputTranscriptionRef s)
    (currentOutputTranscriptionRef s) (nodes s) (journal s).

Definition set_mediaStream (v : option (list nat)) (s : AppState) : AppState :=
  mkAppState (messages s) (isListening s) (isLoading s) (liveSessionRef s)
    (inputAudioContextRef s) (outputAudioContextRef s) (scriptProcessorRef s)
    (mediaStreamSourceRef s) v (outputSourcesRef s)
    (nextStartTimeRef s) (currentInputTranscriptionRef s)
    (currentOutputTranscriptionRef s) (nodes s) (journal s).

Definition set_outputSources (v : gset nat) (s : AppState) : AppState :=
  mkAppState (messages s) (isListening s) (isLoading s) (liveSessionRef s)
    (inputAudioContextRef s) (outputAudioContextRef s) (scriptProcessorRef s)
    (mediaStreamSourceRef s) (mediaStreamRef s) v
    (nextStartTimeRef s) (currentInputTranscriptionRef s)
    (currentOutputTranscriptionRef s) (nodes s) (journal s).

Definition set_nextStartTime (v : Q) (s : AppState) : AppState :=
  mkAppState (messages s) (isListening s) (isLoading s) (liveSessionRef s)
    (inputAudioContextRef s) (outputAudioContextRef s) (scriptProcessorRef s)
    (mediaStreamSourceRef s) (mediaStreamRef s) (outputSourcesRef s)
    v (currentInputTranscriptionRef s)
    (currentOutputTranscriptionRef s) (nodes s) (journal s).

Definition set_currentInputTranscription (v : string) (s : AppState) : AppState :=
  mkAppState (messages s) (isListening s) (isLoading s) (liveSessionRef s)
    (inputAudioContextRef s) (outputAudioContextRef s) (scriptProcessorRef s)
    (mediaStreamSourceRef s) (mediaStreamRef s) (outputSourcesRef s)
    (nextStartTimeRef s) v
    (currentOutputTranscriptionRef s) (nodes s) (journal s).

Definition set_currentOutputTranscription (v : string) (s : AppState) : AppState :=
  mkAppState (messages s) (isListening s) (isLoading s) (liveSessionRef s)
    (inputAudioContextRef s) (outputAudioContextRef s) (scriptProcessorRef s)
    (mediaStreamSourceRef s) (mediaStreamRef s) (outputSourcesRef s)
    (nextStartTimeRef s) (currentInputTranscriptionRef s)
    v (nodes s) (journal s).

Definition set_nodes (v : list SourceNode) (s : AppState) : AppState :=
  mkAppState (messages s) (isListening s) (isLoading s) (liveSessionRef s)
    (inputAudioContextRef s) (outputAudioContextRef s) (scriptProcessorRef s)
    (mediaStreamSourceRef s) (mediaStreamRef s) (outputSourcesRef s)
    (nextStartTimeRef s) (currentInputTranscriptionRef s)
    (currentOutputTranscriptionRef s) v (journal s).

Definition record (es : list Effect) (s : AppState) : AppState :=
  mkAppState (messages s) (isListening s) (isLoading s) (liveSessionRef s)
    (inputAudioContextRef s) (outputAudioContextRef s) (scriptProcessorRef s)
    (mediaStreamSourceRef s) (mediaStreamRef s) (outputSourcesRef s)
    (nextStartTimeRef s) (currentInputTranscriptionRef s)
    (currentOutputTranscriptionRef s) (nodes s) (journal s ++ es).

(** The state of a freshly mounted component. *)
Definition initial : AppState :=
  mkAppState [] false true None None None None None None ∅ 0%Q EmptyString EmptyString [] [].

(** *** Handlers

    A handler runs to completion or stops at the exception it throws; in
    both cases the state written so far stays.  Each [setMessages]
    updater is applied where it is issued. *)

Definition Outcome : Type := AppState * option Exn.

Definition andThen (o : Outcome) (k : AppState -> Outcome) : Outcome :=
  match o with
  | (s, None) => k s
  | (s, Some e) => (s, Some e)
  end.

Definition append (m : Message) (s : AppState) : AppState :=
  set_messages (fun prev => prev ++ [m]) s.

(** [Math.max(a, b)] on two numbers. *)
Definition Math_max (a b : Q) : Q := if Qle_bool b a then a else b.

(** [roles.lastIndexOf(r)]: the last index holding [r], or [-1]. *)
Fixpoint lastIndexOf_from (r : Role) (i : Z) (found : Z) (roles : list Role) : Z :=
  match roles with
  | [] => found
  | x :: rest => lastIndexOf_from r (i + 1) (if Role_eqb x r then i else found) rest
  end.

Definition lastIndexOf (r : Role) (roles : list Role) : Z :=
  lastIndexOf_from r 0 (-1) roles.

(** [s.includes(sub)]. *)
Fixpoint includes (s sub : string) : bool :=
  if String.prefix sub s then true
  else match s with
       | EmptyString => false
       | String _ s' => includes s' sub
       end.

(** [s.slice(0, -n)]: [-0] is [0], so the slice is empty when [n] is
    zero; otherwise the end is counted from the end of [s]. *)
Definition slice_0_neg (s : string) (n : nat) : string :=
  if (n =? 0)%nat then EmptyString
  else String.substring 0 (String.length s - n) s.

(** Lines 412-426. *)
Definition inputTranscription_branch (text : string) (s : AppState) : AppState :=
  let s := set_currentInputTranscription
             (String.append (currentInputTranscriptionRef s) text) s in
  set_messages (fun prev =>
    let lastMsgIndex := lastIndexOf user (map role prev) in
    let lastModelMsgIndex := lastIndexOf model (map role prev) in
    if lastMsgIndex >? lastModelMsgIndex then
      <[Z.to_nat lastMsgIndex := entry user (currentInputTranscriptionRef s)]> prev
    else prev ++ [entry user (currentInputTranscriptionRef s)]) s.

(** Lines 428-440. *)
Definition outputTranscription_branch (text : string) (s : AppState) : AppState :=
  let s := set_currentOutputTranscription
             (String.append (currentOutputTranscriptionRef s) text) s in
  set_messages (fun prev =>
    let lastMsgIndex := lastIndexOf model (map role prev) in
    if negb (lastMsgIndex =? -1)
       && match prev !! Z.to_nat lastMsgIndex with
          | Some m =>
              includes (content m)
                (slice_0_neg (currentOutputTranscriptionRef s) (String.length text))
          | None => false
          end
    then <[Z.to_nat lastMsgIndex := entry model (currentOutputTranscriptionRef s)]> prev
    else prev ++ [entry model (currentOutputTranscriptionRef s)]) s.

(** Line 445. *)
Definition clamp_clock (currentTime : Q) (s : AppState) : AppState :=
  set_nextStartTime (Math_max (nextStartTimeRef s) currentTime) s.

(** Lines 447-455: a new source node for the buffer is started at the
    cursor, the cursor advances by the duration, the node joins the
    live set. *)
Definition start_source (audioBuffer : AudioBuffer) (s : AppState) : AppState :=
  let source := length (nodes s) in
  let s := set_nodes (nodes s ++ [mkSourceNode audioBuffer (Some (nextStartTimeRef s)) false]) s in
  let s := set_nextStartTime (nextStartTimeRef s + duration audioBuffer)%Q s in
  set_outputSources ({[source]} ∪ outputSourcesRef s) s.

(** What the scheduler does with a decoded buffer: lines 445 and
    447-455. *)
Definition schedule (currentTime : Q) (audioBuffer : AudioBuffer) (s : AppState) : AppState :=
  start_source audioBuffer (clamp_clock currentTime s).

(** The ['ended'] listener of a source (lines 450-452). *)
Definition onended (source : nat) (s : AppState) : AppState :=
  set_outputSources (outputSourcesRef s ∖ {[source]}) s.

(** Lines 442-456: [base64Audio] is [undefined] (here [None]) or a string,
    and a payload is decoded only when the string is not empty. *)
Definition audio_branch (currentTime : Q) (base64Audio : option string) (s : AppState)
  : Outcome :=
  match base64Audio with
  | None | Some EmptyString => (s, None)
  | Some payload =>
      let s := clamp_clock currentTime s in
      match (let* bytes := decode payload in decodeAudioData bytes 24000 1) with
      | Ok audioBuffer => (start_source audioBuffer s, None)
      | Throw e => (s, Some e)
      end
  end.

(** Lines 458-461. *)
Definition turnComplete_branch (s : AppState) : AppState :=
  set_currentOutputTranscription EmptyString (set_currentInputTranscription EmptyString s).

Definition mark_stopped (n : SourceNode) : SourceNode :=
  mkSourceNode (buffer n) (startedAt n) true.

(** [source.stop()]: an [InvalidStateError] unless the source was
    started. *)
Definition stop_source (source : nat) (s : AppState) : Outcome :=
  match nodes s !! source with
  | Some n =>
      match startedAt n with
      | Some _ =>
          (record [SourceStop source]
             (set_nodes (<[source := mark_stopped n]> (nodes s)) s),
           None)
      | None => (s, Some InvalidStateError)
      end
  | None => (s, Some InvalidStateError)
  end.

(** A loop over sources; it ends at the first call that throws.  The live
    set is visited in the order of [elements], not in the insertion order
    of a JavaScript [Set]: the calls made on distinct sources do not depend
    on each other. *)
Fixpoint forEach (f : nat -> AppState -> Outcome) (ids : list nat) (s : AppState)
  : Outcome :=
  match ids with
  | [] => (s, None)
  | id :: rest => andThen (f id s) (forEach f rest)
  end.

(** Lines 463-469. *)
Definition interrupted_branch (s : AppState) : Outcome :=
  andThen (forEach stop_source (elements (outputSourcesRef s)) s) (fun s =>
  (set_nextStartTime 0%Q (set_outputSources ∅ s), None)).

(** The parts of a [LiveServerMessage] the handler reads. *)
Record LiveServerMessage : Type := mkServerMessage {
  inputTranscription : option string;
  outputTranscription : option string;
  inlineAudio : option string;
  turnComplete : bool;
  interrupted : bool
}.

Definition when {A : Type} (o : option A) (f : A -> AppState -> AppState) (s : AppState)
  : AppState :=
  match o with
  | Some a => f a s
  | None => s
  end.

(** [onmessage] (lines 411-471); [currentTime] is the reading of
    [outputAudioContext.currentTime]. *)
Definition onmessage (currentTime : Q) (message : LiveServerMessage) (s : AppState)
  : Outcome :=
  let s := when (inputTranscription message) inputTranscription_branch s in
  let s := when (outputTranscription message) outputTranscription_branch s in
  andThen (audio_branch currentTime (inlineAudio message) s) (fun s =>
  let s := if turnComplete message then turnComplete_branch s else s in
  if interrupted message then interrupted_branch s else (s, None)).

(** [AudioContext.close()]: the state of the context reads ['closed']
    from the call on; on a context that is closed already the returned
    promise is rejected with an [InvalidStateError], which nothing
    handles. *)
Definition close_context (which : Context) (st : ContextState) (s : AppState) : AppState :=
  match st with
  | closed => record [ContextCloseRejected which] s
  | _ =>
      record [ContextClose which]
        (match which with
         | inputContext => set_inputAudioContext (Some closed) s
         | outputContext => set_outputAudioContext (Some closed) s
         end)
  end.

(** The release steps of [stopListening], in the order of the source.
    Lines 345-348: *)
Definition close_session (s : AppState) : AppState :=
  match liveSessionRef s with
  | Some session => set_liveSession None (record [SessionClose session] s)
  | None => s
  end.

(** lines 349-352, *)
Definition stop_tracks (s : AppState) : AppState :=
  match mediaStreamRef s with
  | Some tracks => set_mediaStream None (record (map TrackStop tracks) s)
  | None => s
  end.

(** lines 353-356, *)
Definition disconnect_processor (s : AppState) : AppState :=
  match scriptProcessorRef s with
  | Some node => set_scriptProcessor None (record [ProcessorDisconnect node] s)
  | None => s
  end.

(** lines 357-360, *)
Definition disconnect_stream_source (s : AppState) : AppState :=
  match mediaStreamSourceRef s with
  | Some node => set_mediaStreamSource None (record [StreamSourceDisconnect node] s)
  | None => s
  end.

Definition context_ref (which : Context) (s : AppState) : option ContextState :=
  match which with
  | inputContext => inputAudioContextRef s
  | outputContext => outputAudioContextRef s
  end.

(** lines 361-363 and 364-366: a context is closed only when the ref
    holds one whose state is not ['closed'], *)
Definition close_unless_closed (which : Context) (s : AppState) : AppState :=
  match context_ref which s with
  | Some st =>
      if negb (ContextState_eqb st closed) then close_context which st s
      else s
  | None => s
  end.

(** lines 367-370. *)
Definition stop_sources (s : AppState) : Outcome :=
  andThen (forEach stop_source (elements (outputSourcesRef s)) s) (fun s =>
  (set_isLoading false (set_isListening false (set_outputSources ∅ s)), None)).

(** [stopListening] (lines 344-371). *)
Definition stopListening (s : AppState) : Outcome :=
  let s := close_session s in
  let s := stop_tracks s in
  let s := disconnect_processor s in
  let s := disconnect_stream_source s in
  let s := close_unless_closed inputContext s in
  let s := close_unless_closed outputContext s in
  stop_sources s.

(** [startListening] (lines 373-499) runs in several turns of the event
    loop.  Its synchronous start: *)
Definition startListening_enter (r : Render) (s : AppState) : AppState :=
  if r_isOffline r then append (entry error "OFFLINE: Voice commands unavailable.") s
  else append (entry model "VOICE CHANNEL OPEN. LISTENING...")
         (set_isLoading true (set_isListening true s)).

(** after [getUserMedia] resolved with a stream of the given tracks, *)
Definition startListening_devices (tracks : list nat) (s : AppState) : AppState :=
  set_outputAudioContext (Some running)
    (set_inputAudioContext (Some running) (set_mediaStream (Some tracks) s)).

(** the [onopen] callback, *)
Definition onopen (source processor : nat) (s : AppState) : AppState :=
  set_scriptProcessor (Some processor)
    (set_mediaStreamSource (Some source) (set_isLoading false s)).

(** after the promise of [ai.live.connect] resolved, *)
Definition startListening_connected (session : nat) (s : AppState) : AppState :=
  set_liveSession (Some session) s.

(** and the [catch] block. *)
Definition startListening_failed (reason : string) (s : AppState) : Outcome :=
  stopListening (append (entry error (String.append "MICROPHONE_ERROR: " reason)) s).

(** [onerror] (lines 472-476). *)
Definition onerror (e_message : string) (s : AppState) : Outcome :=
  stopListening (append (entry error (String.append "LIVE_SESSION_ERROR: " e_message)) s).

(** [onclose] (lines 477-482).  [isListening] here is the variable of the
    render whose [startListening] created the callback. *)
Definition onclose (r : Render) (s : AppState) : Outcome :=
  if r_isListening r then stopListening (append (entry model "VOICE CHANNEL CLOSED.") s)
  else (s, None).

(** [toggleListening] (lines 501-508), up to the first suspension of
    [startListening]; with the result comes the render captured by the
    callbacks of the session being started, if one is. *)
Definition toggleListening (r : Render) (s : AppState) : Outcome * option Render :=
  if r_isListening r then
    (andThen (stopListening s) (fun s =>
       (append (entry model "VOICE CHANNEL CLOSED.") s, None)), None)
  else
    ((startListening_enter r s, None),
     if r_isOffline r then None else Some r).

(** *** The component as a transition system *)

Inductive Event : Type :=
| ServerMessage (currentTime : Q) (message : LiveServerMessage)
| SourceEnded (source : nat)
| ToggleListening (r : Render)
| DevicesAcquired (tracks : list nat)
| SessionOpened (source processor : nat)
| SessionConnected (session : nat)
| StartFailed (reason : string)
| SessionError (e_message : string)
| SessionClosed (r : Render)
| Unmounted.

Definition step (ev : Event) (s : AppState) : Outcome :=
  match ev with
  | ServerMessage currentTime message => onmessage currentTime message s
  | SourceEnded source => (onended source s, None)
  | ToggleListening r => fst (toggleListening r s)
  | DevicesAcquired tracks => (startListening_devices tracks s, None)
  | SessionOpened source processor => (onopen source processor s, None)
  | SessionConnected session => (startListening_connected session s, None)
  | StartFailed reason => startListening_failed reason s
  | SessionError e_message => onerror e_message s
  | SessionClosed r => onclose r s
  | Unmounted => stopListening s
  end.

(** The state after a sequence of events, whether or not a handler threw
    on the way. *)
Definition run (evs : list Event) (s : AppState) : AppState :=
  fold_left (fun s ev => fst (step ev s)) evs s.

Definition is_interruption (ev : Event) : bool :=
  match ev with
  | ServerMessage _ message => interrupted message
  | _ => false
  end.

(** An event that neither carries audio nor is an interruption. *)
Definition quiet (ev : Event) : bool :=
  match ev with
  | ServerMessage _ message =>
      match inlineAudio message with
      | None => negb (interrupted message)
      | Some _ => false
      end
  | _ => true
  end.

(** The time a source was started at, if it was. *)
Definition start_of (source : nat) (s : AppState) : option Q :=
  match nodes s !! source with
  | Some n => startedAt n
  | None => None
  end.

(** Every member of the live set is a node that was started. *)
Definition live_started (s : AppState) : Prop :=
  forall source, source ∈ outputSourcesRef s -> exists t, start_of source s = Some t.

(** The releasing calls one run of [stopListening] makes in state [s]. *)
Definition released (s : AppState) : list Effect :=
  match liveSessionRef s with Some session => [SessionClose session] | None => [] end
  ++ match mediaStreamRef s with Some tracks => map TrackStop tracks | None => [] end
  ++ match scriptProcessorRef s with Some node => [ProcessorDisconnect node] | None => [] end
  ++ match mediaStreamSourceRef s with
     | Some node => [StreamSourceDisconnect node]
     | None => []
     end
  ++ match inputAudioContextRef s with
     | Some closed | None => []
     | Some _ => [ContextClose inputContext]
     end
  ++ match outputAudioContextRef s with
     | Some closed | None => []
     | Some _ => [ContextClose outputContext]
     end
  ++ map SourceStop (elements (outputSourcesRef s)).

(** The resource a releasing call acts on is held in state [s]. *)
Definition held (s : AppState) (e : Effect) : Prop :=
  match e with
  | SessionClose session => liveSessionRef s = Some session
  | TrackStop track => exists tracks, mediaStreamRef s = Some tracks /\ track ∈ tracks
  | ProcessorDisconnect node => scriptProcessorRef s = Some node
  | StreamSourceDisconnect node => mediaStreamSourceRef s = Some node
  | ContextClose which => exists st, context_ref which s = Some st /\ st <> closed
  | ContextCloseRejected _ => False
  | SourceStop source => source ∈ outputSourcesRef s
  end.

(** Nothing is held: no session, stream or node in the refs, no open
    context, no live source, and the component is idle. *)
Definition idle (s : AppState) : Prop :=
  liveSessionRef s = None
  /\ mediaStreamRef s = None
  /\ scriptProcessorRef s = None
  /\ mediaStreamSourceRef s = None
  /\ (forall st, inputAudioContextRef s = Some st -> st = closed)
  /\ (forall st, outputAudioContextRef s = Some st -> st = closed)
  /\ outputSourcesRef s = ∅
  /\ isListening s = false
  /\ isLoading s = false.

Definition closed_of (ref : option ContextState) : option ContextState :=
  match ref with
  | Some _ => Some closed
  | None => None
  end.

(** The nodes after [stop] was called on each of [ids]. *)
Definition stop_nodes (ids : list nat) (ns : list SourceNode) : list SourceNode :=
  fold_left (fun ns id =>
               match ns !! id with
               | Some n => <[id := mark_stopped n]> ns
               | None => ns
               end) ids ns.


(** The state a run of [stopListening] without exception leaves. *)
Definition torn_down (s : AppState) : AppState :=
  mkAppState (messages s) false false None
    (closed_of (inputAudioContextRef s)) (closed_of (outputAudioContextRef s))
    None None None ∅
    (nextStartTimeRef s) (currentInputTranscriptionRef s)
    (currentOutputTranscriptionRef s)
    (stop_nodes (elements (outputSourcesRef s)) (nodes s))
    (journal s ++ released s).

(** [ns'] has the nodes of [ns], started at the same times. *)
Definition nodes_frame (ns ns' : list SourceNode) : Prop :=
  length ns' = length ns
  /\ forall i n', ns' !! i = Some n' -> exists n, ns !! i = Some n /\ startedAt n' = startedAt n.

(** Server messages that carry one thing only: a fragment of the speech
    of the user, a fragment of the speech of the assistant, the
    turn-complete flag. *)
Definition fragment_user (text : string) : Event :=
  ServerMessage 0 (mkServerMessage (Some text) None None false false).

Definition fragment_model (text : string) : Event :=
  ServerMessage 0 (mkServerMessage None (Some text) None false false).

Definition turn_complete : Event :=
  ServerMessage 0 (mkServerMessage None None None true false).

End Live.

(** ** The service worker: periodic inactivity check (lines 65-124) *)

Module ServiceWorker.

Inductive NotificationPermission : Type := granted | denied | prompt.

Definition is_granted (p : NotificationPermission) : bool :=
  match p with
  | granted => true
  | _ => false
  end.

Record Notification : Type := mkNotification {
  title : string;
  body : string;
  icon : string;
  badge : string;
  tag : string
}.

(** What the worker reads: the notification permission, the object store
    ['user-activity'] of the database, or [None] when opening the
    database or the read request fails, and the clock. *)
Record Environment : Type := mkEnvironment {
  permission : NotificationPermission;
  database : option (gmap string Z);
  now : Z
}.

(** [getTimestamp(key)]: the promise resolves with the stored value, with
    [undefined] (here [None]) when the key is absent, and is rejected
    when a request fails. *)
Definition getTimestamp (key : string) (env : Environment) : Result (option Z) :=
  match database env with
  | Some store => Ok (store !! key)
  | None => Throw DatabaseError
  end.

Definition INACTIVITY_THRESHOLD : Z := 24 * 60 * 60 * 1000.

Definition reminder : Notification :=
  mkNotification "ISAAC" "It's been a while. Let's talk." "/vite.svg" "/vite.svg"
    "isaac-reminder".

(** [!lastInteraction]: [undefined] and the number [0] are falsy. *)
Definition falsy (v : option Z) : bool :=
  match v with
  | None => true
  | Some t => t =? 0
  end.

(** [checkInactivityAndNotify()]: the notifications shown, or the error
    the returned promise is rejected with. *)
Definition checkInactivityAndNotify (env : Environment) : Result (list Notification) :=
  if negb (is_granted (permission env)) then Ok []
  else
    let* lastInteraction := getTimestamp "lastInteraction" env in
    if falsy lastInteraction then Ok []
    else
      match lastInteraction with
      | Some t =>
          if now env - t >? INACTIVITY_THRESHOLD then Ok [reminder] else Ok []
      | None => Ok []
      end.

(** The ['periodicsync'] listener. *)
Definition onperiodicsync (event_tag : string) (env : Environment)
  : Result (list Notification) :=
  if String.eqb event_tag "check-inactivity" then checkInactivityAndNotify env
  else Ok [].

End ServiceWorker.

(** ** More of the live session: video frames and runs of buffers *)

Module Session.
Import Codec Live.

(** [handleVideoFrame] (lines 510-516): the frame goes to the session the
    ref holds, as [{media: {mimeType: 'image/jpeg', data}}]; [None] when
    nothing is sent. *)
Definition handleVideoFrame (base64 : string) (s : AppState) : option (nat * GenAIBlob) :=
  match liveSessionRef s with
  | Some session => Some (session, mkBlob base64 "image/jpeg")
  | None => None
  end.





(** The cursor is not negative and no source was started at a negative
    time. *)
Definition never_negative (s : AppState) : Prop :=
  (0 <= nextStartTimeRef s)%Q
  /\ forall (i : nat) (n : SourceNode) (t : Q),
       nodes s !! i = Some n -> startedAt n = Some t -> (0 <= t)%Q.

(** What the audio branch does with a payload, when it is not skipped. *)
Definition decoded (payload : string) : Result AudioBuffer :=
  let* bytes := decode payload in decodeAudioData bytes 24000 1.

End Session.

(** ** Strings of the platform

    A string is the sequence of its code units; the model covers the
    strings whose code units are all below 256. *)

Module Text.

(** White space and line terminators below 256, which
    [String.prototype.trim] strips: TAB, LF, VT, FF, CR, SPACE and the
    no-break space. *)
Definition is_white_space (c : ascii) : bool :=
  let n := nat_of_ascii c in
  ((9 <=? n) && (n <=? 13) || (n =? 32) || (n =? 160))%nat.

Fixpoint trimStart (s : string) : string :=
  match s with
  | String c rest => if is_white_space c then trimStart rest else s
  | EmptyString => EmptyString
  end.

Fixpoint trimEnd (s : string) : string :=
  match s with
  | EmptyString => EmptyString
  | String c rest =>
      match trimEnd rest with
      | EmptyString => if is_white_space c then EmptyString else String c EmptyString
      | kept => String c kept
      end
  end.

(** [s.trim()]. *)
Definition trim (s : string) : string := trimEnd (trimStart s).

(** A letter of [A-Z], or of the upper-case letters of Latin-1
    (U+00C0-U+00DE without the multiplication sign), becomes the letter 32
    places further. *)
Definition lower (c : ascii) : ascii :=
  let n := nat_of_ascii c in
  if ((65 <=? n) && (n <=? 90) || (192 <=? n) && (n <=? 222) && negb (n =? 215))%nat
  then ascii_of_nat (n + 32)
  else c.

(** [s.toLowerCase()]. *)
Fixpoint toLowerCase (s : string) : string :=
  match s with
  | EmptyString => EmptyString
  | String c rest => String (lower c) (toLowerCase rest)
  end.

(** [s.split(sep)] for a separator of one character: the pieces between the
    separators, at least one piece. *)
Fixpoint split (sep : ascii) (s : string) : list string :=
  match s with
  | EmptyString => [EmptyString]
  | String c rest =>
      if Ascii.eqb c sep then EmptyString :: split sep rest
      else match split sep rest with
           | piece :: pieces => String c piece :: pieces
           | [] => [String c EmptyString]
           end
  end.

(** Whether the character [c] is one of the code units of [s]. *)
Definition occurs (c : ascii) (s : string) : bool :=
  existsb (Ascii.eqb c) (list_ascii_of_string s).

(** A string in a condition: the empty string is falsy. *)
Definition truthy (s : string) : bool :=
  match s with
  | EmptyString => false
  | String _ _ => true
  end.

(** [String(v)] of a value that may be [undefined]. *)
Definition ToString (v : option string) : string :=
  match v with
  | Some s => s
  | None => "undefined"
  end.

End Text.

(** ** The input line ([src/components/UserInput.tsx]) *)

Module UserInput.
Import Text.

(** The props the handlers read. *)
Record Props : Type := mkProps {
  commandHistory : list string;
  isLoading : bool;
  imagePreviewUrl : option string
}.

Record InputState : Type := mkInputState {
  value : string;
  historyIndex : Z
}.

Inductive Key : Type := ArrowUp | ArrowDown | Enter | OtherKey.

Record KeyboardEvent : Type := mkKeyboardEvent {
  key : Key;
  shiftKey : bool
}.

(** What a handler did besides setting state: the message given to
    [onSend], and whether [preventDefault] was called. *)
Record Handled : Type := mkHandled {
  after : InputState;
  sent : option string;
  defaultPrevented : bool
}.

(** The state a fresh component starts with (lines 39-40). *)
Definition mounted (p : Props) : InputState :=
  mkInputState EmptyString (Z.of_nat (length (commandHistory p))).

(** [commandHistory[i] || '']: an index outside the array reads
    [undefined]. *)
Definition entry_or_empty (history : list string) (i : Z) : string :=
  if i <? 0 then EmptyString
  else match history !! Z.to_nat i with
       | Some command => if truthy command then command else EmptyString
       | None => EmptyString
       end.

(** Lines 209-214. *)
Definition handleSubmit (p : Props) (st : InputState) : InputState * option string :=
  if (truthy (trim (value st))
      || match imagePreviewUrl p with Some url => truthy url | None => false end)
     && negb (isLoading p)
  then (mkInputState EmptyString (historyIndex st), Some (trim (value st)))
  else (st, None).

(** Lines 216-221: the message given to [onSend], if any. *)
Definition handleRunLastCommand (p : Props) : option string :=
  if (0 <? length (commandHistory p))%nat && negb (isLoading p)
  then commandHistory p !! (length (commandHistory p) - 1)%nat
  else None.

(** Lines 223-240. *)
Definition handleKeyDown (e : KeyboardEvent) (p : Props) (st : InputState) : Handled :=
  let hasHistory := (0 <? length (commandHistory p))%nat in
  match key e with
  | ArrowUp =>
      if hasHistory then
        let newIndex := Z.max 0 (historyIndex st - 1) in
        mkHandled (mkInputState (entry_or_empty (commandHistory p) newIndex) newIndex)
          None true
      else mkHandled st None false
  | ArrowDown =>
      if hasHistory then
        let newIndex := Z.min (Z.of_nat (length (commandHistory p))) (historyIndex st + 1) in
        mkHandled (mkInputState (entry_or_empty (commandHistory p) newIndex) newIndex)
          None true
      else mkHandled st None false
  | Enter =>
      if negb (shiftKey e) then
        let (st', message) := handleSubmit p st in mkHandled st' message true
      else mkHandled st None false
  | OtherKey => mkHandled st None false
  end.

(** Lines 242-245. *)
Definition handleChange (target_value : string) (p : Props) (st : InputState) : InputState :=
  mkInputState target_value (Z.of_nat (length (commandHistory p))).

(** The same key pressed [k] times. *)
Fixpoint presses (k : nat) (e : KeyboardEvent) (p : Props) (st : InputState) : InputState :=
  match k with
  | O => st
  | S k' => presses k' e p (after (handleKeyDown e p st))
  end.

Definition up : KeyboardEvent := mkKeyboardEvent ArrowUp false.
Definition down : KeyboardEvent := mkKeyboardEvent ArrowDown false.

(** *** [dataURLtoFile] (lines 16-26) *)

(** LF and CR, the line terminators below 256: the characters the [.] of
    a regular expression does not match. *)
Definition is_line_terminator (c : ascii) : bool :=
  let n := nat_of_ascii c in ((n =? 10) || (n =? 13))%nat.

(** [(.*?);] matched at the start of [s]: the group, when there is a
    match.  The lazy star takes the fewest characters, so the group ends
    at the first [;]. *)
Fixpoint group_to_semicolon (s : string) : option string :=
  match s with
  | EmptyString => None
  | String c rest =>
      if Ascii.eqb c ";" then Some EmptyString
      else if is_line_terminator c then None
      else option_map (String c) (group_to_semicolon rest)
  end.

(** [s.match(/:(.*?);/)?.[1]]: group 1 of the leftmost match. *)
Fixpoint match_mime (s : string) : option string :=
  match s with
  | EmptyString => None
  | String c rest =>
      if Ascii.eqb c ":" then
        match group_to_semicolon rest with
        | Some group => Some group
        | None => match_mime rest
        end
      else match_mime rest
  end.

(** The arguments of [new File([u8arr], filename, { type: mime })]. *)
Record File : Type := mkFile {
  bits : list byte;
  name : string;
  type : string
}.

Definition dataURLtoFile (dataurl filename : string) : Result File :=
  let arr := split "," dataurl in
  let mime := match match_mime (ToString (arr !! 0%nat)) with
              | Some group => if truthy group then group else "image/png"
              | None => "image/png"
              end in
  let* bstr := of_option InvalidCharacterError (Base64.atob (ToString (arr !! 1%nat))) in
  Ok (mkFile (list_byte_of_string bstr) filename mime).


(** The frame the video effect hands to [onVideoFrame] (lines 83-85):
    [dataUrl.split(',')[1]]. *)
Definition frame_payload (dataUrl : string) : option string :=
  split "," dataUrl !! 1%nat.

End UserInput.

(** ** The text chat ([src/App.tsx], lines 120-128, 155-166 and 221-342) *)

Module Chat.
Import Text.

Record Image : Type := mkImage {
  data : string;
  mimeType : string;
  previewUrl : string
}.

(** A part of a request to the model. *)
Inductive Part : Type :=
| inlineData (data mimeType : string)
| text (t : string).

(** The calls that leave the component. *)
Inductive Call : Type :=
| requestPermission                          (* Notification.requestPermission() *)
| setTimestamp (key : string) (value : Z)    (* setTimestamp(key, Date.now()) *)
| prompt                                     (* installPrompt.prompt() *)
| create                                     (* ai.chats.create(...) *)
| sendMessageStream (message : list Part)
| register (tag : string) (minInterval : Z). (* periodicSync.register(tag, ...) *)

Record State : Type := mkState {
  messages : list Live.Message;
  commandHistory : list string;
  isLoading : bool;
  isOffline : bool;
  image : option Image;
  installPrompt : bool;       (* whether an install prompt event is kept *)
  chatRef : bool;             (* whether the ref holds a chat *)
  showInstallHelp : bool;
  calls : list Call
}.

(** The values [handleSend] closes over (its dependency list, line 342). *)
Record Render : Type := mkRender {
  r_isOffline : bool;
  r_image : option Image;
  r_installPrompt : bool
}.

(** The render of a state. *)
Definition render (s : State) : Render :=
  mkRender (isOffline s) (image s) (installPrompt s).

(** What [handleSend] reads from the platform: whether [Notification]
    exists with the permission ['default'], the clock, and whether creating
    the chat throws. *)
Record Platform : Type := mkPlatform {
  permission_default : bool;
  now : Z;
  create_throws : bool
}.

Definition set_messages (f : list Live.Message -> list Live.Message) (s : State) : State :=
  mkState (f (messages s)) (commandHistory s) (isLoading s) (isOffline s) (image s)
    (installPrompt s) (chatRef s) (showInstallHelp s) (calls s).

Definition set_commandHistory (f : list string -> list string) (s : State) : State :=
  mkState (messages s) (f (commandHistory s)) (isLoading s) (isOffline s) (image s)
    (installPrompt s) (chatRef s) (showInstallHelp s) (calls s).

Definition set_isLoading (b : bool) (s : State) : State :=
  mkState (messages s) (commandHistory s) b (isOffline s) (image s)
    (installPrompt s) (chatRef s) (showInstallHelp s) (calls s).

Definition set_isOffline (b : bool) (s : State) : State :=
  mkState (messages s) (commandHistory s) (isLoading s) b (image s)
    (installPrompt s) (chatRef s) (showInstallHelp s) (calls s).

Definition set_image (v : option Image) (s : State) : State :=
  mkState (messages s) (commandHistory s) (isLoading s) (isOffline s) v
    (installPrompt s) (chatRef s) (showInstallHelp s) (calls s).

Definition set_chatRef (b : bool) (s : State) : State :=
  mkState (messages s) (commandHistory s) (isLoading s) (isOffline s) (image s)
    (installPrompt s) b (showInstallHelp s) (calls s).

Definition set_showInstallHelp (b : bool) (s : State) : State :=
  mkState (messages s) (commandHistory s) (isLoading s) (isOffline s) (image s)
    (installPrompt s) (chatRef s) b (calls s).

Definition call (c : Call) (s : State) : State :=
  mkState (messages s) (commandHistory s) (isLoading s) (isOffline s) (image s)
    (installPrompt s) (chatRef s) (showInstallHelp s) (calls s ++ [c]).

(** [setMessages(prev => [...prev, m])]. *)
Definition append (m : Live.Message) (s : State) : State :=
  set_messages (fun prev => prev ++ [m]) s.

(** Lines 121-128. *)
Definition handleOnline (s : State) : State :=
  append (Live.entry Live.model "[SYSTEM] CONNECTION RESTORED. ONLINE.")
    (set_isOffline false s).

Definition handleOffline (s : State) : State :=
  append (Live.entry Live.error "[SYSTEM] CONNECTION LOST. OFFLINE MODE.")
    (set_isOffline true s).

(** Lines 155-166, up to the [await] of the user's choice. *)
Definition handleInstallClick (r : Render) (s : State) : State :=
  if r_installPrompt r then call prompt s else set_showInstallHelp true s.

(** Lines 221-236. *)
Definition initializeTextChat (w : Platform) (s : State) : State :=
  if chatRef s then s
  else if create_throws w then
    append (Live.entry Live.error
              "CRITICAL ERROR: AI Core failed to initialize. Check API Key and network.") s
  else set_chatRef true (call create s).

(** Line 269: the updater given to [setCommandHistory]. *)
Definition push (trimmedMessage : string) (prev : list string) : list string :=
  if (0 <? length prev)%nat
     && match prev !! (length prev - 1)%nat with
        | Some last => String.eqb last trimmedMessage
        | None => false
        end
  then prev
  else prev ++ [trimmedMessage].

Definition LF : string := String "010" EmptyString.

Definition installText : string :=
  String.concat LF
    ["[ISAAC] To install this app on your device, tap the 'INSTALL' button in the top-left header.";
     EmptyString;
     "If you don't see it:";
     "- **Android:** Tap the 3 dots menu -> Install App.";
     "- **iOS:** Tap Share -> Add to Home Screen."]%string.

Definition helpText : string :=
  String.concat LF
    ["[ISAAC] HELP PROTOCOL:";
     EmptyString;
     "- Type any command or question to interact with ISAAC.";
     "- Use the microphone button for voice commands.";
     "- Use the attachment button to upload an image.";
     "- Type 'install' for download instructions.";
     "- Use Up/Down arrows to navigate command history."]%string.

(** Lines 281-301: the commands answered without the model; [None] when
    the message is none of them. *)
Definition client_command (r : Render) (trimmedMessage : string) (s : State)
  : option State :=
  match r_image r with
  | Some _ => None
  | None =>
      let lowerCaseMessage := toLowerCase trimmedMessage in
      if String.eqb lowerCaseMessage "clear" then
        Some (set_messages (fun _ => [Live.entry Live.model "SCREEN CLEARED."]) s)
      else if Live.includes lowerCaseMessage "how to download"
              || Live.includes lowerCaseMessage "install"
              || String.eqb lowerCaseMessage "download" then
        Some (handleInstallClick r (append (Live.entry Live.model installText) s))
      else if String.eqb lowerCaseMessage "help" then
        Some (append (Live.entry Live.model helpText) s)
      else None
  end.

Definition default_prompt : string :=
  "Identify what is in this image, explain what it is, and describe its uses and when it is helpful.".

(** Lines 312-320. *)
Definition messageParts (r : Render) (trimmedMessage : string) : list Part :=
  let textPrompt :=
    if truthy trimmedMessage then trimmedMessage
    else match r_image r with
         | Some _ => default_prompt
         | None => EmptyString
         end in
  match r_image r with
  | Some img => [inlineData (data img) (mimeType img)]
  | None => []
  end ++ (if truthy textPrompt then [text textPrompt] else []).

(** How a call of [handleSend] leaves its synchronous part: it has
    returned, or it awaits the stream it asked for. *)
Inductive Pending : Type :=
| Returned
| Awaiting (message : list Part).

(** Lines 253-322, up to the [await] of [sendMessageStream]. *)
Definition handleSend (w : Platform) (r : Render) (message : string) (s : State)
  : State * Pending :=
  let trimmedMessage := trim message in
  if negb (truthy trimmedMessage) && negb (bool_decide (is_Some (r_image r)))
  then (s, Returned)
  else
    let s := if permission_default w then call requestPermission s else s in
    let s := call (setTimestamp "lastInteraction" (now w)) s in
    let s := if truthy trimmedMessage
             then set_commandHistory (push trimmedMessage) s else s in
    let userMessage :=
      Live.mkMessage Live.user trimmedMessage (option_map previewUrl (r_image r)) in
    let s := append userMessage s in
    if r_isOffline r then
      (set_image None (append (Live.entry Live.error "OFFLINE: Cannot send message.") s),
       Returned)
    else
      match client_command r trimmedMessage s with
      | Some s' => (s', Returned)
      | None =>
          let s := initializeTextChat w s in
          if negb (chatRef s) then
            (append (Live.entry Live.error "ERROR: Chat not initialized.") s, Returned)
          else
            let parts := messageParts r trimmedMessage in
            (call (sendMessageStream parts) (set_isLoading true s), Awaiting parts)
      end.

(** Line 324: the stream is there. *)
Definition opened (s : State) : State :=
  append (Live.entry Live.model EmptyString) s.

(** [newMessages[newMessages.length - 1] = m] on a copy of the log: on an
    empty log the assignment makes a property named [-1], not an
    element. *)
Definition set_last (m : Live.Message) (prevMessages : list Live.Message)
  : list Live.Message :=
  if (length prevMessages =? 0)%nat then prevMessages
  else <[(length prevMessages - 1)%nat := m]> prevMessages.

(** Lines 327-332: one chunk.  [text] is the local variable of the call;
    a chunk without text adds the name of [undefined]. *)
Definition chunk (text_so_far : string) (chunk_text : option string) (s : State)
  : string * State :=
  let text_now := String.append text_so_far (ToString chunk_text) in
  (text_now, set_messages (set_last (Live.entry Live.model text_now)) s).

Fixpoint chunks (text_so_far : string) (cs : list (option string)) (s : State)
  : string * State :=
  match cs with
  | [] => (text_so_far, s)
  | c :: rest => let (text_now, s') := chunk text_so_far c s in chunks text_now rest s'
  end.

(** Lines 334-337: the [catch] block; the argument is [error.message]
    when the error is an [Error]. *)
Definition transmission_error (error_message : option string) (s : State) : State :=
  append (Live.entry Live.error
            (String.append "TRANSMISSION ERROR: "
               match error_message with
               | Some m => m
               | None => "Unknown communication failure."
               end)) s.

(** Lines 338-341. *)
Definition finally (s : State) : State := set_image None (set_isLoading false s).

(** How a stream ends. *)
Inductive Ending : Type :=
| Completed
| Threw (error_message : option string).

(** The rest of [handleSend] when nothing else happens in between: the
    request is rejected, or the stream opens, gives its chunks and ends. *)
Definition rejected (error_message : option string) (s : State) : State :=
  finally (transmission_error error_message s).

Definition streamed (cs : list (option string)) (ending : Ending) (s : State) : State :=
  let (_, s') := chunks EmptyString cs (opened s) in
  finally match ending with
          | Completed => s'
          | Threw error_message => transmission_error error_message s'
          end.

(** The chunks of a stream one after the other. *)
Definition whole (cs : list (option string)) : string :=
  foldr (fun c rest => String.append (ToString c) rest) EmptyString cs.

(** No command is empty or padded with white space, and no two
    neighbours are equal. *)
Definition tidy (history : list string) : Prop :=
  (forall (i : nat) (command : string),
     history !! i = Some command -> command <> EmptyString /\ trim command = command)
  /\ (forall (i : nat) (a b : string),
        history !! i = Some a -> history !! S i = Some b -> a <> b).

(** The state of a component mounted online (lines 97-107). *)
Definition initial : State :=
  mkState [] [] true false None false false false [].

(** *** The startup sequence (lines 168-219) *)

Definition startupSequence : list (Z * string) :=
  [(500, "BOOTING ISAAC v3.1 MOBILE...");
   (1000, "ACCESSING NEURAL CORE... [OK]");
   (1200, "CALIBRATING LOGIC MATRIX... [OK]");
   (1500, "LOADING DIRECTIVES... [OK]");
   (2000, String.append LF (String.append "  [ I ]" (String.append LF "      ")));
   (2500, String.append "STATUS: ONLINE." (String.append LF "AWAITING DIRECTIVES."))]%string.

(** [sequence[index - 1]?.delay || 0]. *)
Definition previous_delay (sequence : list (Z * string)) (index : nat) : Z :=
  match index with
  | O => 0
  | S before =>
      match sequence !! before with
      | Some (delay, _) => delay
      | None => 0
      end
  end.

(** The delay [runSequence(index)] gives to [setTimeout] (line 207). *)
Definition timeout (sequence : list (Z * string)) (index : nat) : Z :=
  match sequence !! index with
  | Some (delay, _) => delay - previous_delay sequence index
  | None => 0
  end.

(** The callback of the timer (lines 185-206): the text is appended, and
    with the last text loading ends and the periodic sync is registered,
    when the platform has one; [runSequence(index + 1)] then sets the next
    timer. *)
Definition timer_fires (periodicSync : bool) (sequence : list (Z * string)) (index : nat)
           (s : State) : State :=
  match sequence !! index with
  | Some (_, startup_text) =>
      let s := append (Live.entry Live.model startup_text) s in
      if bool_decide (Z.of_nat index = Z.of_nat (length sequence) - 1)
      then
        let s := set_isLoading false s in
        if periodicSync then call (register "check-inactivity" (12 * 60 * 60 * 1000)) s
        else s
      else s
  | None => s
  end.

(** [runSequence()]: the timers are set one by one, each when the one
    before it fires, for every index below the length.  A timer fires its
    delay after it was set, at once when the delay is negative.  The
    result is the time at which each timer fires, counted from the call,
    and the state after the last one. *)
Fixpoint runSequence (periodicSync : bool) (sequence : list (Z * string))
         (indexes : list nat) (clock : Z) (s : State) : list Z * State :=
  match indexes with
  | [] => ([], s)
  | index :: rest =>
      let fired := clock + Z.max 0 (timeout sequence index) in
      let (times, s') :=
        runSequence periodicSync sequence rest fired
          (timer_fires periodicSync sequence index s) in
      (fired :: times, s')
  end.

Definition startup (periodicSync : bool) (sequence : list (Z * string)) (s : State)
  : list Z * State :=
  runSequence periodicSync sequence (seq 0 (length sequence)) 0 s.

(** The delays are not negative and do not decrease. *)
Fixpoint ascending (floor : Z) (sequence : list (Z * string)) : Prop :=
  match sequence with
  | [] => True
  | (delay, _) :: rest => floor <= delay /\ ascending delay rest
  end.

End Chat.

(** ** The chat history ([src/components/ChatHistory.tsx]):
       the typing effect (lines 37-51) and the code blocks (lines 9-35) *)

Module ChatHistory.

(** [s.slice(0, n)] for a count [n]: at most the whole string. *)
Definition slice_0 (s : string) (n : nat) : string := String.substring 0 n s.

(** The timer of [useTypingEffect] fires: no timer is set when the typed
    text is the full text; otherwise the typed text becomes the first
    characters of the full text, one more than it had. *)
Definition tick (fullText typedText : string) : string :=
  if String.eqb typedText fullText then typedText
  else slice_0 fullText (String.length typedText + 1).

Fixpoint ticks (k : nat) (fullText typedText : string) : string :=
  match k with
  | O => typedText
  | S k' => ticks k' fullText (tick fullText typedText)
  end.

(** *** [formatContent] (lines 9-35)

    The regular expression [/```(\w+)?\n([\s\S]+?)```/g] matches at a
    position when the content has there a fence, a run of word characters
    (all of them: the next character must be the line feed, which is no
    word character), a line feed, at least one character, and a fence
    again; the lazy quantifier ends the code at the first fence that
    follows its first character. *)

(** [s] without the fence it starts with. *)
Definition after_fence (s : string) : option string :=
  match s with
  | String "`" (String "`" (String "`" rest)) => Some rest
  | _ => None
  end.

(** [\w]: a letter of [A-Za-z], a digit or the underscore. *)
Definition is_word (c : ascii) : bool :=
  let n := nat_of_ascii c in
  ((65 <=? n) && (n <=? 90) || (97 <=? n) && (n <=? 122)
   || (48 <=? n) && (n <=? 57) || (n =? 95))%nat.

(** The longest run of word characters [s] starts with, and the rest. *)
Fixpoint word_run (s : string) : string * string :=
  match s with
  | String c rest =>
      if is_word c then let (w, r) := word_run rest in (String c w, r)
      else (EmptyString, s)
  | EmptyString => (EmptyString, EmptyString)
  end.

(** What stands before the first fence of [s], and what stands after
    it. *)
Fixpoint find_fence (s : string) : option (string * string) :=
  match s with
  | EmptyString => None
  | String c rest =>
      match after_fence s with
      | Some after => Some (EmptyString, after)
      | None =>
          match find_fence rest with
          | Some (before, after) => Some (String c before, after)
          | None => None
          end
      end
  end.

(** A match of the expression at the start of [s]: group 1 ([undefined]
    when there is no word), group 2 and what follows the match. *)
Definition match_here (s : string) : option (option string * string * string) :=
  match after_fence s with
  | None => None
  | Some opened =>
      let (w, r) := word_run opened in
      match r with
      | String c (String c1 r') =>
          if Ascii.eqb c "010" then
            match find_fence r' with
            | Some (before, after) =>
                Some (match w with EmptyString => None | _ => Some w end,
                      String c1 before, after)
            | None => None
            end
          else None
      | _ => None
      end
  end.

(** [codeBlockRegex.exec] on what is left of the content: the leftmost
    match, with what stands before it. *)
Fixpoint exec (s : string) : option (string * option string * string * string) :=
  match s with
  | EmptyString => None
  | String c rest =>
      match match_here s with
      | Some (group1, code, after) => Some (EmptyString, group1, code, after)
      | None =>
          match exec rest with
          | Some (before, group1, code, after) => Some (String c before, group1, code, after)
          | None => None
          end
      end
  end.

(** The elements [formatContent] returns: a [span] of text, or a code
    block with group 1 and the code; each with its key. *)
Inductive Part : Type :=
| span (key : nat) (text : string)
| codeBlock (key : nat) (group1 : option string) (code : string).

(** [match[1] || 'plaintext']. *)
Definition language (group1 : option string) : string :=
  match group1 with
  | Some w => match w with EmptyString => "plaintext" | _ => w end
  | None => "plaintext"
  end.

(** The loop of lines 15-28 and the rest of lines 30-32, on what is left
    of the content from [lastIndex] on.  Every match takes eight
    characters at least, so the loop runs fewer times than the content has
    characters, which is what [fuel] counts. *)
Fixpoint format (fuel : nat) (left : string) (lastIndex : nat) : list Part :=
  match fuel with
  | O => []
  | S fuel' =>
      match exec left with
      | Some (before, group1, code, after) =>
          let index := (lastIndex + String.length before)%nat in
          let matched := (3 + String.length (default EmptyString group1) + 1
                          + String.length code + 3)%nat in
          (if (lastIndex <? index)%nat then [span lastIndex before] else [])
          ++ codeBlock index group1 code :: format fuel' after (index + matched)
      | None =>
          if (0 <? String.length left)%nat then [span lastIndex left] else []
      end
  end.

Definition formatContent (content : string) : list Part :=
  format (S (String.length content)) content 0.

Definition fence : string := "```".

(** The text a part was made from. *)
Definition written (p : Part) : string :=
  match p with
  | span _ text => text
  | codeBlock _ group1 code =>
      String.append fence
        (String.append (default EmptyString group1)
           (String "010" (String.append code fence)))
  end.

Definition written_all (parts : list Part) : string :=
  foldr (fun p rest => String.append (written p) rest) EmptyString parts.

End ChatHistory.

(** ** The service worker: caches and notification clicks
       (lines 1-63 and 126-143) *)

Module AppShell.

Definition CACHE_NAME : string := "isaac-terminal-cache-v3".

(** A request: its URL, the host name of the URL, whether its method is
    GET and whether its scheme is http or https.  Request headers, and
    with them the [Vary] header of a response, are outside the model. *)
Record Request : Type := mkRequest {
  url : string;
  hostname : string;
  get : bool;
  http : bool
}.

Record Response : Type := mkResponse {
  status : Z;
  body : string
}.

(** A cache holds pairs of a request and a response, a cache storage the
    named caches in the order of their creation. *)
Definition Cache : Type := list (Request * Response).
Definition CacheStorage : Type := list (string * Cache).

Definition same_url (request : Request) (e : Request * Response) : bool :=
  String.eqb (url (fst e)) (url request).

(** [cache.match(request)]: a request that is not a GET matches
    nothing. *)
Definition cache_match (request : Request) (cache : Cache) : option Response :=
  if get request then option_map snd (find (same_url request) cache) else None.

(** [caches.match(request)]: the first match, in the order of the
    caches. *)
Fixpoint caches_match (request : Request) (storage : CacheStorage) : option Response :=
  match storage with
  | [] => None
  | (_, cache) :: rest =>
      match cache_match request cache with
      | Some response => Some response
      | None => caches_match request rest
      end
  end.

Definition has_cache (cacheName : string) (storage : CacheStorage) : bool :=
  existsb (fun c => String.eqb (fst c) cacheName) storage.

(** [caches.open(cacheName)] makes the cache when there is none of that
    name. *)
Definition caches_open (cacheName : string) (storage : CacheStorage) : CacheStorage :=
  if has_cache cacheName storage then storage else storage ++ [(cacheName, [])].

(** [cache.put(request, response)] replaces the entries of the request;
    it is rejected, and stores nothing, for a request that is not a GET or
    whose scheme is not http or https. *)
Definition cache_put (request : Request) (response : Response) (cache : Cache) : Cache :=
  if get request && http request
  then List.filter (fun e => negb (same_url request e)) cache ++ [(request, response)]
  else cache.

(** The put on the cache of that name. *)
Definition put_in (cacheName : string) (request : Request) (response : Response)
           (storage : CacheStorage) : CacheStorage :=
  map (fun c => if String.eqb (fst c) cacheName
                then (fst c, cache_put request response (snd c)) else c) storage.

(** [caches.open(cacheName).then(cache => cache.put(request, response))]. *)
Definition open_and_put (cacheName : string) (request : Request) (response : Response)
           (storage : CacheStorage) : CacheStorage :=
  put_in cacheName request response (caches_open cacheName storage).

(** The ['activate'] listener (lines 20-34): every cache whose name is not
    in the whitelist [[CACHE_NAME]] is deleted. *)
Definition onactivate (storage : CacheStorage) : CacheStorage :=
  List.filter (fun c => String.eqb (fst c) CACHE_NAME) storage.

Definition is_api (request : Request) : bool :=
  Live.includes (hostname request) "generativelanguage.googleapis.com".

(** The ['fetch'] listener (lines 36-63).  [network] is what
    [fetch(request)] resolves with, [None] when it is rejected.  The
    result is the response the page gets ([None]: a network error) and
    the cache storage once the promises of the event have settled. *)
Definition onfetch (request : Request) (network : option Response) (storage : CacheStorage)
  : option Response * CacheStorage :=
  if is_api request then (network, storage)
  else
    let cachedResponse := caches_match request storage in
    let storage' :=
      match network with
      | Some networkResponse =>
          if status networkResponse =? 200
          then open_and_put CACHE_NAME request networkResponse storage
          else storage
      | None => storage
      end in
    (match cachedResponse with
     | Some response => Some response
     | None => network
     end, storage').

(** Fetch events one after the other. *)
Fixpoint fetches (events : list (Request * option Response)) (storage : CacheStorage)
  : CacheStorage :=
  match events with
  | [] => storage
  | (request, network) :: rest => fetches rest (snd (onfetch request network storage))
  end.

(** Every entry of a cache named [CACHE_NAME] satisfies [P]. *)
Definition shell_entries (P : Request -> Response -> Prop) (storage : CacheStorage) : Prop :=
  forall (cacheName : string) (cache : Cache) (request : Request) (response : Response),
    In (cacheName, cache) storage -> cacheName = CACHE_NAME ->
    In (request, response) cache -> P request response.

(** An entry the fetch listener may write: a response of status 200 to a
    GET request over http(s) to a host other than the API. *)
Definition revalidated (request : Request) (response : Response) : Prop :=
  is_api request = false
  /\ get request = true
  /\ http request = true
  /\ status response = 200.

(** *** Notification clicks (lines 126-143) *)

Record Client : Type := mkClient {
  id : nat;
  focused : bool
}.

Inductive Action : Type :=
| focus (client : Client)
| openWindow (target : string).

(** The loop of lines 132-137. *)
Definition pick (clientList : list Client) (first : Client) : Client :=
  fold_left (fun client c => if focused c then c else client) clientList first.

Definition onnotificationclick (clientList : list Client) : Action :=
  match clientList with
  | [] => openWindow "/"
  | first :: _ => focus (pick clientList first)
  end.

End AppShell.

(** * Properties *)

(** ** Bytes and base64 *)

Lemma Z_of_byte_range (b : byte) : 0 <= Z_of_byte b < 256.
Proof.
  unfold Z_of_byte. pose proof (Byte.to_N_bounded b). lia.
Qed.

Lemma byte_of_Z_of_byte (b : byte) : byte_of_Z (Z_of_byte b) = b.
Proof.
  unfold byte_of_Z. pose proof (Z_of_byte_range b) as Hb.
  rewrite Z.mod_small by exact Hb.
  unfold Z_of_byte. rewrite N2Z.id.
  rewrite <- ascii_of_byte_via_N. apply byte_of_ascii_of_byte.
Qed.

Lemma Z_of_byte_of_Z (z : Z) : Z_of_byte (byte_of_Z z) = z mod 256.
Proof.
  unfold byte_of_Z, Z_of_byte.
  pose proof (Z.mod_pos_bound z 256 ltac:(lia)) as Hm.
  set (n := Z.to_N (z mod 256)).
  assert (Hn : (n < 256)%N) by (subst n; lia).
  pose proof (byte_of_ascii_via_N (ascii_of_N n)) as H.
  rewrite (N_ascii_embedding n Hn) in H.
  symmetry in H. apply Byte.to_of_N in H. rewrite H. subst n. lia.
Qed.

(** [btoa], [atob] and the codec on small inputs. *)
Example btoa_ex1 : Base64.btoa "Man" = "TWFu"%string.
Proof. reflexivity. Qed.
Example btoa_ex2 : Base64.btoa "Ma" = "TWE="%string.
Proof. reflexivity. Qed.
Example btoa_ex3 : Base64.btoa "M" = "TQ=="%string.
Proof. reflexivity. Qed.
Example atob_ex1 : Base64.atob "TWFu" = Some "Man"%string.
Proof. reflexivity. Qed.
Example atob_ex2 : Base64.atob "TWE=" = Some "Ma"%string.
Proof. reflexivity. Qed.
Example atob_ex3 : Base64.atob "TQ" = Some "M"%string.
Proof. reflexivity. Qed.
Example atob_ex4 : Base64.atob "T" = None.
Proof. reflexivity. Qed.
Example atob_ex5 : Base64.atob "T Q = =" = Some "M"%string.
Proof. reflexivity. Qed.
Example createBlob_ex1 :
  Codec.createBlob [0; 1 # 2; - (1 # 2); 32767 # 32768; -1]%Q
  = Codec.mkBlob "AAAAQADA/38AgA==" "audio/pcm;rate=16000".
Proof. reflexivity. Qed.
Example decode_ex1 :
  (let* bytes := Codec.decode "AAAAQADA/38AgA==" in
   let* audioBuffer := Codec.decodeAudioData bytes 24000 1 in
   Ok (Codec.channelData audioBuffer))
  = Ok [[0 # 32768; 16384 # 32768; - 16384 # 32768; 32767 # 32768; -32768 # 32768]%Q].
Proof. vm_compute. reflexivity. Qed.

Section ListInduction3.
Context {A : Type} (P : list A -> Prop).
Hypothesis P0 : P [].
Hypothesis P1 : forall a, P [a].
Hypothesis P2 : forall a b, P [a; b].
Hypothesis P3 : forall a b c l, P l -> P (a :: b :: c :: l).

Lemma list_ind3 : forall l, P l.
Proof.
  assert (H : forall l, P l /\ (forall a, P (a :: l)) /\ (forall a b, P (a :: b :: l))).
  { induction l as [|x l (IH0 & IH1 & IH2)]; repeat split; auto. }
  intros l. apply H.
Qed.
End ListInduction3.

Lemma char_of_spec (v : Z) :
  0 <= v < 64 ->
  Base64.value_of (Base64.char_of v) = Some v
  /\ Base64.is_whitespace (Base64.char_of v) = false
  /\ Base64.is_pad (Base64.char_of v) = false.
Proof.
  intros Hv.
  assert (E : v = Z.of_nat (Z.to_nat v)) by lia.
  assert (Hn : (Z.to_nat v < 64)%nat) by lia.
  revert E Hn. generalize (Z.to_nat v). intros n E Hn. subst v.
  do 64 (destruct n as [|n]; [vm_compute; auto|]). lia.
Qed.

Lemma sextets_of_bytes_range (bs : list byte) :
  Forall (fun v => 0 <= v < 64) (Base64.sextets_of_bytes bs).
Proof.
  induction bs as [|a|a b|a b c l IH] using list_ind3; cbn [Base64.sextets_of_bytes].
  - constructor.
  - pose proof (Z_of_byte_range a).
    repeat constructor; try (apply Z.div_pos; lia); try (apply Z.mod_pos_bound; lia);
      try (apply Z.div_lt_upper_bound; lia).
  - pose proof (Z_of_byte_range a). pose proof (Z_of_byte_range b).
    repeat constructor; try (apply Z.div_pos; lia); try (apply Z.mod_pos_bound; lia);
      try (apply Z.div_lt_upper_bound; lia).
  - pose proof (Z_of_byte_range a). pose proof (Z_of_byte_range b).
    pose proof (Z_of_byte_range c).
    repeat (constructor; [first [ apply Z.mod_pos_bound; lia
                               | split; [apply Z.div_pos; lia | apply Z.div_lt_upper_bound; lia] ] |]).
    exact IH.
Qed.

Lemma byte_of_Z_eq (b : byte) (z : Z) : z mod 256 = Z_of_byte b -> byte_of_Z z = b.
Proof.
  intros H. rewrite <- (byte_of_Z_of_byte b). unfold byte_of_Z.
  rewrite H. rewrite (Z.mod_small (Z_of_byte b)) by apply Z_of_byte_range. reflexivity.
Qed.

Lemma sextets_join4 (n : Z) :
  0 <= n < 16777216 ->
  ((n / 262144 * 64 + (n / 4096) mod 64) * 64 + (n / 64) mod 64) * 64 + n mod 64 = n.
Proof. intros H. Z.div_mod_to_equations. lia. Qed.

Lemma sextets_join3 (n : Z) :
  0 <= n < 262144 ->
  (n / 4096 * 64 + (n / 64) mod 64) * 64 + n mod 64 = n.
Proof. intros H. Z.div_mod_to_equations. lia. Qed.

Lemma sextets_join2 (n : Z) :
  0 <= n < 4096 -> n / 64 * 64 + n mod 64 = n.
Proof. intros H. Z.div_mod_to_equations. lia. Qed.

Lemma bytes_of_sextets_of_bytes (bs : list byte) :
  Base64.bytes_of_sextets (Base64.sextets_of_bytes bs) = bs.
Proof.
  induction bs as [|a|a b|a b c l IH] using list_ind3;
    cbn [Base64.sextets_of_bytes Base64.bytes_of_sextets].
  - reflexivity.
  - pose proof (Z_of_byte_range a) as Ha.
    rewrite sextets_join2 by lia.
    f_equal. apply byte_of_Z_eq. Z.div_mod_to_equations. lia.
  - pose proof (Z_of_byte_range a) as Ha. pose proof (Z_of_byte_range b) as Hb.
    rewrite sextets_join3 by lia.
    f_equal; [|f_equal]; apply byte_of_Z_eq; Z.div_mod_to_equations; lia.
  - pose proof (Z_of_byte_range a) as Ha. pose proof (Z_of_byte_range b) as Hb.
    pose proof (Z_of_byte_range c) as Hc.
    rewrite sextets_join4 by lia.
    rewrite IH.
    f_equal; [|f_equal; [|f_equal]]; apply byte_of_Z_eq; Z.div_mod_to_equations; lia.
Qed.

Lemma sextets_of_bytes_length (bs : list byte) :
  exists k : nat,
    (length bs = 3 * k /\ length (Base64.sextets_of_bytes bs) = 4 * k)%nat
    \/ (length bs = 3 * k + 1 /\ length (Base64.sextets_of_bytes bs) = 4 * k + 2)%nat
    \/ (length bs = 3 * k + 2 /\ length (Base64.sextets_of_bytes bs) = 4 * k + 3)%nat.
Proof.
  induction bs as [|a|a b|a b c l [k IH]] using list_ind3.
  - exists 0%nat. left. split; reflexivity.
  - exists 0%nat. right. left. split; reflexivity.
  - exists 0%nat. right. right. split; reflexivity.
  - exists (S k). cbn [Base64.sextets_of_bytes length]. lia.
Qed.

Lemma values_of_chars (vs : list Z) :
  Forall (fun v => 0 <= v < 64) vs ->
  Base64.values_of (map Base64.char_of vs) = Some vs.
Proof.
  induction 1 as [|v vs Hv _ IH]; cbn [map Base64.values_of]; [reflexivity|].
  destruct (char_of_spec v Hv) as (-> & _). rewrite IH. reflexivity.
Qed.

Lemma filter_whitespace_chars (vs : list Z) (tl : list ascii) :
  Forall (fun v => 0 <= v < 64) vs ->
  List.filter (fun c => negb (Base64.is_whitespace c)) (map Base64.char_of vs ++ tl)
  = map Base64.char_of vs ++ List.filter (fun c => negb (Base64.is_whitespace c)) tl.
Proof.
  induction 1 as [|v vs Hv _ IH]; cbn [map app List.filter]; [reflexivity|].
  destruct (char_of_spec v Hv) as (_ & Hw & _).
  rewrite Hw. cbn [negb]. f_equal. exact IH.
Qed.

Lemma strip_padding_encoded (vs : list Z) (n : nat) :
  Forall (fun v => 0 <= v < 64) vs ->
  Base64.strip_padding (map Base64.char_of vs ++ Base64.padding n) = map Base64.char_of vs.
Proof.
  intros Hvs.
  assert (Hlast : forall p r, rev (map Base64.char_of vs) = p :: r -> Base64.is_pad p = false).
  { intros p r E.
    assert (Hin : In p (map Base64.char_of vs)).
    { apply in_rev. rewrite E. left. reflexivity. }
    apply in_map_iff in Hin. destruct Hin as (v & <- & Hv).
    rewrite Forall_forall in Hvs. apply char_of_spec, Hvs, list_elem_of_In, Hv. }
  unfold Base64.strip_padding, Base64.padding.
  rewrite rev_app_distr.
  destruct (n mod 3)%nat as [|[|[|m]]]; cbn [rev app].
  - rewrite app_nil_r.
    destruct (rev (map Base64.char_of vs)) as [|p0 [|p1 r]] eqn:E;
      [reflexivity | rewrite (Hlast _ _ eq_refl); reflexivity
      | rewrite (Hlast _ _ eq_refl); reflexivity].
  - change (Base64.is_pad Base64.pad) with true. cbn iota.
    apply rev_involutive.
  - change (Base64.is_pad Base64.pad) with true. cbn iota.
    destruct (rev (map Base64.char_of vs)) as [|p1 r] eqn:E.
    + apply (f_equal (@rev ascii)) in E. rewrite rev_involutive in E. rewrite E. reflexivity.
    + rewrite (Hlast _ _ eq_refl).
      change (rev r ++ [p1]) with (rev (p1 :: r)). rewrite <- E. apply rev_involutive.
  - rewrite app_nil_r.
    destruct (rev (map Base64.char_of vs)) as [|p0 [|p1 r]] eqn:E;
      [reflexivity | rewrite (Hlast _ _ eq_refl); reflexivity
      | rewrite (Hlast _ _ eq_refl); reflexivity].
Qed.

Lemma mod_mul_add (c k r : nat) : (r < c)%nat -> ((c * k + r) mod c = r)%nat.
Proof.
  intros H. rewrite Nat.add_comm, Nat.mul_comm, Nat.Div0.mod_add.
  apply Nat.mod_small, H.
Qed.

Lemma decode_chars_encode_bytes (bs : list byte) :
  Base64.decode_chars (Base64.encode_bytes bs) = Some bs.
Proof.
  pose proof (sextets_of_bytes_range bs) as Hr.
  unfold Base64.decode_chars, Base64.encode_bytes.
  rewrite (filter_whitespace_chars _ _ Hr).
  assert (Hp : List.filter (fun c => negb (Base64.is_whitespace c)) (Base64.padding (length bs))
               = Base64.padding (length bs)).
  { unfold Base64.padding. destruct (length bs mod 3)%nat as [|[|[|m]]]; reflexivity. }
  rewrite Hp.
  destruct (sextets_of_bytes_length bs) as [k Hk].
  assert (Hlen : (length (map Base64.char_of (Base64.sextets_of_bytes bs)
                          ++ Base64.padding (length bs)) mod 4 = 0)%nat).
  { rewrite length_app, length_map. unfold Base64.padding.
    destruct Hk as [[E1 E2]|[[E1 E2]|[E1 E2]]]; rewrite E1, E2.
    - rewrite <- (Nat.add_0_r (3 * k)), (mod_mul_add 3 k 0) by lia.
      cbn [length]. apply (mod_mul_add 4 k 0). lia.
    - rewrite (mod_mul_add 3 k 1) by lia. cbn [length].
      replace (4 * k + 2 + 2)%nat with (4 * (k + 1) + 0)%nat by lia.
      apply mod_mul_add. lia.
    - rewrite (mod_mul_add 3 k 2) by lia. cbn [length].
      replace (4 * k + 3 + 1)%nat with (4 * (k + 1) + 0)%nat by lia.
      apply mod_mul_add. lia. }
  rewrite Hlen. cbn [Nat.eqb].
  rewrite (strip_padding_encoded _ _ Hr).
  rewrite length_map.
  assert (Hne : (length (Base64.sextets_of_bytes bs) mod 4 =? 1)%nat = false).
  { apply Nat.eqb_neq.
    destruct Hk as [[_ E2]|[[_ E2]|[_ E2]]]; rewrite E2.
    - rewrite <- (Nat.add_0_r (4 * k)), (mod_mul_add 4 k 0); lia.
    - rewrite (mod_mul_add 4 k 2); lia.
    - rewrite (mod_mul_add 4 k 3); lia. }
  rewrite Hne.
  rewrite (values_of_chars _ Hr). cbn [option_map].
  rewrite bytes_of_sextets_of_bytes. reflexivity.
Qed.

(** [atob] undoes [btoa]. *)
Lemma atob_btoa (binary : string) : Base64.atob (Base64.btoa binary) = Some binary.
Proof.
  unfold Base64.atob, Base64.btoa.
  rewrite list_ascii_of_string_of_list_ascii.
  rewrite decode_chars_encode_bytes. cbn [option_map].
  rewrite string_of_list_byte_of_string. reflexivity.
Qed.

(** ** The codec *)

Lemma decode_encode (bytes : list byte) : Codec.decode (Codec.encode bytes) = Ok bytes.
Proof.
  unfold Codec.decode, Codec.encode. rewrite atob_btoa. cbn [of_option bind].
  rewrite list_byte_of_string_of_list_byte. reflexivity.
Qed.

Lemma ToInt16_range (q : Q) : -32768 <= Codec.ToInt16 q < 32768.
Proof.
  unfold Codec.ToInt16.
  pose proof (Z.mod_pos_bound (Codec.Qtruncate q) 65536 ltac:(lia)) as H.
  destruct (Z.ltb_spec (Codec.Qtruncate q mod 65536) 32768); lia.
Qed.

Lemma ToInt16_small (q : Q) :
  -32768 <= Codec.Qtruncate q < 32768 -> Codec.ToInt16 q = Codec.Qtruncate q.
Proof.
  intros H. unfold Codec.ToInt16.
  destruct (Z.ltb_spec (Codec.Qtruncate q mod 65536) 32768) as [Hlt|Hge];
    revert Hlt || revert Hge; Z.div_mod_to_equations; lia.
Qed.

Lemma int16_of_bytes_of_int16 (z : Z) (rest : list byte) :
  -32768 <= z < 32768 ->
  Codec.int16_view (Codec.bytes_of_int16 z ++ rest) = z :: Codec.int16_view rest.
Proof.
  intros Hz. unfold Codec.bytes_of_int16. cbn [app Codec.int16_view]. f_equal.
  unfold Codec.int16_of_bytes. rewrite !Z_of_byte_of_Z.
  match goal with
  | |- context [?a <? ?b] => destruct (Z.ltb_spec a b) as [Hlt|Hge]
  end; revert Hlt || revert Hge; Z.div_mod_to_equations; lia.
Qed.

Lemma int16_view_buffer (int16 : list Z) :
  Forall (fun z => -32768 <= z < 32768) int16 ->
  Codec.int16_view (Codec.buffer_of_int16 int16) = int16.
Proof.
  induction 1 as [|z zs Hz _ IH]; [reflexivity|].
  unfold Codec.buffer_of_int16. cbn [flat_map].
  rewrite int16_of_bytes_of_int16 by exact Hz. f_equal. exact IH.
Qed.

Lemma buffer_of_int16_length (int16 : list Z) :
  length (Codec.buffer_of_int16 int16) = (2 * length int16)%nat.
Proof.
  induction int16 as [|z zs IH]; [reflexivity|].
  unfold Codec.buffer_of_int16 in *. cbn [flat_map]. rewrite length_app, IH.
  cbn [length Codec.bytes_of_int16]. lia.
Qed.

Lemma int16_of_samples_range (samples : list Q) :
  Forall (fun z => -32768 <= z < 32768) (Codec.int16_of_samples samples).
Proof.
  unfold Codec.int16_of_samples. apply Forall_forall. intros z Hz.
  apply list_elem_of_In, in_map_iff in Hz. destruct Hz as (q & <- & _). apply ToInt16_range.
Qed.

Lemma map_nth_seq {A : Type} (l : list A) (d : A) :
  map (fun i => nth i l d) (seq 0 (length l)) = l.
Proof.
  induction l as [|x l IH]; [reflexivity|].
  cbn [length seq map nth]. f_equal.
  rewrite <- seq_shift, map_map. exact IH.
Qed.

Lemma channel_samples_mono (dataInt16 : list Z) :
  Codec.channel_samples dataInt16 1 (length dataInt16) 0
  = map (fun z => z # 32768) dataInt16.
Proof.
  unfold Codec.channel_samples.
  transitivity (map (fun z => z # 32768) (map (fun i => nth i dataInt16 0) (seq 0 (length dataInt16)))).
  - rewrite map_map.
    apply map_ext. intros i. rewrite Nat.mul_1_r, Nat.add_0_r. reflexivity.
  - rewrite map_nth_seq. reflexivity.
Qed.

(** Decoding the buffer of a non-empty [Int16Array], one channel. *)
Lemma decodeAudioData_buffer_of_int16 (int16 : list Z) (rate : positive) :
  Forall (fun z => -32768 <= z < 32768) int16 ->
  int16 <> [] ->
  Codec.decodeAudioData (Codec.buffer_of_int16 int16) rate 1
  = Ok (Codec.mkAudioBuffer [map (fun z => z # 32768) int16] (length int16) rate).
Proof.
  intros Hr Hne. unfold Codec.decodeAudioData, Codec.new_Int16Array.
  rewrite buffer_of_int16_length.
  replace (2 * length int16)%nat with (2 * length int16 + 0)%nat by lia.
  rewrite mod_mul_add by lia. cbn [Nat.eqb bind].
  rewrite int16_view_buffer by exact Hr.
  rewrite Nat.div_1_r. unfold Codec.createBuffer.
  destruct (length int16) as [|n] eqn:El.
  { destruct int16; [congruence|discriminate]. }
  cbn [Nat.eqb orb bind Codec.frames Codec.sampleRate].
  rewrite <- El. change (seq 0 1) with [0%nat]. cbn [map].
  rewrite channel_samples_mono. reflexivity.
Qed.

(** Truncation loses less than one unit, toward zero. *)
Lemma quot_bounds (n d : Z) :
  0 < d ->
  (0 <= n -> n - d < Z.quot n d * d <= n) /\ (n <= 0 -> n <= Z.quot n d * d < n + d).
Proof.
  intros Hd. pose proof (Z.quot_rem' n d) as E. split; intros Hn.
  - pose proof (Z.rem_bound_pos n d Hn Hd). lia.
  - pose proof (Z.rem_bound_pos_neg n d Hd Hn). lia.
Qed.

Lemma Qtruncate_scaled_range (s : Q) :
  (-1 <= s)%Q -> (s < 1)%Q -> -32768 <= Codec.Qtruncate (s * 32768) < 32768.
Proof.
  destruct s as [n d]. unfold Qle, Qlt, Codec.Qtruncate. cbn [Qnum Qden Qmult].
  intros Hlo Hhi.
  destruct (quot_bounds (n * 32768) (Z.pos (d * 1)) ltac:(lia)) as [Hp Hn].
  rewrite Pos.mul_1_r in *.
  destruct (Z.le_gt_cases 0 n) as [H0|H0]; [specialize (Hp ltac:(lia))|specialize (Hn ltac:(lia))]; nia.
Qed.

Lemma Qtruncate_scaled_error (s : Q) :
  (Qabs ((Codec.Qtruncate (s * 32768) # 32768) - s) < Codec.quantum)%Q.
Proof.
  destruct s as [n d]. unfold Codec.Qtruncate, Codec.quantum. cbn [Qnum Qden Qmult].
  destruct (quot_bounds (n * 32768) (Z.pos (d * 1)) ltac:(lia)) as [Hp Hn].
  rewrite Pos.mul_1_r in *.
  apply Qabs_Qlt_condition.
  unfold Qlt, Qminus, Qplus, Qopp. cbn [Qnum Qden].
  rewrite !Pos2Z.inj_mul.
  destruct (Z.le_gt_cases 0 n) as [H0|H0]; [specialize (Hp ltac:(lia))|specialize (Hn ltac:(lia))]; nia.
Qed.


Lemma bytes_of_samples_lookup (samples : list Q) (i : nat) (s : Q) :
  samples !! i = Some s ->
  exists lo hi,
    Codec.buffer_of_int16 (Codec.int16_of_samples samples) !! (2 * i)%nat = Some lo
    /\ Codec.buffer_of_int16 (Codec.int16_of_samples samples) !! (2 * i + 1)%nat = Some hi
    /\ Codec.int16_of_bytes lo hi = Codec.ToInt16 (s * 32768).
Proof.
  revert i. induction samples as [|x xs IH]; intros i Hi; [discriminate|].
  destruct i as [|i].
  - injection Hi as ->.
    pose proof (int16_of_bytes_of_int16 (Codec.ToInt16 (s * 32768)) [] (ToInt16_range _)) as E.
    cbn [Codec.int16_of_samples map Codec.buffer_of_int16 flat_map Codec.bytes_of_int16 app] in *.
    eexists _, _. split; [reflexivity|]. split; [reflexivity|].
    cbn [Codec.int16_view] in E. congruence.
  - destruct (IH i Hi) as (lo & hi & H0 & H1 & H2).
    exists lo, hi. split; [|split]; [| |exact H2].
    + replace (2 * S i)%nat with (S (S (2 * i))) by lia. exact H0.
    + replace (2 * S i + 1)%nat with (S (S (2 * i + 1))) by lia. exact H1.
Qed.

(** Claim C4, as the code has it.  For samples in [-1, 1), [createBlob]
    quantises each sample [s] to the 16-bit signed integer obtained by
    truncating [s * 32768] toward zero (not by rounding), stores it as two
    bytes, low byte first, wraps the bytes in base64 ([atob] gives them
    back), and tags the payload [audio/pcm;rate=16000]. *)
Theorem createBlob_wire_format (samples : list Q) :
  Forall (fun s => -1 <= s /\ s < 1)%Q samples ->
  let bytes := Codec.buffer_of_int16 (Codec.int16_of_samples samples) in
  Codec.mimeType (Codec.createBlob samples) = "audio/pcm;rate=16000"%string
  /\ Codec.data (Codec.createBlob samples) = Base64.btoa (string_of_list_byte bytes)
  /\ Base64.atob (Codec.data (Codec.createBlob samples)) = Some (string_of_list_byte bytes)
  /\ length bytes = (2 * length samples)%nat
  /\ forall (i : nat) (s : Q),
       samples !! i = Some s ->
       -32768 <= Codec.Qtruncate (s * 32768) < 32768
       /\ exists lo hi : byte,
            bytes !! (2 * i)%nat = Some lo
            /\ bytes !! (2 * i + 1)%nat = Some hi
            /\ Z_of_byte lo + 256 * Z_of_byte hi = Codec.Qtruncate (s * 32768) mod 65536
            /\ Codec.int16_of_bytes lo hi = Codec.Qtruncate (s * 32768).
Proof.
  intros Hs bytes. subst bytes.
  split; [reflexivity|]. split; [reflexivity|].
  split; [apply atob_btoa|].
  split.
  { rewrite buffer_of_int16_length. unfold Codec.int16_of_samples.
    rewrite length_map. reflexivity. }
  intros i s Hi.
  assert (Hin : (-1 <= s)%Q /\ (s < 1)%Q).
  { rewrite Forall_forall in Hs. apply (Hs s). apply list_elem_of_lookup. eauto. }
  destruct Hin as [Hlo Hhi].
  pose proof (Qtruncate_scaled_range s Hlo Hhi) as Hr.
  split; [exact Hr|].
  destruct (bytes_of_samples_lookup samples i s Hi) as (lo & hi & H0 & H1 & H2).
  rewrite (ToInt16_small _ Hr) in H2.
  exists lo, hi. split; [exact H0|]. split; [exact H1|]. split; [|exact H2].
  pose proof (Z_of_byte_range lo). pose proof (Z_of_byte_range hi).
  unfold Codec.int16_of_bytes in H2.
  destruct (Z.ltb_spec (Z_of_byte lo + 256 * Z_of_byte hi) 32768);
    Z.div_mod_to_equations; lia.
Qed.

Lemma createBlob_wire_format_witness :
  Forall (fun s => -1 <= s /\ s < 1)%Q [1 # 2; - (1 # 4)]%Q
  /\ Base64.atob (Codec.data (Codec.createBlob [1 # 2; - (1 # 4)]%Q))
     = Some (string_of_list_byte
               (Codec.buffer_of_int16 (Codec.int16_of_samples [1 # 2; - (1 # 4)]%Q))).
Proof.
  assert (H : Forall (fun s => -1 <= s /\ s < 1)%Q [1 # 2; - (1 # 4)]%Q).
  { repeat constructor; unfold Qle, Qlt; cbn; lia. }
  split; [exact H|].
  destruct (createBlob_wire_format [1 # 2; - (1 # 4)]%Q H) as (_ & _ & Ha & _).
  exact Ha.
Defined.

(** Claim C4 as stated fails: the sample 3 * 2^-17 scales to 0.75, whose
    nearest integer is 1, and [createBlob] stores 0. *)
Lemma createBlob_rounding_counterexample :
  Codec.createBlob [3 # 131072]%Q = Codec.mkBlob "AAA=" "audio/pcm;rate=16000"
  /\ Codec.int16_of_samples [3 # 131072]%Q = [0]
  /\ Codec.spec_rounds_to ((3 # 131072) * 32768) 1
  /\ ~ Codec.spec_rounds_to ((3 # 131072) * 32768) 0.
Proof.
  split; [reflexivity|]. split; [reflexivity|].
  unfold Codec.spec_rounds_to. split.
  - apply Qabs_Qle_condition. unfold Qle. cbn. lia.
  - intros H. apply Qabs_Qle_condition in H. unfold Qle in H. cbn in H. lia.
Qed.

(** Away from full scale the round trip is within one quantisation step:
    for a non-empty array of samples in [-1, 1), decoding the payload of
    [createBlob] succeeds and every sample comes back less than [1/32768]
    away. *)
Lemma decode_createBlob_error_bound (samples : list Q) (rate : positive) :
  samples <> [] ->
  Forall (fun s => -1 <= s /\ s < 1)%Q samples ->
  exists decoded : list Q,
    Codec.decode_createBlob samples rate
    = Ok (Codec.mkAudioBuffer [decoded] (length samples) rate)
    /\ Forall2 (fun s y => Qabs (y - s) < Codec.quantum)%Q samples decoded.
Proof.
  intros Hne Hs.
  exists (map (fun z => z # 32768) (Codec.int16_of_samples samples)).
  split.
  - unfold Codec.decode_createBlob, Codec.createBlob. cbn [Codec.data].
    rewrite decode_encode. cbn [bind].
    rewrite decodeAudioData_buffer_of_int16.
    + unfold Codec.int16_of_samples. rewrite length_map. reflexivity.
    + apply int16_of_samples_range.
    + destruct samples; [congruence|discriminate].
  - clear Hne. induction Hs as [|s l [Hlo Hhi] _ IH]; cbn [Codec.int16_of_samples map].
    + constructor.
    + constructor; [|exact IH].
      rewrite ToInt16_small by (apply Qtruncate_scaled_range; assumption).
      apply Qtruncate_scaled_error.
Qed.

(** Claim C5 at the failing input.  The full-scale sample 1.0 is stored as
    the 16-bit integer -32768 and decoded as -1.0: the round trip is off by
    2, not by at most [1/32768]. *)
Theorem decode_createBlob_full_scale :
  Codec.int16_of_samples [1]%Q = [-32768]
  /\ Codec.decode_createBlob [1]%Q 16000
     = Ok (Codec.mkAudioBuffer [[-32768 # 32768]]%Q 1 16000)
  /\ (Qabs ((-32768 # 32768) - 1) == 2)%Q
  /\ ~ (Qabs ((-32768 # 32768) - 1) <= Codec.quantum)%Q.
Proof.
  split; [reflexivity|]. split; [vm_compute; reflexivity|].
  split; [reflexivity|].
  intros H. unfold Qle in H. cbn in H. lia.
Qed.


(** A byte length that is not a multiple of two makes the [Int16Array]
    view, and with it [decodeAudioData], throw. *)
Lemma decodeAudioData_odd_length (data : list byte) (rate : positive) (numChannels : nat) :
  (length data mod 2 = 1)%nat ->
  Codec.decodeAudioData data rate numChannels = Throw RangeError.
Proof.
  intros H. unfold Codec.decodeAudioData, Codec.new_Int16Array. rewrite H. reflexivity.
Qed.




(** ** The playback scheduler *)

Import Live.

Lemma Math_max_l (a b : Q) : (b <= a)%Q -> Math_max a b = a.
Proof.
  intros H. unfold Math_max. apply Qle_bool_iff in H. rewrite H. reflexivity.
Qed.


Lemma Math_max_ge_l (a b : Q) : (a <= Math_max a b)%Q.
Proof.
  unfold Math_max. destruct (Qle_bool b a) eqn:E; [apply Qle_refl|].
  apply Qlt_le_weak, Qnot_le_lt. intros H. apply Qle_bool_iff in H. congruence.
Qed.

Lemma Math_max_ge_r (a b : Q) : (b <= Math_max a b)%Q.
Proof.
  unfold Math_max. destruct (Qle_bool b a) eqn:E; [|apply Qle_refl].
  apply Qle_bool_iff, E.
Qed.

Lemma duration_nonneg (b : Codec.AudioBuffer) : (0 <= Codec.duration b)%Q.
Proof. unfold Codec.duration, Qle. cbn. lia. Qed.

Lemma Qle_plus_nonneg (a d : Q) : (0 <= d)%Q -> (a <= a + d)%Q.
Proof.
  intros H. rewrite <- (Qplus_0_r a) at 1. apply Qplus_le_r, H.
Qed.


Lemma start_of_schedule_new (currentTime : Q) (b : Codec.AudioBuffer) (s : AppState) :
  start_of (length (nodes s)) (schedule currentTime b s)
  = Some (Math_max (nextStartTimeRef s) currentTime).
Proof.
  unfold start_of. cbn [schedule start_source clamp_clock set_nextStartTime set_nodes
                        set_outputSources nodes nextStartTimeRef].
  rewrite lookup_app_r by lia. rewrite Nat.sub_diag. reflexivity.
Qed.



(** The audio branch of [onmessage] hands every buffer it decodes to the
    scheduler. *)
Lemma audio_branch_schedules (currentTime : Q) (base64Audio : string)
      (bytes : list byte) (audioBuffer : Codec.AudioBuffer) (s : AppState) :
  Codec.decode base64Audio = Ok bytes ->
  Codec.decodeAudioData bytes 24000 1 = Ok audioBuffer ->
  audio_branch currentTime (Some base64Audio) s = (schedule currentTime audioBuffer s, None).
Proof.
  intros Hd Ha. unfold audio_branch.
  destruct base64Audio as [|c rest].
  - cbv in Hd. injection Hd as <-. cbv in Ha. discriminate.
  - rewrite Hd. cbn [bind]. rewrite Ha. reflexivity.
Qed.



(** ** Stopping sources *)

Lemma stop_nodes_lookup (ids : list nat) (ns : list SourceNode) (i : nat) (n : SourceNode) :
  ns !! i = Some n ->
  stop_nodes ids ns !! i = Some (if bool_decide (i ∈ ids) then mark_stopped n else n).
Proof.
  revert ns n. induction ids as [|id rest IH]; intros ns n Hi.
  - cbn. exact Hi.
  - cbn [stop_nodes fold_left]. fold (stop_nodes rest).
    destruct (decide (i = id)) as [->|Hne].
    + rewrite Hi.
      rewrite (IH (<[id := mark_stopped n]> ns) (mark_stopped n)).
      * rewrite (bool_decide_eq_true_2 (id ∈ id :: rest)) by (left).
        destruct (bool_decide (id ∈ rest)); reflexivity.
      * apply list_lookup_insert_eq. apply lookup_lt_Some in Hi. exact Hi.
    + assert (Hmem : bool_decide (i ∈ id :: rest) = bool_decide (i ∈ rest)).
      { apply bool_decide_ext. rewrite elem_of_cons. tauto. }
      rewrite Hmem.
      destruct (ns !! id) as [m|] eqn:Eid.
      * apply IH. rewrite list_lookup_insert_ne by congruence. exact Hi.
      * apply IH. exact Hi.
Qed.

Lemma stop_nodes_length (ids : list nat) (ns : list SourceNode) :
  length (stop_nodes ids ns) = length ns.
Proof.
  revert ns. induction ids as [|id rest IH]; intros ns; [reflexivity|].
  cbn [stop_nodes fold_left]. fold (stop_nodes rest). rewrite IH.
  destruct (ns !! id); [apply length_insert|reflexivity].
Qed.

Lemma stop_nodes_startedAt (ids : list nat) (ns : list SourceNode) (i : nat) :
  match stop_nodes ids ns !! i with
  | Some n => startedAt n
  | None => None
  end
  = match ns !! i with
    | Some n => startedAt n
    | None => None
    end.
Proof.
  destruct (ns !! i) as [n|] eqn:E.
  - rewrite (stop_nodes_lookup ids ns i n E).
    destruct (bool_decide (i ∈ ids)); reflexivity.
  - apply lookup_ge_None in E. rewrite <- (stop_nodes_length ids) in E.
    apply lookup_ge_None in E. rewrite E. reflexivity.
Qed.

(** Calling [stop] on started sources does not throw: it marks them
    stopped and touches nothing else. *)
Lemma forEach_stop_source (ids : list nat) (s : AppState) :
  (forall id, id ∈ ids -> exists t, start_of id s = Some t) ->
  forEach stop_source ids s
  = (record (map SourceStop ids) (set_nodes (stop_nodes ids (nodes s)) s), None).
Proof.
  revert s. induction ids as [|id rest IH]; intros s Hs.
  - destruct s. unfold record, set_nodes. cbn. rewrite app_nil_r. reflexivity.
  - cbn [forEach].
    destruct (Hs id ltac:(left)) as [t Ht]. unfold start_of in Ht.
    unfold stop_source at 1.
    destruct (nodes s !! id) as [n|] eqn:En; [|discriminate]. rewrite Ht.
    cbn [andThen]. rewrite IH.
    + destruct s. unfold record, set_nodes. cbn in *. rewrite En. rewrite <- app_assoc. reflexivity.
    + intros id' Hin. destruct (Hs id' ltac:(right; exact Hin)) as [t' Ht'].
      exists t'. unfold start_of in *.
      cbn [record set_nodes nodes].
      destruct (decide (id' = id)) as [->|Hne].
      * rewrite list_lookup_insert_eq by (apply lookup_lt_Some in En; exact En).
        rewrite En in Ht'. exact Ht'.
      * rewrite list_lookup_insert_ne by congruence. exact Ht'.
Qed.

(** ** Teardown *)

(** Two states with the same fields are the same state. *)
Lemma AppState_ext (a b : AppState) :
  messages a = messages b ->
  isListening a = isListening b ->
  isLoading a = isLoading b ->
  liveSessionRef a = liveSessionRef b ->
  inputAudioContextRef a = inputAudioContextRef b ->
  outputAudioContextRef a = outputAudioContextRef b ->
  scriptProcessorRef a = scriptProcessorRef b ->
  mediaStreamSourceRef a = mediaStreamSourceRef b ->
  mediaStreamRef a = mediaStreamRef b ->
  outputSourcesRef a = outputSourcesRef b ->
  nextStartTimeRef a = nextStartTimeRef b ->
  currentInputTranscriptionRef a = currentInputTranscriptionRef b ->
  currentOutputTranscriptionRef a = currentOutputTranscriptionRef b ->
  nodes a = nodes b ->
  journal a = journal b ->
  a = b.
Proof.
  destruct a, b. cbn. intros. subst. reflexivity.
Qed.

Lemma close_session_eq (s : AppState) :
  close_session s
  = set_liveSession None
      (record (match liveSessionRef s with Some session => [SessionClose session] | None => [] end) s).
Proof.
  unfold close_session. destruct s as [? ? ? [session|] ? ? ? ? ? ? ? ? ? ? ?]; cbn; [reflexivity|].
  unfold set_liveSession, record. cbn. rewrite app_nil_r. reflexivity.
Qed.

Lemma stop_tracks_eq (s : AppState) :
  stop_tracks s
  = set_mediaStream None
      (record (match mediaStreamRef s with Some tracks => map TrackStop tracks | None => [] end) s).
Proof.
  unfold stop_tracks. destruct s as [? ? ? ? ? ? ? ? [tracks|] ? ? ? ? ? ?]; cbn; [reflexivity|].
  unfold set_mediaStream, record. cbn. rewrite app_nil_r. reflexivity.
Qed.

Lemma disconnect_processor_eq (s : AppState) :
  disconnect_processor s
  = set_scriptProcessor None
      (record (match scriptProcessorRef s with
               | Some node => [ProcessorDisconnect node]
               | None => []
               end) s).
Proof.
  unfold disconnect_processor. destruct s as [? ? ? ? ? ? [node|] ? ? ? ? ? ? ? ?]; cbn; [reflexivity|].
  unfold set_scriptProcessor, record. cbn. rewrite app_nil_r. reflexivity.
Qed.

Lemma disconnect_stream_source_eq (s : AppState) :
  disconnect_stream_source s
  = set_mediaStreamSource None
      (record (match mediaStreamSourceRef s with
               | Some node => [StreamSourceDisconnect node]
               | None => []
               end) s).
Proof.
  unfold disconnect_stream_source.
  destruct s as [? ? ? ? ? ? ? [node|] ? ? ? ? ? ? ?]; cbn; [reflexivity|].
  unfold set_mediaStreamSource, record. cbn. rewrite app_nil_r. reflexivity.
Qed.

Lemma close_unless_closed_input (s : AppState) :
  close_unless_closed inputContext s
  = set_inputAudioContext (closed_of (inputAudioContextRef s))
      (record (match inputAudioContextRef s with
               | Some closed | None => []
               | Some _ => [ContextClose inputContext]
               end) s).
Proof.
  unfold close_unless_closed, context_ref.
  destruct s as [? ? ? ? [[| |]|] ? ? ? ? ? ? ? ? ? ?]; cbn; try reflexivity;
    unfold set_inputAudioContext, record; cbn; rewrite app_nil_r; reflexivity.
Qed.

Lemma close_unless_closed_output (s : AppState) :
  close_unless_closed outputContext s
  = set_outputAudioContext (closed_of (outputAudioContextRef s))
      (record (match outputAudioContextRef s with
               | Some closed | None => []
               | Some _ => [ContextClose outputContext]
               end) s).
Proof.
  unfold close_unless_closed, context_ref.
  destruct s as [? ? ? ? ? [[| |]|] ? ? ? ? ? ? ? ? ?]; cbn; try reflexivity;
    unfold set_outputAudioContext, record; cbn; rewrite app_nil_r; reflexivity.
Qed.

Lemma stop_sources_spec (s : AppState) :
  live_started s ->
  stop_sources s
  = (set_isLoading false (set_isListening false (set_outputSources ∅
       (record (map SourceStop (elements (outputSourcesRef s)))
          (set_nodes (stop_nodes (elements (outputSourcesRef s)) (nodes s)) s)))), None).
Proof.
  intros Hs. unfold stop_sources.
  rewrite forEach_stop_source; [reflexivity|].
  intros id Hin. apply Hs, elem_of_elements, Hin.
Qed.

(** Without an unstarted source in the live set, [stopListening] does not
    throw and leaves the state [torn_down]. *)
Lemma stopListening_spec (s : AppState) :
  live_started s -> stopListening s = (torn_down s, None).
Proof.
  intros Hs. unfold stopListening.
  rewrite close_unless_closed_output, close_unless_closed_input.
  rewrite disconnect_stream_source_eq, disconnect_processor_eq, stop_tracks_eq, close_session_eq.
  rewrite stop_sources_spec by (intros id Hin; exact (Hs id Hin)).
  f_equal. apply AppState_ext; try reflexivity.
  cbn [journal set_isLoading set_isListening set_outputSources record set_nodes
       set_outputAudioContext set_inputAudioContext set_mediaStreamSource
       set_scriptProcessor set_mediaStream set_liveSession torn_down
       liveSessionRef mediaStreamRef scriptProcessorRef mediaStreamSourceRef
       inputAudioContextRef outputAudioContextRef outputSourcesRef].
  unfold released. rewrite <- !app_assoc. reflexivity.
Qed.

Lemma torn_down_idle (s : AppState) : idle (torn_down s).
Proof.
  unfold idle, torn_down. cbn.
  repeat split; try reflexivity.
  - intros st. destruct (inputAudioContextRef s); cbn; congruence.
  - intros st. destruct (outputAudioContextRef s); cbn; congruence.
Qed.

Lemma idle_live_started (s : AppState) : idle s -> live_started s.
Proof.
  intros (_ & _ & _ & _ & _ & _ & E & _) source Hin. rewrite E in Hin. set_solver.
Qed.

Lemma torn_down_fixed (s : AppState) : idle s -> torn_down s = s.
Proof.
  destruct s as [ms li lo ses ic oc sp mss str live nst ci co ns j].
  unfold idle, torn_down, released. cbn.
  intros (-> & -> & -> & -> & Hic & Hoc & -> & -> & ->).
  rewrite elements_empty. cbn.
  assert (Ei : closed_of ic = ic).
  { destruct ic as [st|]; [|reflexivity]. rewrite (Hic st eq_refl). reflexivity. }
  assert (Eo : closed_of oc = oc).
  { destruct oc as [st|]; [|reflexivity]. rewrite (Hoc st eq_refl). reflexivity. }
  rewrite Ei, Eo.
  assert (Ej : (match ic with Some closed | None => [] | Some _ => [ContextClose inputContext] end
                ++ match oc with Some closed | None => [] | Some _ => [ContextClose outputContext] end
                ++ []) = []).
  { destruct ic as [st|]; [rewrite (Hic st eq_refl)|];
      (destruct oc as [st'|]; [rewrite (Hoc st' eq_refl)|]); reflexivity. }
  rewrite Ej, app_nil_r. reflexivity.
Qed.

(** In an idle state [stopListening] does nothing at all. *)
Lemma stopListening_idle (s : AppState) : idle s -> stopListening s = (s, None).
Proof.
  intros Hi. rewrite stopListening_spec by (apply idle_live_started, Hi).
  rewrite torn_down_fixed by exact Hi. reflexivity.
Qed.

(** Every releasing call of [stopListening] acts on a resource that the
    state holds. *)
Lemma released_held (s : AppState) : Forall (held s) (released s).
Proof.
  unfold released. repeat (apply Forall_app; split).
  - destruct (liveSessionRef s) eqn:E; repeat constructor. exact E.
  - destruct (mediaStreamRef s) as [tracks|] eqn:E; [|constructor].
    apply Forall_forall. intros e He.
    apply list_elem_of_In, in_map_iff in He. destruct He as (t & <- & Ht).
    exists tracks. split; [exact E|]. apply list_elem_of_In, Ht.
  - destruct (scriptProcessorRef s) eqn:E; repeat constructor. exact E.
  - destruct (mediaStreamSourceRef s) eqn:E; repeat constructor. exact E.
  - destruct (inputAudioContextRef s) as [[| |]|] eqn:E; repeat constructor;
      eexists; (split; [exact E|discriminate]).
  - destruct (outputAudioContextRef s) as [[| |]|] eqn:E; repeat constructor;
      eexists; (split; [exact E|discriminate]).
  - apply Forall_forall. intros e He.
    apply list_elem_of_In, in_map_iff in He. destruct He as (id & <- & Hid).
    cbn. apply elem_of_elements, list_elem_of_In, Hid.
Qed.

(** Claim C7.  From any state whose live sources were all started (every
    state the component reaches), [stopListening] does not throw, makes
    only releasing calls on resources the state holds, and leaves the
    component idle; a second call right after does not throw either, makes
    no call and changes nothing. *)
Theorem stopListening_idempotent (s : AppState) :
  live_started s ->
  exists s1 : AppState,
    stopListening s = (s1, None)
    /\ journal s1 = journal s ++ released s
    /\ Forall (held s) (released s)
    /\ idle s1
    /\ stopListening s1 = (s1, None).
Proof.
  intros Hs. exists (torn_down s).
  split; [apply stopListening_spec, Hs|].
  split; [reflexivity|].
  split; [apply released_held|].
  split; [apply torn_down_idle|].
  apply stopListening_idle, torn_down_idle.
Qed.

(** ** The live set only holds started sources *)

Lemma live_started_empty (s : AppState) : outputSourcesRef s = ∅ -> live_started s.
Proof. intros E source Hin. rewrite E in Hin. set_solver. Qed.

Lemma live_started_initial : live_started initial.
Proof. apply live_started_empty. reflexivity. Qed.

Lemma live_started_start_source (b : Codec.AudioBuffer) (s : AppState) :
  live_started s -> live_started (start_source b s).
Proof.
  intros Hs source Hin. unfold start_of.
  cbn [start_source set_outputSources set_nextStartTime set_nodes outputSourcesRef nodes
       nextStartTimeRef] in *.
  apply elem_of_union in Hin. destruct Hin as [Hin|Hin].
  - apply elem_of_singleton in Hin. subst source.
    rewrite lookup_app_r by lia. rewrite Nat.sub_diag. cbn. eauto.
  - destruct (Hs source Hin) as [t Ht]. exists t. unfold start_of in Ht.
    destruct (nodes s !! source) as [n|] eqn:E; [|discriminate].
    rewrite lookup_app_l by (apply lookup_lt_Some in E; exact E). rewrite E. exact Ht.
Qed.


Lemma live_started_audio_branch (currentTime : Q) (base64Audio : option string)
      (s : AppState) :
  live_started s -> live_started (fst (audio_branch currentTime base64Audio s)).
Proof.
  intros Hs. unfold audio_branch.
  destruct base64Audio as [[|c rest]|]; [exact Hs| |exact Hs].
  destruct (let* bytes := Codec.decode (String c rest) in Codec.decodeAudioData bytes 24000 1)
    as [b|e]; cbn [fst].
  - apply live_started_start_source. exact Hs.
  - exact Hs.
Qed.

Lemma interrupted_branch_spec (s : AppState) :
  live_started s ->
  interrupted_branch s
  = (set_nextStartTime 0%Q (set_outputSources ∅
       (record (map SourceStop (elements (outputSourcesRef s)))
          (set_nodes (stop_nodes (elements (outputSourcesRef s)) (nodes s)) s))), None).
Proof.
  intros Hs. unfold interrupted_branch.
  rewrite forEach_stop_source; [reflexivity|].
  intros id Hin. apply Hs, elem_of_elements, Hin.
Qed.

Lemma live_started_onmessage (currentTime : Q) (message : LiveServerMessage) (s : AppState) :
  live_started s -> live_started (fst (onmessage currentTime message s)).
Proof.
  intros Hs. unfold onmessage.
  set (s1 := when (outputTranscription message) outputTranscription_branch
               (when (inputTranscription message) inputTranscription_branch s)).
  assert (H1 : live_started s1).
  { subst s1. destruct (inputTranscription message), (outputTranscription message); exact Hs. }
  clearbody s1.
  pose proof (live_started_audio_branch currentTime (inlineAudio message) s1 H1) as H2.
  destruct (audio_branch currentTime (inlineAudio message) s1) as [s2 [e|]];
    cbn [andThen fst] in *; [exact H2|].
  assert (H3 : live_started (if turnComplete message then turnComplete_branch s2 else s2)).
  { destruct (turnComplete message); exact H2. }
  destruct (interrupted message); [|exact H3].
  rewrite interrupted_branch_spec by exact H3. apply live_started_empty. reflexivity.
Qed.

Lemma live_started_stopListening (s : AppState) :
  live_started s -> live_started (fst (stopListening s)).
Proof.
  intros Hs. rewrite stopListening_spec by exact Hs. apply live_started_empty. reflexivity.
Qed.

(** Every handler keeps the invariant. *)
Lemma live_started_step (ev : Event) (s : AppState) :
  live_started s -> live_started (fst (step ev s)).
Proof.
  intros Hs. destruct ev; cbn [step fst].
  - apply live_started_onmessage, Hs.
  - intros src Hin. cbn [onended set_outputSources outputSourcesRef] in Hin.
    apply elem_of_difference in Hin. exact (Hs src (proj1 Hin)).
  - unfold toggleListening. destruct (r_isListening r); cbn [fst].
    + rewrite stopListening_spec by exact Hs. apply live_started_empty. reflexivity.
    + unfold startListening_enter. destruct (r_isOffline r); exact Hs.
  - exact Hs.
  - exact Hs.
  - exact Hs.
  - apply live_started_stopListening. exact Hs.
  - apply live_started_stopListening. exact Hs.
  - unfold onclose. destruct (r_isListening r); [|exact Hs].
    apply live_started_stopListening. exact Hs.
  - apply live_started_stopListening, Hs.
Qed.

(** So does every run from a state that has it, the initial state among
    them. *)
Lemma live_started_run (evs : list Event) (s : AppState) :
  live_started s -> live_started (run evs s).
Proof.
  revert s. induction evs as [|ev evs IH]; intros s Hs; [exact Hs|].
  cbn [run fold_left]. apply IH, live_started_step, Hs.
Qed.

Lemma stopListening_idempotent_witness :
  let s := run [ToggleListening (mkRender false false); DevicesAcquired [0; 1]%nat] initial in
  (* stop before the session ever opens *)
  live_started s
  /\ liveSessionRef s = None
  /\ exists s1 : AppState,
       stopListening s = (s1, None)
       /\ journal s1 = [TrackStop 0; TrackStop 1; ContextClose inputContext;
                        ContextClose outputContext]
       /\ stopListening s1 = (s1, None).
Proof.
  intros s.
  assert (Hs : live_started s) by apply live_started_run, live_started_initial.
  split; [exact Hs|]. split; [reflexivity|].
  destruct (stopListening_idempotent s Hs) as (s1 & H1 & H2 & _ & _ & H3).
  exists s1. split; [exact H1|]. split; [|exact H3].
  rewrite H2. reflexivity.
Defined.

(** ** Interruption *)




(** ** The cursor of the output clock *)

Lemma nodes_frame_refl (ns : list SourceNode) : nodes_frame ns ns.
Proof. split; [reflexivity|]. intros i n' H. exists n'. split; [exact H|reflexivity]. Qed.

Lemma nodes_frame_trans (a b c : list SourceNode) :
  nodes_frame a b -> nodes_frame b c -> nodes_frame a c.
Proof.
  intros [L1 F1] [L2 F2]. split; [congruence|].
  intros i n' H. destruct (F2 i n' H) as (n1 & H1 & E1).
  destruct (F1 i n1 H1) as (n0 & H0 & E0). exists n0. split; [exact H0|congruence].
Qed.

Lemma nodes_frame_mark (ns : list SourceNode) (id : nat) (n : SourceNode) :
  ns !! id = Some n -> nodes_frame ns (<[id := mark_stopped n]> ns).
Proof.
  intros Hn. split; [apply length_insert|].
  intros i n' H. destruct (decide (i = id)) as [->|Hne].
  - rewrite list_lookup_insert_eq in H by (apply lookup_lt_Some in Hn; exact Hn).
    injection H as <-. exists n. split; [exact Hn|reflexivity].
  - rewrite list_lookup_insert_ne in H by congruence.
    exists n'. split; [exact H|reflexivity].
Qed.

(** Stopping sources, whether or not a call throws, leaves the cursor and
    creates no node. *)
Lemma forEach_stop_source_frame (ids : list nat) (s : AppState) :
  nextStartTimeRef (fst (forEach stop_source ids s)) = nextStartTimeRef s
  /\ nodes_frame (nodes s) (nodes (fst (forEach stop_source ids s))).
Proof.
  revert s. induction ids as [|id rest IH]; intros s.
  - split; [reflexivity|apply nodes_frame_refl].
  - cbn [forEach]. unfold stop_source at 1 3.
    destruct (nodes s !! id) as [n|] eqn:En; cbn [andThen fst];
      [|split; [reflexivity|apply nodes_frame_refl]].
    destruct (startedAt n); cbn [andThen fst];
      [|split; [reflexivity|apply nodes_frame_refl]].
    destruct (IH (record [SourceStop id] (set_nodes (<[id:=mark_stopped n]> (nodes s)) s)))
      as [E F].
    split; [exact E|].
    eapply nodes_frame_trans; [apply nodes_frame_mark, En|exact F].
Qed.

Lemma stopListening_frame (s : AppState) :
  nextStartTimeRef (fst (stopListening s)) = nextStartTimeRef s
  /\ nodes_frame (nodes s) (nodes (fst (stopListening s))).
Proof.
  unfold stopListening.
  rewrite close_unless_closed_output, close_unless_closed_input.
  rewrite disconnect_stream_source_eq, disconnect_processor_eq, stop_tracks_eq, close_session_eq.
  unfold stop_sources.
  match goal with
  | |- context [forEach stop_source ?ids ?st] =>
      pose proof (forEach_stop_source_frame ids st) as F;
      destruct (forEach stop_source ids st) as [s2 [e|]]
  end; cbn [andThen fst] in *; exact F.
Qed.

Lemma interrupted_branch_frame (s : AppState) :
  nodes_frame (nodes s) (nodes (fst (interrupted_branch s))).
Proof.
  unfold interrupted_branch.
  pose proof (forEach_stop_source_frame (elements (outputSourcesRef s)) s) as [_ F].
  destruct (forEach stop_source (elements (outputSourcesRef s)) s) as [s2 [e|]];
    cbn [andThen fst] in *; exact F.
Qed.

(** The state of [onmessage] before the interruption branch. *)
Lemma audio_branch_cases (currentTime : Q) (base64Audio : option string) (s : AppState) :
  (nextStartTimeRef s <= nextStartTimeRef (fst (audio_branch currentTime base64Audio s)))%Q
  /\ (nodes (fst (audio_branch currentTime base64Audio s)) = nodes s
      \/ exists b,
           nodes (fst (audio_branch currentTime base64Audio s))
           = nodes s
             ++ [mkSourceNode b (Some (Math_max (nextStartTimeRef s) currentTime)) false]).
Proof.
  unfold audio_branch. destruct base64Audio as [[|c rest]|]; cbn [fst];
    try (split; [apply Qle_refl|left; reflexivity]).
  destruct (let* bytes := Codec.decode (String c rest) in Codec.decodeAudioData bytes 24000 1)
    as [b|e]; cbn [fst].
  - split.
    + cbn [start_source clamp_clock set_outputSources set_nextStartTime set_nodes
           nextStartTimeRef nodes].
      eapply Qle_trans; [apply Math_max_ge_l|apply Qle_plus_nonneg, duration_nonneg].
    + right. exists b. reflexivity.
  - split; [apply Math_max_ge_l|left; reflexivity].
Qed.

Lemma new_node_started (ns ns2 : list SourceNode) (T : Q) (source : nat) (n2 : SourceNode) :
  (ns2 = ns \/ exists b, ns2 = ns ++ [mkSourceNode b (Some T) false]) ->
  ns !! source = None -> ns2 !! source = Some n2 -> startedAt n2 = Some T.
Proof.
  intros [->|[b ->]] Hnone Hsome; [congruence|].
  apply lookup_ge_None in Hnone.
  rewrite lookup_app_r in Hsome by exact Hnone.
  destruct (source - length ns)%nat as [|k]; [|destruct k; discriminate].
  injection Hsome as <-. reflexivity.
Qed.

Lemma transcription_branches_frame (message : LiveServerMessage) (s : AppState) :
  nextStartTimeRef (when (outputTranscription message) outputTranscription_branch
                      (when (inputTranscription message) inputTranscription_branch s))
  = nextStartTimeRef s
  /\ nodes (when (outputTranscription message) outputTranscription_branch
              (when (inputTranscription message) inputTranscription_branch s))
     = nodes s.
Proof.
  destruct (inputTranscription message), (outputTranscription message); split; reflexivity.
Qed.

Lemma onmessage_monotone (currentTime : Q) (message : LiveServerMessage) (s : AppState) :
  interrupted message = false ->
  (nextStartTimeRef s <= nextStartTimeRef (fst (onmessage currentTime message s)))%Q.
Proof.
  intros Hni. unfold onmessage. rewrite Hni.
  destruct (transcription_branches_frame message s) as [E _].
  set (s1 := when (outputTranscription message) outputTranscription_branch
               (when (inputTranscription message) inputTranscription_branch s)) in *.
  rewrite <- E. clearbody s1.
  pose proof (audio_branch_cases currentTime (inlineAudio message) s1) as [H2 _].
  destruct (audio_branch currentTime (inlineAudio message) s1) as [s2 [e|]];
    cbn [andThen fst] in *; [exact H2|].
  destruct (turnComplete message); exact H2.
Qed.

Lemma onmessage_new_node (currentTime : Q) (message : LiveServerMessage) (s : AppState)
      (source : nat) (n : SourceNode) :
  nodes s !! source = None ->
  nodes (fst (onmessage currentTime message s)) !! source = Some n ->
  startedAt n = Some (Math_max (nextStartTimeRef s) currentTime).
Proof.
  intros Hnone. unfold onmessage.
  destruct (transcription_branches_frame message s) as [E1 E2].
  set (s1 := when (outputTranscription message) outputTranscription_branch
               (when (inputTranscription message) inputTranscription_branch s)) in *.
  rewrite <- E1. rewrite <- E2 in Hnone. clearbody s1. clear E1 E2.
  pose proof (audio_branch_cases currentTime (inlineAudio message) s1) as [_ H2].
  destruct (audio_branch currentTime (inlineAudio message) s1) as [s2 [e|]];
    cbn [andThen fst] in *.
  { intros Hsome. exact (new_node_started _ _ _ _ _ H2 Hnone Hsome). }
  set (s3 := if turnComplete message then turnComplete_branch s2 else s2).
  assert (E3 : nodes s3 = nodes s2) by (subst s3; destruct (turnComplete message); reflexivity).
  rewrite <- E3 in H2. clearbody s3.
  destruct (interrupted message); cbn [fst].
  - intros Hsome.
    destruct (interrupted_branch_frame s3) as [_ F].
    destruct (F source n Hsome) as (n3 & H3 & ->).
    exact (new_node_started _ _ _ _ _ H2 Hnone H3).
  - intros Hsome. exact (new_node_started _ _ _ _ _ H2 Hnone Hsome).
Qed.

(** The handlers other than [onmessage] leave the cursor and create no
    node. *)
Lemma step_frame_other (ev : Event) (s : AppState) :
  (forall currentTime message, ev <> ServerMessage currentTime message) ->
  nextStartTimeRef (fst (step ev s)) = nextStartTimeRef s
  /\ nodes_frame (nodes s) (nodes (fst (step ev s))).
Proof.
  intros Hev. destruct ev; cbn [step].
  - exfalso. eapply Hev. reflexivity.
  - split; [reflexivity|apply nodes_frame_refl].
  - unfold toggleListening. destruct (r_isListening r); cbn [fst].
    + pose proof (stopListening_frame s) as F.
      destruct (stopListening s) as [s1 [e|]]; cbn [andThen fst] in *; exact F.
    + unfold startListening_enter. destruct (r_isOffline r);
        (split; [reflexivity|apply nodes_frame_refl]).
  - split; [reflexivity|apply nodes_frame_refl].
  - split; [reflexivity|apply nodes_frame_refl].
  - split; [reflexivity|apply nodes_frame_refl].
  - apply (stopListening_frame (append _ s)).
  - apply (stopListening_frame (append _ s)).
  - unfold onclose. destruct (r_isListening r).
    + apply (stopListening_frame (append _ s)).
    + split; [reflexivity|apply nodes_frame_refl].
  - apply stopListening_frame.
Qed.

(** A handler that is not an interruption does not move the cursor
    backwards. *)
Lemma step_monotone (ev : Event) (s : AppState) :
  is_interruption ev = false ->
  (nextStartTimeRef s <= nextStartTimeRef (fst (step ev s)))%Q.
Proof.
  intros Hni.
  destruct ev as [currentTime message| | | | | | | | |];
    [apply onmessage_monotone, Hni|..];
    match goal with
    | |- (_ <= nextStartTimeRef (fst (step ?ev _)))%Q =>
        destruct (step_frame_other ev s ltac:(discriminate)) as [E _]
    end; rewrite E; apply Qle_refl.
Qed.

(** Claim C6.  No handler other than the interruption moves the cursor
    backwards, and whenever a handler creates a source node, the handler is
    [onmessage] and the node is started at a time that is not before the
    clock reading of that call. *)
Theorem nextStartTime_monotone (ev : Event) (s : AppState) :
  (is_interruption ev = false ->
   (nextStartTimeRef s <= nextStartTimeRef (fst (step ev s)))%Q)
  /\ forall (source : nat) (n : SourceNode),
       nodes s !! source = None ->
       nodes (fst (step ev s)) !! source = Some n ->
       exists currentTime message t,
         ev = ServerMessage currentTime message
         /\ startedAt n = Some t
         /\ t = Math_max (nextStartTimeRef s) currentTime
         /\ (currentTime <= t)%Q.
Proof.
  assert (Hother : (forall currentTime message, ev <> ServerMessage currentTime message) ->
                   (nextStartTimeRef s <= nextStartTimeRef (fst (step ev s)))%Q
                   /\ forall (source : nat) (n : SourceNode),
                        nodes s !! source = None ->
                        nodes (fst (step ev s)) !! source = Some n -> False).
  { intros Hev. destruct (step_frame_other ev s Hev) as [E [L F]]. split.
    - rewrite E. apply Qle_refl.
    - intros source n Hnone Hsome.
      apply lookup_ge_None in Hnone. apply lookup_lt_Some in Hsome. lia. }
  destruct ev as [currentTime message| | | | | | | | |];
    try (destruct (Hother ltac:(discriminate)) as [Hle Hno];
         split; [intros _; exact Hle|intros source' n Hnone Hsome; destruct (Hno _ _ Hnone Hsome)]).
  clear Hother. split.
  - intros Hni. apply onmessage_monotone, Hni.
  - intros source n Hnone Hsome.
    exists currentTime, message, (Math_max (nextStartTimeRef s) currentTime).
    split; [reflexivity|].
    split; [exact (onmessage_new_node _ _ _ _ _ Hnone Hsome)|].
    split; [reflexivity|apply Math_max_ge_r].
Qed.

(** Along any sequence of handlers without an interruption the cursor never
    decreases. *)
Lemma nextStartTime_monotone_run (evs : list Event) (s : AppState) :
  Forall (fun ev => is_interruption ev = false) evs ->
  (nextStartTimeRef s <= nextStartTimeRef (run evs s))%Q.
Proof.
  intros H. revert s. induction H as [|ev evs Hev _ IH]; intros s; [apply Qle_refl|].
  cbn [run fold_left]. eapply Qle_trans; [|apply IH].
  apply step_monotone, Hev.
Qed.

(** Events that carry no audio and no interruption (transcriptions,
    turn-complete, the end of a source, ...) leave the cursor where it is, *)
Lemma quiet_step_cursor (ev : Event) (s : AppState) :
  quiet ev = true -> nextStartTimeRef (fst (step ev s)) = nextStartTimeRef s.
Proof.
  intros Hq. destruct ev as [currentTime message| | | | | | | | |];
    try (apply step_frame_other; discriminate).
  cbn [quiet] in Hq. cbn [step]. unfold onmessage.
  destruct (inlineAudio message); [discriminate|].
  apply negb_true_iff in Hq. rewrite Hq. cbn [audio_branch andThen fst].
  destruct (transcription_branches_frame message s) as [E _].
  destruct (turnComplete message); exact E.
Qed.

Lemma quiet_run_cursor (evs : list Event) (s : AppState) :
  forallb quiet evs = true -> nextStartTimeRef (run evs s) = nextStartTimeRef s.
Proof.
  revert s. induction evs as [|ev evs IH]; intros s H; [reflexivity|].
  cbn [forallb] in H. apply andb_true_iff in H. destruct H as [Hq H].
  cbn [run fold_left]. fold (run evs (fst (step ev s))).
  rewrite (IH _ H). apply quiet_step_cursor, Hq.
Qed.

(** so playback stays gapless whatever such events come between two
    buffers. *)
Lemma schedule_gapless_interleaved (s0 : AppState) (t1 t2 : Q) (b1 b2 : Codec.AudioBuffer)
      (evs : list Event) :
  forallb quiet evs = true ->
  let start1 := Math_max (nextStartTimeRef s0) t1 in
  let s1 := run evs (schedule t1 b1 s0) in
  (t2 <= start1 + Codec.duration b1)%Q ->
  start_of (length (nodes s1)) (schedule t2 b2 s1) = Some (start1 + Codec.duration b1)%Q.
Proof.
  intros Hq start1 s1 Ht. rewrite start_of_schedule_new.
  unfold s1. rewrite (quiet_run_cursor _ _ Hq).
  f_equal. apply Math_max_l. exact Ht.
Qed.

Lemma nextStartTime_monotone_witness :
  let ev := ServerMessage (1 # 2) (mkServerMessage None None (Some "AAAAAAAA"%string) false false) in
  (is_interruption ev = false
   /\ (nextStartTimeRef initial <= nextStartTimeRef (fst (step ev initial)))%Q)
  /\ (nodes initial !! 0%nat = None
      /\ exists n t, nodes (fst (step ev initial)) !! 0%nat = Some n
                     /\ startedAt n = Some t /\ (1 # 2 <= t)%Q).
Proof.
  intros ev.
  destruct (nextStartTime_monotone ev initial) as [Hmono Hnew].
  split.
  - split; [reflexivity|]. apply Hmono. reflexivity.
  - split; [reflexivity|].
    assert (Hn : nodes (fst (step ev initial)) !! 0%nat
                 = Some (mkSourceNode (Codec.mkAudioBuffer [[0 # 32768; 0 # 32768; 0 # 32768]%Q] 3 24000)
                           (Some (1 # 2)) false)) by reflexivity.
    destruct (Hnew 0%nat _ eq_refl Hn) as (c & m & t & Hev & Ht & _ & Hle).
    injection Hev as <- _.
    eexists _, t. split; [exact Hn|]. split; [exact Ht|exact Hle].
Defined.

(** ** Remote error and remote close *)

(** [onerror] appends one message and tears everything down. *)
Lemma onerror_tears_down (e_message : string) (s : AppState) :
  live_started s ->
  exists s' : AppState,
    onerror e_message s = (s', None)
    /\ messages s' = messages s ++ [entry error (String.append "LIVE_SESSION_ERROR: " e_message)]
    /\ journal s' = journal s ++ released s
    /\ idle s'.
Proof.
  intros Hs. unfold onerror.
  rewrite stopListening_spec by exact Hs.
  eexists. split; [reflexivity|].
  split; [reflexivity|]. split; [reflexivity|]. apply torn_down_idle.
Qed.

(** The render captured by the callbacks of a session that
    [toggleListening] starts has [isListening = false]. *)
Lemma toggleListening_captures (r captured : Render) (s : AppState) (o : Outcome) :
  toggleListening r s = (o, Some captured) -> r_isListening captured = false.
Proof.
  unfold toggleListening. destruct (r_isListening r) eqn:E; [discriminate|].
  destruct (r_isOffline r); [discriminate|].
  intros H. injection H as _ <-. exact E.
Qed.

(** Claim C8 at the failing input.  The [onclose] callback of a session
    started through [toggleListening] tests the [isListening] of the render
    that started it, which is false: on a remote close, in whatever state,
    it appends no message, releases nothing and leaves the component
    listening. *)
Theorem onclose_stale_closure (r captured : Render) (s0 s : AppState) (o : Outcome) :
  toggleListening r s0 = (o, Some captured) ->
  onclose captured s = (s, None).
Proof.
  intros H. unfold onclose. rewrite (toggleListening_captures _ _ _ _ H). reflexivity.
Qed.

Lemma onclose_stale_closure_witness :
  let r := mkRender false false in
  let opened := run [ToggleListening r; DevicesAcquired [0%nat]; SessionOpened 1 2;
                     SessionConnected 3] initial in
  toggleListening r initial = ((startListening_enter r initial, None), Some r)
  /\ (isListening opened = true
      /\ liveSessionRef opened = Some 3%nat
      /\ mediaStreamRef opened = Some [0%nat]
      /\ inputAudioContextRef opened = Some running
      /\ outputAudioContextRef opened = Some running)
  /\ onclose r opened = (opened, None)
  /\ messages (fst (step (SessionClosed r) opened))
     = [entry model "VOICE CHANNEL OPEN. LISTENING..."]
  /\ journal (fst (step (SessionClosed r) opened)) = [].
Proof.
  intros r opened.
  assert (H : toggleListening r initial = ((startListening_enter r initial, None), Some r))
    by reflexivity.
  split; [exact H|].
  split; [repeat split|].
  pose proof (onclose_stale_closure r r initial opened _ H) as Hc.
  split; [exact Hc|].
  cbn [step]. rewrite Hc. split; reflexivity.
Defined.

(** ** The transcription reconciler *)

Lemma includes_empty (s : string) : includes s EmptyString = true.
Proof. destruct s; reflexivity. Qed.

Lemma slice_0_neg_whole (text : string) :
  slice_0_neg text (String.length text) = EmptyString.
Proof.
  unfold slice_0_neg. destruct (String.length text) as [|n] eqn:E; [reflexivity|].
  cbn [Nat.eqb]. rewrite Nat.sub_diag. destruct text; reflexivity.
Qed.

(** With an empty accumulator, that is for the first fragment of the
    assistant after a turn-complete, [outputTranscription_branch] overwrites
    the last entry of role [model] whenever the log has one, whatever it
    holds. *)
Lemma output_fragment_overwrites (text : string) (s : AppState) (i : nat) (m : Message) :
  currentOutputTranscriptionRef s = EmptyString ->
  lastIndexOf model (map role (messages s)) = Z.of_nat i ->
  messages s !! i = Some m ->
  messages (outputTranscription_branch text s) = <[i := entry model text]> (messages s).
Proof.
  intros Hacc Hidx Hm. unfold outputTranscription_branch.
  cbn [set_messages set_currentOutputTranscription messages currentOutputTranscriptionRef].
  rewrite Hacc, Hidx. cbn [String.append].
  rewrite Nat2Z.id, Hm, slice_0_neg_whole, includes_empty.
  destruct (Z.eqb_spec (Z.of_nat i) (-1)) as [E|_]; [lia|]. reflexivity.
Qed.

(** Started from an empty log, the reconciler does what the specification
    describes. *)
Lemma transcription_from_empty_log :
  messages (run [fragment_user "Hel"; fragment_user "lo"] initial) = [entry user "Hello"]
  /\ messages (run [fragment_user "Hel"; fragment_user "lo"; turn_complete;
                    fragment_model "Hi"] initial)
     = [entry user "Hello"; entry model "Hi"].
Proof. split; reflexivity. Qed.

(** Claim C3 at the failing input.  In a voice session the log starts with
    the notice that [startListening] appends under the role [model].  The
    fragments "Hel" and "lo" of the user give one entry "Hello"; after the
    turn-complete, the fragment "Hi" of the assistant does not give a new
    entry: it overwrites the notice, which stands before the entry of the
    user. *)
Theorem transcription_overwrites_notice :
  let s0 := fst (step (ToggleListening (mkRender false false)) initial) in
  messages s0 = [entry model "VOICE CHANNEL OPEN. LISTENING..."]
  /\ messages (run [fragment_user "Hel"; fragment_user "lo"] s0)
     = [entry model "VOICE CHANNEL OPEN. LISTENING..."; entry user "Hello"]
  /\ messages (run [fragment_user "Hel"; fragment_user "lo"; turn_complete;
                    fragment_model "Hi"] s0)
     = [entry model "Hi"; entry user "Hello"].
Proof. repeat split; reflexivity. Qed.

(** ** The inactivity check of the service worker *)

Import ServiceWorker.

(** Claim C10, as the code has it.  On a periodic-sync tick tagged
    [check-inactivity] the reminder is shown if and only if the permission
    is granted, the store is read and holds a [lastInteraction] timestamp
    that is not zero, and the clock is more than 24 hours past it.  In
    every other case nothing is shown, and the only error is that of a
    failed read of the store, which is attempted only when the permission
    is granted. *)
Theorem checkInactivity_trigger (env : Environment) :
  (onperiodicsync "check-inactivity" env = Ok [reminder]
   <-> permission env = granted
       /\ exists store t,
            database env = Some store
            /\ store !! "lastInteraction"%string = Some t
            /\ t <> 0
            /\ now env - t > 24 * 60 * 60 * 1000)
  /\ (onperiodicsync "check-inactivity" env = Ok [reminder]
      \/ onperiodicsync "check-inactivity" env = Ok []
      \/ (onperiodicsync "check-inactivity" env = Throw DatabaseError
          /\ permission env = granted /\ database env = None)).
Proof.
  unfold onperiodicsync. cbn [String.eqb Ascii.eqb Bool.eqb].
  unfold checkInactivityAndNotify, getTimestamp, INACTIVITY_THRESHOLD.
  destruct env as [perm db clock]. cbn [permission database now].
  destruct perm; cbn [is_granted negb];
    try (split; [split; [discriminate|intros [H _]; discriminate]|right; left; reflexivity]).
  destruct db as [store|]; cbn [bind].
  2:{ split; [split; [discriminate|intros (_ & st & t & H & _); discriminate]|].
      right. right. repeat split. }
  destruct (store !! "lastInteraction"%string) as [t|] eqn:Et; cbn [falsy].
  2:{ split; [split; [discriminate|intros (_ & st & t & H & H' & _); congruence]|].
      right. left. reflexivity. }
  destruct (Z.eqb_spec t 0) as [->|Hne].
  { split; [split; [discriminate|intros (_ & st & t & H & H' & H0 & _); congruence]|].
    right. left. reflexivity. }
  destruct (Z.gtb_spec (clock - t) (24 * 60 * 60 * 1000)) as [Hgt|Hle].
  - split; [|left; reflexivity].
    split; [|reflexivity]. intros _. split; [reflexivity|].
    exists store, t. repeat split; try assumption. lia.
  - split; [|right; left; reflexivity].
    split; [discriminate|].
    intros (_ & st & t' & H & H' & _ & Hgt). injection H as <-.
    rewrite Et in H'. injection H' as <-. lia.
Qed.

(** Claim C10 as stated fails at a stored timestamp of zero: the
    permission is granted, the timestamp exists and the clock is more than
    24 hours past it, and nothing is shown.  It also fails when the store
    cannot be read: the check then ends with that error. *)
Lemma checkInactivity_zero_counterexample :
  let env := mkEnvironment granted (Some {["lastInteraction"%string := 0]}) 86400001 in
  (permission env = granted
   /\ (exists store t, database env = Some store
                       /\ store !! "lastInteraction"%string = Some t
                       /\ now env - t > 24 * 60 * 60 * 1000)
   /\ onperiodicsync "check-inactivity" env = Ok [])
  /\ onperiodicsync "check-inactivity" (mkEnvironment granted None 86400001)
     = Throw DatabaseError.
Proof.
  intros env. split; [|reflexivity]. split; [reflexivity|]. split.
  - exists {["lastInteraction"%string := 0]}, 0.
    split; [reflexivity|]. split; [apply lookup_singleton_eq|]. cbn. lia.
  - unfold onperiodicsync. cbn [String.eqb Ascii.eqb Bool.eqb].
    unfold checkInactivityAndNotify, getTimestamp. cbn [permission database is_granted negb bind env].
    rewrite lookup_singleton_eq. reflexivity.
Qed.

(** A tick with another tag shows nothing. *)
Lemma onperiodicsync_other_tag (event_tag : string) (env : Environment) :
  event_tag <> "check-inactivity"%string -> onperiodicsync event_tag env = Ok [].
Proof.
  intros H. unfold onperiodicsync.
  destruct (String.eqb_spec event_tag "check-inactivity"); [contradiction|reflexivity].
Qed.

(** ** A whole session *)

(** The session opens, two buffers arrive while the clock reads 0, the
    assistant is interrupted, the user stops: both sources are stopped, the
    live set is empty, the cursor is back at 0, and the stop releases the
    session, the track, the two nodes and the two contexts, once each. *)
Example session_scenario :
  let listening := mkRender true false in
  let payload := mkServerMessage None None (Some "AAAAAAAA"%string) false false in
  let barge_in := mkServerMessage None None None false true in
  let playing :=
    run [ToggleListening (mkRender false false); DevicesAcquired [0%nat];
         SessionOpened 1 2; SessionConnected 3;
         ServerMessage 0 payload; ServerMessage 0 payload] initial in
  let cut := run [ServerMessage (1 # 16000) barge_in] playing in
  let final := run [ToggleListening listening] cut in
  (map startedAt (nodes playing) = [Some 0; Some (0 + (3 # 24000))]%Q
   /\ outputSourcesRef playing = {[0%nat; 1%nat]})
  /\ (map stopped (nodes cut) = [true; true]
      /\ outputSourcesRef cut = ∅
      /\ nextStartTimeRef cut = 0%Q)
  /\ (journal final
      = map SourceStop (elements ({[0%nat; 1%nat]} : gset nat))
        ++ [SessionClose 3; TrackStop 0; ProcessorDisconnect 2; StreamSourceDisconnect 1;
            ContextClose inputContext; ContextClose outputContext]
      /\ map content (messages final)
         = ["VOICE CHANNEL OPEN. LISTENING..."; "VOICE CHANNEL CLOSED."]%string
      /\ isListening final = false).
Proof. repeat split; vm_compute; reflexivity. Qed.

(** * Further properties of the code *)

(** ** The byte codec *)

Lemma string_of_list_ascii_length (l : list ascii) :
  String.length (string_of_list_ascii l) = length l.
Proof. induction l as [|c l IH]; [reflexivity|]. cbn. rewrite IH. reflexivity. Qed.

Lemma div_mul_add (c k r : nat) : (r < c)%nat -> ((c * k + r) / c = k)%nat.
Proof.
  intros H. symmetry. apply (Nat.div_unique _ c k r); [exact H|reflexivity].
Qed.

Lemma encode_bytes_length (bytes : list byte) :
  length (Base64.encode_bytes bytes) = (4 * ((length bytes + 2) / 3))%nat.
Proof.
  unfold Base64.encode_bytes, Base64.padding. rewrite length_app, length_map.
  destruct (sextets_of_bytes_length bytes) as [k [[E1 E2]|[[E1 E2]|[E1 E2]]]];
    rewrite E1, E2.
  - rewrite <- (Nat.add_0_r (3 * k)) at 1. rewrite (mod_mul_add 3 k 0) by lia.
    rewrite (div_mul_add 3 k 2) by lia. cbn [length]. lia.
  - rewrite (mod_mul_add 3 k 1) by lia.
    replace (3 * k + 1 + 2)%nat with (3 * (k + 1) + 0)%nat by lia.
    rewrite (div_mul_add 3 (k + 1) 0) by lia. cbn [length]. lia.
  - rewrite (mod_mul_add 3 k 2) by lia.
    replace (3 * k + 2 + 2)%nat with (3 * (k + 1) + 1)%nat by lia.
    rewrite (div_mul_add 3 (k + 1) 1) by lia. cbn [length]. lia.
Qed.

(** Property X1.  [decode] undoes [encode] on every byte array, so [encode]
    loses nothing and is injective; its output has four characters for
    every three bytes, the last group padded. *)
Theorem encode_decode_bytes (bytes : list byte) :
  Codec.decode (Codec.encode bytes) = Ok bytes
  /\ String.length (Codec.encode bytes) = (4 * ((length bytes + 2) / 3))%nat
  /\ forall bytes' : list byte, Codec.encode bytes = Codec.encode bytes' -> bytes = bytes'.
Proof.
  split; [apply decode_encode|]. split.
  - unfold Codec.encode, Base64.btoa.
    rewrite string_of_list_ascii_length, list_byte_of_string_of_list_byte.
    apply encode_bytes_length.
  - intros bytes' E.
    pose proof (decode_encode bytes) as H. rewrite E, decode_encode in H.
    injection H as ->. reflexivity.
Qed.

(** ** The sample codec *)

Lemma Qtruncate_scaled_toward_zero (s : Q) :
  ((0 <= s -> 0 <= Codec.Qtruncate (s * 32768) # 32768
              /\ Codec.Qtruncate (s * 32768) # 32768 <= s)
   /\ (s <= 0 -> s <= Codec.Qtruncate (s * 32768) # 32768
                 /\ Codec.Qtruncate (s * 32768) # 32768 <= 0))%Q.
Proof.
  destruct s as [n d]. unfold Codec.Qtruncate. cbn [Qnum Qden Qmult].
  destruct (quot_bounds (n * 32768) (Z.pos (d * 1)) ltac:(lia)) as [Hp Hn].
  rewrite Pos.mul_1_r in *.
  unfold Qle. cbn [Qnum Qden]. split; intros H.
  - specialize (Hp ltac:(lia)). split; nia.
  - specialize (Hn ltac:(lia)). split; nia.
Qed.

(** Property X2.  For a non-empty array of samples in [-1, 1), decoding the
    payload of [createBlob] gives as many samples back, each less than
    [1/32768] away from the original, on the same side of zero and never of
    larger magnitude. *)
Theorem createBlob_roundtrip_toward_zero (samples : list Q) (rate : positive) :
  samples <> [] ->
  Forall (fun s => -1 <= s /\ s < 1)%Q samples ->
  exists decoded : list Q,
    Codec.decode_createBlob samples rate
    = Ok (Codec.mkAudioBuffer [decoded] (length samples) rate)
    /\ Forall2 (fun s y => Qabs (y - s) < Codec.quantum
                           /\ (0 <= s -> 0 <= y /\ y <= s)
                           /\ (s <= 0 -> s <= y /\ y <= 0))%Q samples decoded.
Proof.
  intros Hne Hs.
  exists (map (fun z => z # 32768) (Codec.int16_of_samples samples)).
  split.
  - unfold Codec.decode_createBlob, Codec.createBlob. cbn [Codec.data].
    rewrite decode_encode. cbn [bind].
    rewrite decodeAudioData_buffer_of_int16.
    + unfold Codec.int16_of_samples. rewrite length_map. reflexivity.
    + apply int16_of_samples_range.
    + destruct samples; [congruence|discriminate].
  - clear Hne. induction Hs as [|s l [Hlo Hhi] _ IH]; cbn [Codec.int16_of_samples map].
    + constructor.
    + constructor; [|exact IH].
      rewrite ToInt16_small by (apply Qtruncate_scaled_range; assumption).
      split; [apply Qtruncate_scaled_error|apply Qtruncate_scaled_toward_zero].
Qed.

Lemma createBlob_roundtrip_toward_zero_witness :
  Forall (fun s => -1 <= s /\ s < 1)%Q [3 # 4; - (1 # 3)]%Q
  /\ exists decoded : list Q,
       Codec.decode_createBlob [3 # 4; - (1 # 3)]%Q 16000
       = Ok (Codec.mkAudioBuffer [decoded] 2 16000).
Proof.
  assert (H : Forall (fun s => -1 <= s /\ s < 1)%Q [3 # 4; - (1 # 3)]%Q).
  { repeat constructor; unfold Qle, Qlt; cbn; lia. }
  split; [exact H|].
  destruct (createBlob_roundtrip_toward_zero [3 # 4; - (1 # 3)]%Q 16000 ltac:(discriminate) H)
    as (decoded & Hd & _).
  exists decoded. exact Hd.
Defined.

(** ** Runs of buffers *)






(** ** What the handlers never do *)

Lemma interrupted_branch_cursor (s : AppState) :
  nextStartTimeRef (fst (interrupted_branch s)) = 0%Q
  \/ nextStartTimeRef (fst (interrupted_branch s)) = nextStartTimeRef s.
Proof.
  unfold interrupted_branch.
  pose proof (forEach_stop_source_frame (elements (outputSourcesRef s)) s) as [E _].
  destruct (forEach stop_source (elements (outputSourcesRef s)) s) as [s2 [e|]];
    cbn [andThen fst] in *; [right; exact E|left; reflexivity].
Qed.

Lemma onmessage_cursor_nonneg (currentTime : Q) (message : LiveServerMessage) (s : AppState) :
  (0 <= nextStartTimeRef s)%Q ->
  (0 <= nextStartTimeRef (fst (onmessage currentTime message s)))%Q.
Proof.
  intros H0. unfold onmessage.
  destruct (transcription_branches_frame message s) as [E _].
  set (s1 := when (outputTranscription message) outputTranscription_branch
               (when (inputTranscription message) inputTranscription_branch s)) in *.
  rewrite <- E in H0. clearbody s1.
  pose proof (audio_branch_cases currentTime (inlineAudio message) s1) as [H2 _].
  destruct (audio_branch currentTime (inlineAudio message) s1) as [s2 [e|]];
    cbn [andThen fst] in *; [eapply Qle_trans; eassumption|].
  assert (H3 : (0 <= nextStartTimeRef (if turnComplete message then turnComplete_branch s2 else s2))%Q).
  { destruct (turnComplete message); eapply Qle_trans; eassumption. }
  destruct (interrupted message); [|exact H3].
  destruct (interrupted_branch_cursor
              (if turnComplete message then turnComplete_branch s2 else s2)) as [-> | ->];
    [apply Qle_refl|exact H3].
Qed.

(** A node that [onmessage] finds keeps the time it was started at. *)
Lemma onmessage_old_node (currentTime : Q) (message : LiveServerMessage) (s : AppState)
      (i : nat) (n0 n : SourceNode) :
  nodes s !! i = Some n0 ->
  nodes (fst (onmessage currentTime message s)) !! i = Some n ->
  startedAt n = startedAt n0.
Proof.
  intros H0. unfold onmessage.
  destruct (transcription_branches_frame message s) as [_ E2].
  set (s1 := when (outputTranscription message) outputTranscription_branch
               (when (inputTranscription message) inputTranscription_branch s)) in *.
  rewrite <- E2 in H0. clearbody s1. clear E2.
  pose proof (audio_branch_cases currentTime (inlineAudio message) s1) as [_ H2].
  assert (Hkeep : forall s2 : AppState,
             (nodes s2 = nodes s1
              \/ exists b, nodes s2
                           = nodes s1 ++ [mkSourceNode b
                               (Some (Math_max (nextStartTimeRef s1) currentTime)) false]) ->
             nodes s2 !! i = Some n0).
  { intros s2 [->|[b ->]]; [exact H0|].
    rewrite lookup_app_l by (apply lookup_lt_Some in H0; exact H0). exact H0. }
  destruct (audio_branch currentTime (inlineAudio message) s1) as [s2 [e|]];
    cbn [andThen fst] in *.
  { intros Hn. rewrite (Hkeep s2 H2) in Hn. injection Hn as <-. reflexivity. }
  specialize (Hkeep s2 H2).
  set (s3 := if turnComplete message then turnComplete_branch s2 else s2).
  assert (E3 : nodes s3 = nodes s2) by (subst s3; destruct (turnComplete message); reflexivity).
  rewrite <- E3 in Hkeep. clearbody s3.
  destruct (interrupted message); cbn [fst].
  - intros Hn. destruct (interrupted_branch_frame s3) as [_ F].
    destruct (F i n Hn) as (n3 & H3 & ->). rewrite Hkeep in H3. injection H3 as <-. reflexivity.
  - intros Hn. rewrite Hkeep in Hn. injection Hn as <-. reflexivity.
Qed.

Lemma never_negative_step (ev : Event) (s : AppState) :
  Session.never_negative s -> Session.never_negative (fst (step ev s)).
Proof.
  intros [Hc Hn].
  assert (Hother : (forall currentTime message, ev <> ServerMessage currentTime message) ->
                   Session.never_negative (fst (step ev s))).
  { intros Hev. destruct (step_frame_other ev s Hev) as [E [_ F]]. split.
    - rewrite E. exact Hc.
    - intros i n t Hi Ht. destruct (F i n Hi) as (n0 & H0 & E0).
      rewrite E0 in Ht. exact (Hn i n0 t H0 Ht). }
  destruct ev as [currentTime message| | | | | | | | |];
    try (apply Hother; discriminate).
  clear Hother. cbn [step]. split.
  - apply onmessage_cursor_nonneg, Hc.
  - intros i n t Hi Ht.
    destruct (nodes s !! i) as [n0|] eqn:E0.
    + rewrite (onmessage_old_node _ _ _ _ _ _ E0 Hi) in Ht. exact (Hn i n0 t E0 Ht).
    + rewrite (onmessage_new_node _ _ _ _ _ E0 Hi) in Ht. injection Ht as <-.
      eapply Qle_trans; [exact Hc|apply Math_max_ge_l].
Qed.

(** Property X4.  Whatever events come, in whatever order and with whatever
    clock readings, the cursor is never negative and no source is ever
    started at a negative time (for which [start] would throw a
    [RangeError]). *)
Theorem cursor_never_negative (evs : list Event) :
  (0 <= nextStartTimeRef (run evs initial))%Q
  /\ forall (source : nat) (t : Q),
       start_of source (run evs initial) = Some t -> (0 <= t)%Q.
Proof.
  assert (H : forall s, Session.never_negative s -> Session.never_negative (run evs s)).
  { induction evs as [|ev evs IH]; intros s Hs; [exact Hs|].
    cbn [run fold_left]. apply IH, never_negative_step, Hs. }
  destruct (H initial) as [Hc Hn].
  { split; [apply Qle_refl|]. intros i n t Hi. destruct i; discriminate. }
  split; [exact Hc|].
  intros source t Ht. unfold start_of in Ht.
  destruct (nodes (run evs initial) !! source) as [n|] eqn:E; [|discriminate].
  exact (Hn source n t E Ht).
Qed.





(** Property X6.  When the audio payload of a message cannot be decoded,
    [onmessage] stops there: the transcriptions of the message are in the
    log and the cursor is clamped, but the turn-complete and interrupted
    flags of the same message are not acted on, so the accumulators are not
    reset, no source is stopped and the live set stays as it is. *)
Theorem onmessage_bad_audio_skips_flags (currentTime : Q) (message : LiveServerMessage)
        (s : AppState) (payload : string) (e : Exn) :
  inlineAudio message = Some payload ->
  payload <> EmptyString ->
  Session.decoded payload = Throw e ->
  let s1 := when (outputTranscription message) outputTranscription_branch
              (when (inputTranscription message) inputTranscription_branch s) in
  onmessage currentTime message s = (clamp_clock currentTime s1, Some e)
  /\ outputSourcesRef (fst (onmessage currentTime message s)) = outputSourcesRef s
  /\ nodes (fst (onmessage currentTime message s)) = nodes s
  /\ journal (fst (onmessage currentTime message s)) = journal s
  /\ currentInputTranscriptionRef (fst (onmessage currentTime message s))
     = currentInputTranscriptionRef s1
  /\ currentOutputTranscriptionRef (fst (onmessage currentTime message s))
     = currentOutputTranscriptionRef s1.
Proof.
  intros Ha Hne Hd s1.
  assert (E : onmessage currentTime message s = (clamp_clock currentTime s1, Some e)).
  { unfold onmessage. fold s1. rewrite Ha. unfold audio_branch.
    destruct payload as [|c rest]; [congruence|].
    fold (Session.decoded (String c rest)). rewrite Hd. reflexivity. }
  split; [exact E|]. rewrite E. cbn [fst].
  subst s1. destruct (inputTranscription message), (outputTranscription message);
    repeat split.
Qed.

Lemma onmessage_bad_audio_skips_flags_witness :
  let message := mkServerMessage None None (Some "AAAA"%string) true true in
  let playing := schedule 0 (Codec.mkAudioBuffer [[0; 0; 0]%Q] 3 24000) initial in
  Session.decoded "AAAA" = Throw RangeError
  /\ onmessage (1 # 16000) message playing = (clamp_clock (1 # 16000) playing, Some RangeError)
  /\ outputSourcesRef (fst (onmessage (1 # 16000) message playing)) = outputSourcesRef playing.
Proof.
  intros message playing.
  assert (Hd : Session.decoded "AAAA" = Throw RangeError) by reflexivity.
  split; [exact Hd|].
  destruct (onmessage_bad_audio_skips_flags (1 # 16000) message playing "AAAA" RangeError
              eq_refl ltac:(discriminate) Hd) as (H1 & H2 & _).
  split; [exact H1|exact H2].
Defined.

(** ** The reconciler on any log *)

Lemma lastIndexOf_from_snoc (r x : Role) (i found : Z) (roles : list Role) :
  lastIndexOf_from r i found (roles ++ [x])
  = if Role_eqb x r then i + Z.of_nat (length roles) else lastIndexOf_from r i found roles.
Proof.
  revert i found. induction roles as [|y roles IH]; intros i found.
  - cbn. destruct (Role_eqb x r); [lia|reflexivity].
  - cbn [app lastIndexOf_from length]. rewrite IH.
    destruct (Role_eqb x r); [lia|reflexivity].
Qed.

Lemma lastIndexOf_from_cases (r : Role) (i found : Z) (roles : list Role) :
  lastIndexOf_from r i found roles = found
  \/ exists k : nat, lastIndexOf_from r i found roles = i + Z.of_nat k
                     /\ roles !! k = Some r.
Proof.
  revert i found. induction roles as [|y roles IH]; intros i found; [left; reflexivity|].
  cbn [lastIndexOf_from].
  destruct (IH (i + 1) (if Role_eqb y r then i else found)) as [E|(k & E & Hk)].
  - rewrite E. destruct (Role_eqb y r) eqn:Ey; [|left; reflexivity].
    right. exists 0%nat. split; [lia|]. destruct y, r; try discriminate; reflexivity.
  - right. exists (S k). split; [lia|exact Hk].
Qed.

Lemma lastIndexOf_cases (r : Role) (roles : list Role) :
  lastIndexOf r roles = -1
  \/ exists k : nat, lastIndexOf r roles = Z.of_nat k /\ roles !! k = Some r.
Proof.
  unfold lastIndexOf. destruct (lastIndexOf_from_cases r 0 (-1) roles) as [E|(k & E & Hk)];
    [left; exact E|right; exists k; split; [lia|exact Hk]].
Qed.

Lemma lastIndexOf_lt (r : Role) (roles : list Role) :
  -1 <= lastIndexOf r roles < Z.of_nat (length roles).
Proof.
  destruct (lastIndexOf_cases r roles) as [E|(k & E & Hk)]; rewrite E; [lia|].
  apply lookup_lt_Some in Hk. lia.
Qed.

(** After a fragment of the user, the last entry of role [user] holds the
    accumulator and stands after every entry of role [model]. *)
Lemma input_fragment_last_user (text : string) (s : AppState) :
  exists k : nat,
    lastIndexOf user (map role (messages (inputTranscription_branch text s))) = Z.of_nat k
    /\ lastIndexOf model (map role (messages (inputTranscription_branch text s))) < Z.of_nat k
    /\ messages (inputTranscription_branch text s) !! k
       = Some (entry user (String.append (currentInputTranscriptionRef s) text))
    /\ (messages (inputTranscription_branch text s)
        = messages s ++ [entry user (String.append (currentInputTranscriptionRef s) text)]
        \/ messages (inputTranscription_branch text s)
           = <[k := entry user (String.append (currentInputTranscriptionRef s) text)]> (messages s)
             /\ (k < length (messages s))%nat).
Proof.
  unfold inputTranscription_branch.
  cbn [set_messages set_currentInputTranscription messages currentInputTranscriptionRef].
  set (acc := String.append (currentInputTranscriptionRef s) text).
  set (prev := messages s).
  destruct (Z.gtb_spec (lastIndexOf user (map role prev)) (lastIndexOf model (map role prev)))
    as [Hgt|Hle].
  - destruct (lastIndexOf_cases user (map role prev)) as [E|(k & E & Hk)].
    { pose proof (lastIndexOf_lt model (map role prev)). lia. }
    rewrite E, Nat2Z.id.
    assert (Hlt : (k < length prev)%nat).
    { apply lookup_lt_Some in Hk. rewrite length_map in Hk. exact Hk. }
    assert (Er : map role (<[k := entry user acc]> prev) = map role prev).
    { change (map role) with (fmap (M:=list) role).
      rewrite list_fmap_insert. apply list_insert_id. exact Hk. }
    exists k. rewrite Er, E. split; [reflexivity|]. split; [lia|].
    split; [apply list_lookup_insert_eq, Hlt|]. right. split; [reflexivity|exact Hlt].
  - exists (length prev).
    rewrite map_app. cbn [map role entry].
    unfold lastIndexOf. rewrite !lastIndexOf_from_snoc. cbn [Role_eqb].
    rewrite length_map. fold (lastIndexOf model (map role prev)).
    pose proof (lastIndexOf_lt model (map role prev)) as Hm. rewrite length_map in Hm.
    split; [lia|]. split; [lia|].
    split; [|left; reflexivity].
    rewrite lookup_app_r by lia. rewrite Nat.sub_diag. reflexivity.
Qed.

(** Property X7.  Whatever the log holds, two fragments of the user in a row
    grow one entry: the first fragment appends an entry or overwrites the
    live one, the second overwrites that same entry with the two fragments
    joined to the accumulator, and changes no other entry and not the
    length of the log. *)
Theorem input_fragments_coalesce (text1 text2 : string) (s : AppState) :
  let acc := currentInputTranscriptionRef s in
  let s1 := inputTranscription_branch text1 s in
  let s2 := inputTranscription_branch text2 s1 in
  exists k : nat,
    messages s1 !! k = Some (entry user (String.append acc text1))
    /\ messages s2
       = <[k := entry user (String.append (String.append acc text1) text2)]> (messages s1)
    /\ length (messages s2) = length (messages s1)
    /\ (length (messages s1) = S (length (messages s))
        \/ length (messages s1) = length (messages s)).
Proof.
  intros acc s1 s2.
  destruct (input_fragment_last_user text1 s) as (k & Hu & Hm & Hk & Hshape).
  fold s1 in Hu, Hm, Hk, Hshape. fold acc in Hk, Hshape.
  exists k. split; [exact Hk|].
  assert (E2 : messages s2
               = <[k := entry user (String.append (String.append acc text1) text2)]> (messages s1)).
  { unfold s2, inputTranscription_branch.
    cbn [set_messages set_currentInputTranscription messages currentInputTranscriptionRef].
    rewrite Hu. destruct (Z.gtb_spec (Z.of_nat k) (lastIndexOf model (map role (messages s1))));
      [|lia].
    rewrite Nat2Z.id. reflexivity. }
  split; [exact E2|]. split; [rewrite E2; apply length_insert|].
  destruct Hshape as [->|[-> _]]; [left|right].
  - rewrite length_app. cbn. lia.
  - apply length_insert.
Qed.

(** ** The other ways a session ends *)

Lemma append_idle (m : Message) (s : AppState) : idle s -> idle (append m s).
Proof. intros H. exact H. Qed.

(** Property X8.  Stopping by the microphone button tears everything down
    and then appends one notice: the log gains exactly the entry
    [VOICE CHANNEL CLOSED.], every held resource is released once, the
    component is idle, and no session is started. *)
Theorem toggleListening_stops (r : Render) (s : AppState) :
  r_isListening r = true ->
  live_started s ->
  exists s' : AppState,
    toggleListening r s = ((s', None), None)
    /\ messages s' = messages s ++ [entry model "VOICE CHANNEL CLOSED."]
    /\ journal s' = journal s ++ released s
    /\ idle s'.
Proof.
  intros Hr Hs. unfold toggleListening. rewrite Hr.
  rewrite stopListening_spec by exact Hs. cbn [andThen].
  eexists. split; [reflexivity|].
  split; [reflexivity|]. split; [reflexivity|]. apply append_idle, torn_down_idle.
Qed.

Lemma toggleListening_stops_witness :
  let listening := mkRender true false in
  let opened := run [ToggleListening (mkRender false false); DevicesAcquired [0%nat];
                     SessionOpened 1 2; SessionConnected 3] initial in
  r_isListening listening = true
  /\ live_started opened
  /\ exists s' : AppState,
       toggleListening listening opened = ((s', None), None)
       /\ map content (messages s')
          = ["VOICE CHANNEL OPEN. LISTENING..."; "VOICE CHANNEL CLOSED."]%string
       /\ journal s' = [SessionClose 3; TrackStop 0; ProcessorDisconnect 2;
                        StreamSourceDisconnect 1; ContextClose inputContext;
                        ContextClose outputContext].
Proof.
  intros listening opened.
  assert (Hs : live_started opened) by apply live_started_run, live_started_initial.
  split; [reflexivity|]. split; [exact Hs|].
  destruct (toggleListening_stops listening opened eq_refl Hs) as (s' & H1 & H2 & H3 & _).
  exists s'. split; [exact H1|]. split; [rewrite H2|rewrite H3]; reflexivity.
Defined.

(** Property X9.  Both failure paths of a session, the [catch] block of
    [startListening] and the [onerror] callback, append exactly one entry
    of role [error] that carries the reason, release every held resource
    once and leave the component idle, at whatever point of the start-up
    they strike. *)
Theorem failure_paths_tear_down (reason : string) (s : AppState) :
  live_started s ->
  (exists s' : AppState,
     startListening_failed reason s = (s', None)
     /\ messages s' = messages s ++ [entry error (String.append "MICROPHONE_ERROR: " reason)]
     /\ journal s' = journal s ++ released s
     /\ idle s')
  /\ (exists s' : AppState,
        onerror reason s = (s', None)
        /\ messages s' = messages s ++ [entry error (String.append "LIVE_SESSION_ERROR: " reason)]
        /\ journal s' = journal s ++ released s
        /\ idle s').
Proof.
  intros Hs. split.
  - unfold startListening_failed. rewrite stopListening_spec by exact Hs.
    eexists. split; [reflexivity|].
    split; [reflexivity|]. split; [reflexivity|]. apply torn_down_idle.
  - unfold onerror. rewrite stopListening_spec by exact Hs.
    eexists. split; [reflexivity|].
    split; [reflexivity|]. split; [reflexivity|]. apply torn_down_idle.
Qed.

Lemma failure_paths_tear_down_witness :
  (* the connection fails after the microphone and the contexts are there *)
  let s := run [ToggleListening (mkRender false false); DevicesAcquired [0; 1]%nat] initial in
  live_started s
  /\ exists s' : AppState,
       startListening_failed "Failed to access microphone." s = (s', None)
       /\ journal s' = [TrackStop 0; TrackStop 1; ContextClose inputContext;
                        ContextClose outputContext]
       /\ isListening s' = false.
Proof.
  intros s.
  assert (Hs : live_started s) by apply live_started_run, live_started_initial.
  split; [exact Hs|].
  destruct (failure_paths_tear_down "Failed to access microphone." s Hs)
    as [(s' & H1 & _ & H3 & H4) _].
  exists s'. split; [exact H1|]. split; [rewrite H3; reflexivity|].
  apply H4.
Defined.

(** Property X10.  A video frame is sent only to the session the ref holds:
    it goes out as [image/jpeg] once the connection is there, and it is
    dropped after a stop or a session error, and while the session is still
    connecting (although the component already shows as listening). *)
Theorem handleVideoFrame_gated (base64 reason : string) (s : AppState) (r : Render)
        (tracks : list nat) (source processor session : nat) :
  live_started s ->
  r_isListening r = false ->
  r_isOffline r = false ->
  let connecting :=
    run [ToggleListening r; DevicesAcquired tracks; SessionOpened source processor]
      (fst (stopListening s)) in
  Session.handleVideoFrame base64 (fst (stopListening s)) = None
  /\ Session.handleVideoFrame base64 (fst (onerror reason s)) = None
  /\ (isListening connecting = true /\ Session.handleVideoFrame base64 connecting = None)
  /\ Session.handleVideoFrame base64 (run [SessionConnected session] connecting)
     = Some (session, Codec.mkBlob base64 "image/jpeg").
Proof.
  intros Hs Hl Ho connecting. subst connecting.
  unfold onerror. rewrite !stopListening_spec by exact Hs.
  cbn [run fold_left step fst]. unfold toggleListening, startListening_enter.
  rewrite Hl, Ho. repeat split.
Qed.

Lemma handleVideoFrame_gated_witness :
  let r := mkRender false false in
  live_started initial
  /\ Session.handleVideoFrame "AAAA"
       (run [ToggleListening r; DevicesAcquired [0%nat]; SessionOpened 1 2]
          (fst (stopListening initial))) = None
  /\ Session.handleVideoFrame "AAAA"
       (run [SessionConnected 3]
          (run [ToggleListening r; DevicesAcquired [0%nat]; SessionOpened 1 2]
             (fst (stopListening initial))))
     = Some (3%nat, Codec.mkBlob "AAAA" "image/jpeg").
Proof.
  intros r.
  split; [exact live_started_initial|].
  destruct (handleVideoFrame_gated "AAAA" "" initial r [0%nat] 1 2 3
              live_started_initial eq_refl eq_refl) as (_ & _ & (_ & H1) & H2).
  split; [exact H1|exact H2].
Defined.

(** ** The input line *)

(** Of the modelled handlers only the arrow keys move the history index,
    and they keep it inside the history. *)
Lemma handleKeyDown_index_range (e : UserInput.KeyboardEvent) (p : UserInput.Props)
      (st : UserInput.InputState) :
  0 <= UserInput.historyIndex st <= Z.of_nat (length (UserInput.commandHistory p)) ->
  0 <= UserInput.historyIndex (UserInput.after (UserInput.handleKeyDown e p st))
    <= Z.of_nat (length (UserInput.commandHistory p)).
Proof.
  intros H. unfold UserInput.handleKeyDown.
  destruct (UserInput.key e); destruct (0 <? length (UserInput.commandHistory p))%nat;
    cbn [UserInput.after UserInput.historyIndex]; try lia.
  - destruct (UserInput.shiftKey e); cbn [negb UserInput.after]; [exact H|].
    unfold UserInput.handleSubmit.
    destruct (_ && _); cbn [UserInput.after UserInput.historyIndex]; exact H.
  - destruct (UserInput.shiftKey e); cbn [negb UserInput.after]; [exact H|].
    unfold UserInput.handleSubmit.
    destruct (_ && _); cbn [UserInput.after UserInput.historyIndex]; exact H.
Qed.

Lemma presses_up (k : nat) (p : UserInput.Props) (st : UserInput.InputState) :
  UserInput.commandHistory p <> [] ->
  let i := Z.max 0 (UserInput.historyIndex st - Z.of_nat (S k)) in
  UserInput.presses (S k) UserInput.up p st
  = UserInput.mkInputState (UserInput.entry_or_empty (UserInput.commandHistory p) i) i.
Proof.
  intros Hh. revert st. induction k as [|k IH]; intros st i.
  - subst i. cbn [UserInput.presses]. unfold UserInput.handleKeyDown.
    cbn [UserInput.key UserInput.up].
    destruct (UserInput.commandHistory p) as [|c h] eqn:E; [congruence|].
    cbn [length Nat.ltb Nat.leb UserInput.after]. reflexivity.
  - change (UserInput.presses (S (S k)) UserInput.up p st)
      with (UserInput.presses (S k) UserInput.up p
              (UserInput.after (UserInput.handleKeyDown UserInput.up p st))).
    rewrite IH. subst i.
    unfold UserInput.handleKeyDown. cbn [UserInput.key UserInput.up].
    destruct (UserInput.commandHistory p) as [|c h] eqn:E; [congruence|].
    cbn [length Nat.ltb Nat.leb UserInput.after UserInput.historyIndex].
    replace (Z.max 0 (Z.max 0 (UserInput.historyIndex st - 1) - Z.of_nat (S k)))
      with (Z.max 0 (UserInput.historyIndex st - Z.of_nat (S (S k)))) by lia.
    reflexivity.
Qed.

Lemma presses_down (k : nat) (p : UserInput.Props) (st : UserInput.InputState) :
  UserInput.commandHistory p <> [] ->
  let i := Z.min (Z.of_nat (length (UserInput.commandHistory p)))
             (UserInput.historyIndex st + Z.of_nat (S k)) in
  UserInput.presses (S k) UserInput.down p st
  = UserInput.mkInputState (UserInput.entry_or_empty (UserInput.commandHistory p) i) i.
Proof.
  intros Hh. revert st. induction k as [|k IH]; intros st i.
  - subst i. cbn [UserInput.presses]. unfold UserInput.handleKeyDown.
    cbn [UserInput.key UserInput.down].
    destruct (UserInput.commandHistory p) as [|c h] eqn:E; [congruence|].
    cbn [length Nat.ltb Nat.leb UserInput.after]. reflexivity.
  - change (UserInput.presses (S (S k)) UserInput.down p st)
      with (UserInput.presses (S k) UserInput.down p
              (UserInput.after (UserInput.handleKeyDown UserInput.down p st))).
    rewrite IH. subst i.
    unfold UserInput.handleKeyDown. cbn [UserInput.key UserInput.down].
    destruct (UserInput.commandHistory p) as [|c h] eqn:E; [congruence|].
    cbn [length Nat.ltb Nat.leb UserInput.after UserInput.historyIndex].
    set (n := Z.of_nat (S (length h))).
    replace (Z.min n (Z.min n (UserInput.historyIndex st + 1) + Z.of_nat (S k)))
      with (Z.min n (UserInput.historyIndex st + Z.of_nat (S (S k)))) by lia.
    reflexivity.
Qed.

Lemma entry_or_empty_lookup (history : list string) (i : nat) (command : string) :
  history !! i = Some command ->
  UserInput.entry_or_empty history (Z.of_nat i) = command.
Proof.
  intros H. unfold UserInput.entry_or_empty.
  destruct (Z.ltb_spec (Z.of_nat i) 0) as [Hlt|_]; [lia|].
  rewrite Nat2Z.id, H. destruct command; reflexivity.
Qed.

(** Property X11.  From the fresh position, pressing ArrowUp [k] times
    shows the command [k] places from the end of the history, and the
    oldest command once [k] exceeds the length of the history. *)
Theorem arrow_up_recalls (p : UserInput.Props) (st : UserInput.InputState) (k : nat) :
  UserInput.commandHistory p <> [] ->
  UserInput.historyIndex st = Z.of_nat (length (UserInput.commandHistory p)) ->
  (0 < k)%nat ->
  let st' := UserInput.presses k UserInput.up p st in
  let i := (length (UserInput.commandHistory p) - k)%nat in
  UserInput.historyIndex st' = Z.of_nat i
  /\ UserInput.commandHistory p !! i = Some (UserInput.value st').
Proof.
  intros Hh Hi Hk st' i. subst st'.
  destruct k as [|k]; [lia|]. rewrite presses_up by exact Hh. rewrite Hi.
  cbn [UserInput.historyIndex UserInput.value].
  assert (Hlen : (0 < length (UserInput.commandHistory p))%nat).
  { destruct (UserInput.commandHistory p); [congruence|cbn; lia]. }
  replace (Z.max 0 (Z.of_nat (length (UserInput.commandHistory p)) - Z.of_nat (S k)))
    with (Z.of_nat i) by (subst i; lia).
  split; [reflexivity|].
  destruct (lookup_lt_is_Some_2 (UserInput.commandHistory p) i ltac:(subst i; lia))
    as [command Hc].
  rewrite (entry_or_empty_lookup _ _ _ Hc). exact Hc.
Qed.

Lemma arrow_up_recalls_witness :
  let p := UserInput.mkProps ["help"; "clear"; "status"]%string false None in
  let st := UserInput.handleChange "draft" p (UserInput.mounted p) in
  (UserInput.commandHistory p !! 1%nat
   = Some (UserInput.value (UserInput.presses 2 UserInput.up p st))
   /\ UserInput.value (UserInput.presses 2 UserInput.up p st) = "clear"%string)
  /\ (UserInput.commandHistory p !! 0%nat
      = Some (UserInput.value (UserInput.presses 5 UserInput.up p st))
      /\ UserInput.value (UserInput.presses 5 UserInput.up p st) = "help"%string).
Proof.
  intros p st.
  split; (split; [|reflexivity]).
  - exact (proj2 (arrow_up_recalls p st 2 ltac:(discriminate) eq_refl ltac:(lia))).
  - exact (proj2 (arrow_up_recalls p st 5 ltac:(discriminate) eq_refl ltac:(lia))).
Defined.

(** Property X12.  Walking up the history and as many steps back down does
    not bring back what was typed before: the input line ends empty, at
    the fresh position. *)
Theorem arrows_drop_draft (p : UserInput.Props) (draft : string) (k : nat) :
  UserInput.commandHistory p <> [] ->
  (0 < k)%nat ->
  let st := UserInput.handleChange draft p (UserInput.mounted p) in
  UserInput.presses k UserInput.down p (UserInput.presses k UserInput.up p st)
  = UserInput.mounted p.
Proof.
  intros Hh Hk st. destruct k as [|k]; [lia|].
  rewrite presses_down, presses_up by exact Hh.
  cbn [UserInput.historyIndex]. subst st. unfold UserInput.handleChange, UserInput.mounted.
  cbn [UserInput.historyIndex].
  set (n := length (UserInput.commandHistory p)).
  replace (Z.min (Z.of_nat n) (Z.max 0 (Z.of_nat n - Z.of_nat (S k)) + Z.of_nat (S k)))
    with (Z.of_nat n) by lia.
  f_equal. unfold UserInput.entry_or_empty.
  destruct (Z.ltb_spec (Z.of_nat n) 0) as [Hlt|_]; [lia|].
  rewrite Nat2Z.id, lookup_ge_None_2 by (subst n; lia). reflexivity.
Qed.

Lemma arrows_drop_draft_witness :
  let p := UserInput.mkProps ["help"; "clear"]%string false None in
  UserInput.value
    (UserInput.presses 1 UserInput.down p
       (UserInput.presses 1 UserInput.up p
          (UserInput.handleChange "half a sentence" p (UserInput.mounted p))))
  = EmptyString.
Proof.
  intros p.
  rewrite (arrows_drop_draft p "half a sentence" 1 ltac:(discriminate) ltac:(lia)).
  reflexivity.
Defined.

(** *** Data URLs *)

Lemma append_nil_l (s : string) : String.append EmptyString s = s.
Proof. reflexivity. Qed.

Lemma append_cons (c : ascii) (a b : string) :
  String.append (String c a) b = String c (String.append a b).
Proof. reflexivity. Qed.

Lemma split_no_sep (sep : ascii) (s : string) :
  Text.occurs sep s = false -> Text.split sep s = [s].
Proof.
  unfold Text.occurs. induction s as [|c s IH]; cbn [Text.split list_ascii_of_string existsb].
  - reflexivity.
  - intros H. apply orb_false_elim in H as [Hc Hs].
    rewrite Ascii.eqb_sym, Hc, IH by exact Hs. reflexivity.
Qed.



Lemma append_nil_r (s : string) : String.append s EmptyString = s.
Proof.
  induction s as [|x s IH]; rewrite ?append_cons; [reflexivity|]. rewrite IH. reflexivity.
Qed.

Lemma append_assoc (a b c : string) :
  String.append (String.append a b) c = String.append a (String.append b c).
Proof.
  induction a as [|x a IH]; rewrite ?append_nil_l, ?append_cons; [reflexivity|].
  rewrite IH. reflexivity.
Qed.





(** Property X14.  A string without a comma is not a data URL to
    [dataURLtoFile]: the second piece of the split is [undefined], which
    [atob] reads as the nine characters of its name and rejects, so the
    call throws an [InvalidCharacterError] and makes no file. *)
Theorem dataURLtoFile_without_comma (dataurl filename : string) :
  Text.occurs "," dataurl = false ->
  UserInput.dataURLtoFile dataurl filename = Throw InvalidCharacterError.
Proof.
  intros H. unfold UserInput.dataURLtoFile. rewrite split_no_sep by exact H.
  reflexivity.
Qed.

Lemma dataURLtoFile_without_comma_witness :
  UserInput.dataURLtoFile "data:image/png;base64" "screenshot.png"
  = Throw InvalidCharacterError.
Proof.
  exact (dataURLtoFile_without_comma "data:image/png;base64" "screenshot.png" eq_refl).
Defined.

(** ** The text chat *)

Lemma trimEnd_cons (c : ascii) (s : string) :
  Text.trimEnd (String c s)
  = match Text.trimEnd s with
    | EmptyString => if Text.is_white_space c then EmptyString else String c EmptyString
    | kept => String c kept
    end.
Proof. reflexivity. Qed.

Lemma trimEnd_idem (s : string) : Text.trimEnd (Text.trimEnd s) = Text.trimEnd s.
Proof.
  induction s as [|c s IH]; [reflexivity|].
  rewrite trimEnd_cons. destruct (Text.trimEnd s) as [|k ks] eqn:E.
  - destruct (Text.is_white_space c) eqn:Ec; [reflexivity|].
    rewrite trimEnd_cons. cbn [Text.trimEnd]. rewrite Ec. reflexivity.
  - rewrite trimEnd_cons, IH. reflexivity.
Qed.

Lemma trimEnd_head (c : ascii) (s : string) :
  Text.is_white_space c = false -> exists t : string, Text.trimEnd (String c s) = String c t.
Proof.
  intros Hc. rewrite trimEnd_cons. destruct (Text.trimEnd s) as [|k ks].
  - rewrite Hc. eexists. reflexivity.
  - eexists. reflexivity.
Qed.

Lemma trimStart_head (s : string) :
  Text.trimStart s = EmptyString
  \/ exists (c : ascii) (t : string),
       Text.trimStart s = String c t /\ Text.is_white_space c = false.
Proof.
  induction s as [|c s IH]; [left; reflexivity|].
  cbn [Text.trimStart]. destruct (Text.is_white_space c) eqn:Ec; [exact IH|].
  right. exists c, s. split; [reflexivity|exact Ec].
Qed.

(** Trimming twice is trimming once. *)
Lemma trim_idem (s : string) : Text.trim (Text.trim s) = Text.trim s.
Proof.
  unfold Text.trim. destruct (trimStart_head s) as [E|(c & t & E & Hc)]; rewrite E.
  - reflexivity.
  - destruct (trimEnd_head c t Hc) as [t' E'].
    assert (Hs : Text.trimStart (Text.trimEnd (String c t)) = Text.trimEnd (String c t)).
    { rewrite E'. cbn [Text.trimStart]. rewrite Hc. reflexivity. }
    rewrite Hs. apply trimEnd_idem.
Qed.

Lemma truthy_nonempty (s : string) : Text.truthy s = true <-> s <> EmptyString.
Proof. destruct s; cbn [Text.truthy]; split; congruence. Qed.

(** What [handleSend] does to the command history, on every path. *)
Lemma handleSend_commandHistory (w : Chat.Platform) (r : Chat.Render) (message : string)
      (s : Chat.State) :
  Chat.commandHistory (fst (Chat.handleSend w r message s))
  = if Text.truthy (Text.trim message)
    then Chat.push (Text.trim message) (Chat.commandHistory s)
    else Chat.commandHistory s.
Proof.
  unfold Chat.handleSend, Chat.client_command, Chat.initializeTextChat,
    Chat.handleInstallClick.
  destruct (Text.truthy (Text.trim message)) eqn:Et, (Chat.r_image r) as [img|],
    (Chat.permission_default w), (Chat.r_isOffline r), (Chat.chatRef s) eqn:Ec,
    (Chat.create_throws w), (Chat.r_installPrompt r);
    cbn [negb andb bool_decide fst]; try reflexivity;
    repeat match goal with
           | |- context [if ?b then _ else _] => destruct b
           end; try reflexivity.
Qed.

Lemma push_tidy (command : string) (history : list string) :
  command <> EmptyString ->
  Text.trim command = command ->
  Chat.tidy history -> Chat.tidy (Chat.push command history).
Proof.
  intros Hne Htrim [H1 H2]. unfold Chat.push.
  destruct (_ && _) eqn:E; [split; assumption|].
  split.
  - intros i c Hi. destruct (decide (i < length history)%nat) as [Hlt|Hge].
    + rewrite lookup_app_l in Hi by exact Hlt. exact (H1 i c Hi).
    + rewrite lookup_app_r in Hi by lia.
      destruct (i - length history)%nat; [|discriminate].
      injection Hi as <-. split; assumption.
  - intros i a b Ha Hb.
    destruct (decide (S i < length history)%nat) as [Hlt|Hge].
    + rewrite lookup_app_l in Ha, Hb by lia. exact (H2 i a b Ha Hb).
    + assert (Hi : S i = length history).
      { apply lookup_lt_Some in Hb. rewrite length_app in Hb. cbn [length] in Hb. lia. }
      rewrite lookup_app_l in Ha by lia.
      rewrite lookup_app_r in Hb by lia.
      replace (S i - length history)%nat with 0%nat in Hb by lia.
      injection Hb as <-.
      replace (length history - 1)%nat with i in E by lia. rewrite Ha in E.
      apply andb_false_iff in E as [E|E].
      * apply Nat.ltb_ge in E. lia.
      * apply String.eqb_neq in E. exact E.
Qed.

(** Property X15.  [handleSend] keeps the command history tidy: no entry
    is empty or padded with white space, and no two neighbours are equal. *)
Theorem handleSend_keeps_history_tidy (w : Chat.Platform) (r : Chat.Render)
        (message : string) (s : Chat.State) :
  Chat.tidy (Chat.commandHistory s) ->
  Chat.tidy (Chat.commandHistory (fst (Chat.handleSend w r message s))).
Proof.
  intros H. rewrite handleSend_commandHistory.
  destruct (Text.truthy (Text.trim message)) eqn:Et; [|exact H].
  apply push_tidy; [apply truthy_nonempty; exact Et|apply trim_idem|exact H].
Qed.

Lemma tidy_nil : Chat.tidy [].
Proof. split; intros i; intros; discriminate. Qed.

Lemma handleSend_keeps_history_tidy_witness :
  let w := Chat.mkPlatform false 1000 false in
  let s1 := fst (Chat.handleSend w (Chat.render Chat.initial) "  help " Chat.initial) in
  let s2 := fst (Chat.handleSend w (Chat.render s1) "help" s1) in
  let s3 := fst (Chat.handleSend w (Chat.render s2) "   " s2) in
  Chat.tidy (Chat.commandHistory s3) /\ Chat.commandHistory s3 = ["help"%string].
Proof.
  intros w s1 s2 s3. split; [|reflexivity].
  apply handleSend_keeps_history_tidy, handleSend_keeps_history_tidy,
    handleSend_keeps_history_tidy, tidy_nil.
Defined.

(** Property X16.  Running the last command again, by the button of the
    input line, leaves the command history as it is. *)
Theorem run_last_command_keeps_history (w : Chat.Platform) (r : Chat.Render)
        (s : Chat.State) (url : option string) (command : string) :
  Chat.tidy (Chat.commandHistory s) ->
  UserInput.handleRunLastCommand
    (UserInput.mkProps (Chat.commandHistory s) (Chat.isLoading s) url) = Some command ->
  Chat.commandHistory (fst (Chat.handleSend w r command s)) = Chat.commandHistory s.
Proof.
  intros [H1 _] Hrun. unfold UserInput.handleRunLastCommand in Hrun.
  cbn [UserInput.commandHistory UserInput.isLoading] in Hrun.
  destruct (_ && _) eqn:E in Hrun; [|discriminate].
  apply andb_true_iff in E as [Hlen _].
  destruct (H1 _ _ Hrun) as [Hne Htrim].
  rewrite handleSend_commandHistory, Htrim.
  apply truthy_nonempty in Hne. rewrite Hne.
  unfold Chat.push. rewrite Hlen, Hrun, String.eqb_refl. reflexivity.
Qed.

Lemma run_last_command_keeps_history_witness :
  let w := Chat.mkPlatform false 1000 false in
  let s := fst (Chat.handleSend w (Chat.render Chat.initial) "status" Chat.initial) in
  let s' := Chat.set_isLoading false s in
  Chat.commandHistory (fst (Chat.handleSend w (Chat.render s') "status" s'))
  = ["status"%string].
Proof.
  intros w s s'.
  assert (Ht : Chat.tidy (Chat.commandHistory s')).
  { exact (push_tidy "status" [] ltac:(discriminate) eq_refl tidy_nil). }
  exact (run_last_command_keeps_history w (Chat.render s') s' None "status" Ht eq_refl).
Defined.

(** Property X17.  Offline, [handleSend] logs the message and the notice
    [OFFLINE: Cannot send message.], drops the attached image and stops
    there: no client command runs (the screen is not cleared, no help is
    shown), no chat is created and nothing is sent. *)
Theorem handleSend_offline (w : Chat.Platform) (r : Chat.Render) (message : string)
        (s : Chat.State) :
  Chat.r_isOffline r = true ->
  Text.trim message <> EmptyString \/ Chat.r_image r <> None ->
  exists s' : Chat.State,
    Chat.handleSend w r message s = (s', Chat.Returned)
    /\ Chat.messages s'
       = Chat.messages s
         ++ [Live.mkMessage Live.user (Text.trim message)
               (option_map Chat.previewUrl (Chat.r_image r));
             Live.entry Live.error "OFFLINE: Cannot send message."]
    /\ Chat.image s' = None
    /\ Chat.chatRef s' = Chat.chatRef s
    /\ Chat.showInstallHelp s' = Chat.showInstallHelp s
    /\ Chat.calls s'
       = Chat.calls s
         ++ (if Chat.permission_default w then [Chat.requestPermission] else [])
         ++ [Chat.setTimestamp "lastInteraction" (Chat.now w)].
Proof.
  intros Hoff Hsome. unfold Chat.handleSend. rewrite Hoff.
  assert (Hgo : negb (Text.truthy (Text.trim message))
                && negb (bool_decide (is_Some (Chat.r_image r))) = false).
  { destruct Hsome as [H|H].
    - apply truthy_nonempty in H. rewrite H. reflexivity.
    - destruct (Chat.r_image r) as [img|]; [|congruence].
      rewrite bool_decide_true by (eexists; reflexivity). apply andb_false_r. }
  rewrite Hgo. eexists. split; [reflexivity|].
  destruct (Chat.permission_default w), (Text.truthy (Text.trim message));
    cbn [Chat.messages Chat.image Chat.chatRef Chat.showInstallHelp Chat.calls
         Chat.set_image Chat.append Chat.set_messages Chat.set_commandHistory Chat.call];
    rewrite <- ?app_assoc; repeat split; reflexivity.
Qed.

Lemma handleSend_offline_witness :
  let w := Chat.mkPlatform false 1000 false in
  let s := Chat.handleOffline Chat.initial in
  exists s' : Chat.State,
    Chat.handleSend w (Chat.render s) "clear" s = (s', Chat.Returned)
    /\ map Live.content (Chat.messages s')
       = ["[SYSTEM] CONNECTION LOST. OFFLINE MODE."; "clear";
          "OFFLINE: Cannot send message."]%string.
Proof.
  intros w s.
  assert (Hne : Text.trim "clear" <> EmptyString) by (vm_compute; discriminate).
  destruct (handleSend_offline w (Chat.render s) "clear" s eq_refl (or_introl Hne))
    as (s' & H1 & H2 & _).
  exists s'. split; [exact H1|]. rewrite H2. reflexivity.
Defined.

Lemma toLowerCase_nil : Text.toLowerCase EmptyString = EmptyString.
Proof. reflexivity. Qed.

(** Property X18.  Online and without an image, every message whose
    lower-case form contains [install] is answered by the component with
    the installation text: it never reaches the model, and no chat is
    created for it. *)
Theorem install_answered_locally (w : Chat.Platform) (r : Chat.Render) (message : string)
        (s : Chat.State) :
  Chat.r_isOffline r = false ->
  Chat.r_image r = None ->
  Live.includes (Text.toLowerCase (Text.trim message)) "install" = true ->
  exists s' : Chat.State,
    Chat.handleSend w r message s = (s', Chat.Returned)
    /\ Chat.messages s'
       = Chat.messages s
         ++ [Live.entry Live.user (Text.trim message);
             Live.entry Live.model Chat.installText]
    /\ Chat.chatRef s' = Chat.chatRef s
    /\ Chat.isLoading s' = Chat.isLoading s
    /\ forall parts : list Chat.Part,
         In (Chat.sendMessageStream parts) (Chat.calls s') ->
         In (Chat.sendMessageStream parts) (Chat.calls s).
Proof.
  intros Hon Himg Hinc. unfold Chat.handleSend, Chat.client_command. rewrite Hon, Himg.
  assert (Ht : Text.truthy (Text.trim message) = true).
  { destruct (Text.trim message); [discriminate Hinc|reflexivity]. }
  rewrite Ht. cbn [negb andb].
  destruct (String.eqb_spec (Text.toLowerCase (Text.trim message)) "clear") as [E|_].
  { rewrite E in Hinc. discriminate Hinc. }
  rewrite Hinc, orb_true_r. cbn [orb].
  eexists. split; [reflexivity|].
  unfold Chat.handleInstallClick, Live.entry.
  destruct (Chat.permission_default w), (Chat.r_installPrompt r);
    cbn [Chat.messages Chat.chatRef Chat.isLoading Chat.calls Chat.set_showInstallHelp
         Chat.append Chat.set_messages Chat.set_commandHistory Chat.call option_map];
    rewrite <- ?app_assoc; (repeat split; try reflexivity);
    intros parts Hin; rewrite ?in_app_iff in Hin; cbn [In] in Hin;
    repeat match type of Hin with
           | _ \/ _ => destruct Hin as [Hin|Hin]
           end; try assumption; try discriminate; try contradiction.
Qed.

Lemma install_answered_locally_witness :
  let w := Chat.mkPlatform false 1000 false in
  exists s' : Chat.State,
    Chat.handleSend w (Chat.render Chat.initial) "How do I uninstall Python?" Chat.initial
    = (s', Chat.Returned)
    /\ Chat.chatRef s' = false
    /\ Chat.showInstallHelp s' = true.
Proof.
  intros w.
  destruct (install_answered_locally w (Chat.render Chat.initial)
              "How do I uninstall Python?" Chat.initial eq_refl eq_refl eq_refl)
    as (s' & H1 & _ & H3 & _).
  exists s'. split; [exact H1|]. split; [exact H3|].
  injection H1 as <-. reflexivity.
Defined.

(** Property X19.  Every request [handleSend] makes carries the image, if
    one is attached, as its first part and exactly one text part as its
    last: the trimmed message, or the default prompt when the message is
    blank.  The component is then loading, online and holds a chat. *)
Theorem handleSend_request (w : Chat.Platform) (r : Chat.Render) (message : string)
        (s s' : Chat.State) (parts : list Chat.Part) :
  Chat.handleSend w r message s = (s', Chat.Awaiting parts) ->
  parts
  = match Chat.r_image r with
    | Some img => [Chat.inlineData (Chat.data img) (Chat.mimeType img)]
    | None => []
    end
    ++ [Chat.text (if Text.truthy (Text.trim message)
                   then Text.trim message else Chat.default_prompt)]
  /\ Chat.r_isOffline r = false
  /\ Chat.isLoading s' = true
  /\ Chat.chatRef s' = true
  /\ last (Chat.calls s') = Some (Chat.sendMessageStream parts).
Proof.
  unfold Chat.handleSend.
  destruct (negb (Text.truthy (Text.trim message))
            && negb (bool_decide (is_Some (Chat.r_image r)))) eqn:Hgo; [discriminate|].
  destruct (Chat.r_isOffline r); [discriminate|].
  destruct (Chat.client_command _ _ _); [discriminate|].
  match goal with
  | |- context [negb (Chat.chatRef ?st)] => set (s1 := st); destruct (Chat.chatRef s1) eqn:Ec
  end; cbn [negb]; [|discriminate].
  intros H. injection H as <- <-.
  split; [|split; [reflexivity|split; [reflexivity|split; [exact Ec|]]]].
  - unfold Chat.messageParts.
    destruct (Text.truthy (Text.trim message)) eqn:Et.
    + rewrite Et. reflexivity.
    + destruct (Chat.r_image r) as [img|]; [reflexivity|].
      rewrite bool_decide_false in Hgo by (intros [x Hx]; discriminate). discriminate.
  - cbn [Chat.calls Chat.call]. apply last_snoc.
Qed.

Lemma handleSend_request_witness :
  let w := Chat.mkPlatform false 1000 false in
  let r := Chat.mkRender false (Some (Chat.mkImage "/9j/4A==" "image/jpeg" "blob:1")) false in
  exists s' : Chat.State,
    Chat.handleSend w r "   " Chat.initial
    = (s', Chat.Awaiting [Chat.inlineData "/9j/4A==" "image/jpeg";
                          Chat.text Chat.default_prompt])
    /\ Chat.isLoading s' = true.
Proof.
  intros w r. eexists. split; [reflexivity|].
  exact (proj1 (proj2 (proj2 (handleSend_request w r "   " Chat.initial _ _ eq_refl)))).
Defined.

(** *** The stream *)

Lemma set_last_snoc (m x : Live.Message) (prev : list Live.Message) :
  Chat.set_last m (prev ++ [x]) = prev ++ [m].
Proof.
  unfold Chat.set_last. rewrite length_app. cbn [length].
  destruct (Nat.eqb_spec (length prev + 1) 0) as [E|_]; [lia|].
  replace (length prev + 1 - 1)%nat with (length prev + 0)%nat by lia.
  rewrite insert_app_r. reflexivity.
Qed.

Lemma chunks_spec (cs : list (option string)) (t : string) (s : Chat.State)
      (prev : list Live.Message) :
  Chat.messages s = prev ++ [Live.entry Live.model t] ->
  let (t', s') := Chat.chunks t cs s in
  t' = String.append t (Chat.whole cs)
  /\ Chat.messages s' = prev ++ [Live.entry Live.model t']
  /\ Chat.isLoading s' = Chat.isLoading s
  /\ Chat.image s' = Chat.image s
  /\ Chat.commandHistory s' = Chat.commandHistory s
  /\ Chat.calls s' = Chat.calls s.
Proof.
  revert t s. induction cs as [|c cs IH]; intros t s Hm; cbn [Chat.chunks Chat.whole foldr].
  - repeat split; try reflexivity; try exact Hm.
    symmetry. apply append_nil_r.
  - unfold Chat.chunk.
    specialize (IH (String.append t (Text.ToString c))
                   (Chat.set_messages
                      (Chat.set_last (Live.entry Live.model (String.append t (Text.ToString c))))
                      s)).
    cbn [Chat.messages Chat.set_messages] in IH. rewrite Hm, set_last_snoc in IH.
    specialize (IH eq_refl).
    destruct (Chat.chunks _ cs _) as [t' s'].
    destruct IH as (E1 & E2 & E3 & E4 & E5 & E6).
    split; [rewrite E1; apply append_assoc|].
    split; [exact E2|]. repeat split; assumption.
Qed.

(** Property X20.  A stream that opens adds one entry of the model to the
    log, and the entry grows chunk by chunk into the chunks one after the
    other, the log keeping its length; an error while streaming adds one
    error entry after the partial answer.  Whatever way the request ends,
    the component is no longer loading and the image is dropped. *)
Theorem stream_accumulates (cs : list (option string)) (error_message : option string)
        (s : Chat.State) :
  (Chat.messages (Chat.streamed cs Chat.Completed s)
   = Chat.messages s ++ [Live.entry Live.model (Chat.whole cs)]
   /\ Chat.messages (Chat.streamed cs (Chat.Threw error_message) s)
      = Chat.messages s
        ++ [Live.entry Live.model (Chat.whole cs);
            Live.entry Live.error
              (String.append "TRANSMISSION ERROR: "
                 (default "Unknown communication failure."%string error_message))]
   /\ Chat.messages (Chat.rejected error_message s)
      = Chat.messages s
        ++ [Live.entry Live.error
              (String.append "TRANSMISSION ERROR: "
                 (default "Unknown communication failure."%string error_message))])
  /\ map (fun s' => (Chat.isLoading s', Chat.image s'))
       [Chat.streamed cs Chat.Completed s;
        Chat.streamed cs (Chat.Threw error_message) s;
        Chat.rejected error_message s]
     = [(false, None); (false, None); (false, None)].
Proof.
  pose proof (chunks_spec cs EmptyString (Chat.opened s) (Chat.messages s) eq_refl) as H.
  unfold Chat.streamed, Chat.rejected.
  destruct (Chat.chunks EmptyString cs (Chat.opened s)) as [t' s1].
  destruct H as (E1 & E2 & _). rewrite append_nil_l in E1. subst t'.
  assert (Hd : forall e : option string,
             match e with Some m => m | None => "Unknown communication failure."%string end
             = default "Unknown communication failure."%string e) by (intros [m|]; reflexivity).
  split; [split; [|split]|].
  - exact E2.
  - cbn [Chat.finally Chat.transmission_error Chat.messages Chat.set_image
         Chat.set_isLoading Chat.append Chat.set_messages].
    rewrite E2, Hd, <- app_assoc. reflexivity.
  - cbn [Chat.finally Chat.transmission_error Chat.messages Chat.set_image
         Chat.set_isLoading Chat.append Chat.set_messages].
    rewrite Hd. reflexivity.
  - reflexivity.
Qed.

(** Property X21.  A chunk overwrites the last entry of the log, whatever
    it is: when the connection notice of [handleOffline] or
    [handleOnline] is appended while an answer streams, the next chunk
    replaces the notice with the answer so far, and the partial answer
    stays as a second entry before it. *)
Theorem chunk_overwrites_notice (text_so_far : string) (chunk_text : option string)
        (s : Chat.State) :
  let text_now := String.append text_so_far (Text.ToString chunk_text) in
  Chat.messages (snd (Chat.chunk text_so_far chunk_text (Chat.handleOffline s)))
  = Chat.messages s ++ [Live.entry Live.model text_now]
  /\ Chat.messages (snd (Chat.chunk text_so_far chunk_text (Chat.handleOnline s)))
     = Chat.messages s ++ [Live.entry Live.model text_now].
Proof.
  intros text_now. unfold Chat.chunk, Chat.handleOffline, Chat.handleOnline.
  cbn [snd Chat.messages Chat.set_messages Chat.append Chat.set_isOffline].
  rewrite !set_last_snoc. split; reflexivity.
Qed.

(** ** The typing effect *)

Lemma substring_0_length (n : nat) (s : string) :
  String.length (String.substring 0 n s) = Nat.min n (String.length s).
Proof.
  revert n. induction s as [|c s IH]; intros [|n]; cbn [String.substring String.length];
    try reflexivity.
  rewrite IH. reflexivity.
Qed.

Lemma substring_0_all (n : nat) (s : string) :
  (String.length s <= n)%nat -> String.substring 0 n s = s.
Proof.
  revert n. induction s as [|c s IH]; intros [|n] H; cbn [String.substring String.length] in *;
    try reflexivity; try lia.
  rewrite IH by lia. reflexivity.
Qed.

Lemma substring_0_prefix (n : nat) (s : string) :
  String.prefix (String.substring 0 n s) s = true.
Proof.
  revert n. induction s as [|c s IH]; intros [|n]; cbn [String.substring String.prefix];
    try reflexivity.
  destruct (ascii_dec c c) as [_|Hne]; [apply IH|congruence].
Qed.

Lemma ticks_fixed (k : nat) (fullText : string) : ChatHistory.ticks k fullText fullText = fullText.
Proof.
  induction k as [|k IH]; cbn [ChatHistory.ticks]; [reflexivity|].
  unfold ChatHistory.tick. rewrite String.eqb_refl. exact IH.
Qed.

Lemma ticks_from_prefix (k n : nat) (fullText : string) :
  ChatHistory.ticks k fullText (ChatHistory.slice_0 fullText n)
  = ChatHistory.slice_0 fullText (n + k).
Proof.
  revert n. induction k as [|k IH]; intros n; cbn [ChatHistory.ticks].
  - rewrite Nat.add_0_r. reflexivity.
  - unfold ChatHistory.tick.
    destruct (String.eqb_spec (ChatHistory.slice_0 fullText n) fullText) as [E|Hne].
    + rewrite E, ticks_fixed. unfold ChatHistory.slice_0 in *.
      symmetry. apply substring_0_all.
      apply (f_equal String.length) in E. rewrite substring_0_length in E. lia.
    + assert (Hn : (n < String.length fullText)%nat).
      { destruct (Nat.lt_ge_cases n (String.length fullText)) as [H|H]; [exact H|].
        exfalso. apply Hne. apply substring_0_all. exact H. }
      unfold ChatHistory.slice_0 at 2. rewrite substring_0_length.
      rewrite Nat.min_l by lia. rewrite IH. f_equal. lia.
Qed.

(** Property X22.  Whatever text the typing effect shows, after its timer
    has fired once the shown text is a prefix of the full text, and after
    as many firings as the full text is longer than the shown text (one at
    least) it is the full text, where it stays. *)
Theorem typing_effect_converges (fullText typedText : string) (k : nat) :
  (0 < k)%nat ->
  String.prefix (ChatHistory.ticks k fullText typedText) fullText = true
  /\ ((String.length fullText - String.length typedText <= k)%nat ->
      ChatHistory.ticks k fullText typedText = fullText).
Proof.
  intros Hk. destruct k as [|k]; [lia|]. cbn [ChatHistory.ticks]. unfold ChatHistory.tick.
  destruct (String.eqb_spec typedText fullText) as [->|Hne].
  - rewrite ticks_fixed. split; [|reflexivity].
    rewrite <- (substring_0_all (String.length fullText) fullText) at 1 by lia.
    apply substring_0_prefix.
  - rewrite ticks_from_prefix. unfold ChatHistory.slice_0. split.
    + apply substring_0_prefix.
    + intros H. apply substring_0_all. lia.
Qed.

Lemma typing_effect_converges_witness :
  ChatHistory.ticks 2 "Hello" "Hel" = "Hello"%string
  /\ ChatHistory.ticks 1 "Hello" "Bye, all" = "Hello"%string.
Proof.
  split.
  - exact (proj2 (typing_effect_converges "Hello" "Hel" 2 ltac:(lia)) ltac:(cbn; lia)).
  - exact (proj2 (typing_effect_converges "Hello" "Bye, all" 1 ltac:(lia)) ltac:(cbn; lia)).
Defined.

(** ** The caches of the service worker *)

Lemma find_filter_none {A : Type} (p : A -> bool) (l : list A) :
  find p (List.filter (fun e => negb (p e)) l) = None.
Proof.
  induction l as [|x l IH]; cbn [List.filter find]; [reflexivity|].
  destruct (p x) eqn:E; cbn [negb]; [exact IH|].
  cbn [find]. rewrite E. exact IH.
Qed.

Lemma find_app {A : Type} (p : A -> bool) (l1 l2 : list A) :
  find p (l1 ++ l2) = match find p l1 with Some x => Some x | None => find p l2 end.
Proof.
  induction l1 as [|x l1 IH]; cbn [app find]; [reflexivity|].
  destruct (p x); [reflexivity|exact IH].
Qed.


(** What was put is what matches. *)
Lemma cache_match_put (request : AppShell.Request) (response : AppShell.Response)
      (cache : AppShell.Cache) :
  AppShell.get request = true -> AppShell.http request = true ->
  AppShell.cache_match request (AppShell.cache_put request response cache) = Some response.
Proof.
  intros Hg Hh. unfold AppShell.cache_match, AppShell.cache_put. rewrite Hg, Hh.
  cbn [andb]. rewrite find_app, find_filter_none. cbn [find].
  unfold AppShell.same_url at 1. cbn [fst]. rewrite String.eqb_refl. reflexivity.
Qed.











Lemma onactivate_names (storage : AppShell.CacheStorage) :
  Forall (fun c => fst c = AppShell.CACHE_NAME) (AppShell.onactivate storage).
Proof.
  unfold AppShell.onactivate. induction storage as [|c storage IH]; cbn [List.filter].
  - constructor.
  - destruct (String.eqb_spec (fst c) AppShell.CACHE_NAME) as [E|_]; [|exact IH].
    constructor; assumption.
Qed.

Lemma caches_match_get (request : AppShell.Request) (storage : AppShell.CacheStorage)
      (response : AppShell.Response) :
  AppShell.caches_match request storage = Some response -> AppShell.get request = true.
Proof.
  induction storage as [|[name cache] storage IH]; cbn [AppShell.caches_match]; [discriminate|].
  unfold AppShell.cache_match at 1. destruct (AppShell.get request); [reflexivity|exact IH].
Qed.

(** When every cache has the name, the put is found first. *)
Lemma put_in_first (request : AppShell.Request) (response cached : AppShell.Response)
      (storage : AppShell.CacheStorage) :
  Forall (fun c => fst c = AppShell.CACHE_NAME) storage ->
  AppShell.caches_match request storage = Some cached ->
  AppShell.http request = true ->
  AppShell.open_and_put AppShell.CACHE_NAME request response storage
  = AppShell.put_in AppShell.CACHE_NAME request response storage
  /\ AppShell.caches_match request
       (AppShell.put_in AppShell.CACHE_NAME request response storage) = Some response.
Proof.
  intros Hall Hm Hh. pose proof (caches_match_get _ _ _ Hm) as Hg.
  destruct storage as [|[name cache] storage]; [discriminate Hm|].
  apply Forall_cons in Hall as [Hname _]. cbn [fst] in Hname. subst name.
  split.
  - unfold AppShell.open_and_put, AppShell.caches_open, AppShell.has_cache.
    cbn [existsb fst]. rewrite String.eqb_refl. reflexivity.
  - unfold AppShell.put_in. cbn [map fst snd]. rewrite String.eqb_refl.
    cbn [AppShell.caches_match]. rewrite cache_match_put by assumption. reflexivity.
Qed.

(** Property X24.  After activation the worker revalidates what it serves
    from the cache: a cached request over http(s) is answered with the
    cached response at once, a fresh response of status 200 takes its place
    for the next time, and a response of another status leaves the caches
    as they are. *)
Theorem stale_while_revalidate (request : AppShell.Request)
        (cached fresh : AppShell.Response) (storage : AppShell.CacheStorage) :
  AppShell.is_api request = false ->
  AppShell.http request = true ->
  AppShell.caches_match request (AppShell.onactivate storage) = Some cached ->
  let active := AppShell.onactivate storage in
  let revalidated := snd (AppShell.onfetch request (Some fresh) active) in
  fst (AppShell.onfetch request (Some fresh) active) = Some cached
  /\ (AppShell.status fresh = 200 ->
      fst (AppShell.onfetch request None revalidated) = Some fresh)
  /\ (AppShell.status fresh <> 200 -> revalidated = active).
Proof.
  intros Hapi Hh Hm active revalidated. subst revalidated active.
  unfold AppShell.onfetch. rewrite Hapi, Hm. cbn [fst snd].
  split; [reflexivity|]. split.
  - intros Hs. rewrite Hs. cbn [Z.eqb Pos.eqb].
    destruct (put_in_first request fresh cached _ (onactivate_names storage) Hm Hh)
      as [E1 E2].
    rewrite E1, E2. reflexivity.
  - intros Hs. destruct (Z.eqb_spec (AppShell.status fresh) 200); [contradiction|reflexivity].
Qed.

Lemma stale_while_revalidate_witness :
  let index := AppShell.mkRequest "/index.html" "isaac.example" true true in
  let old := AppShell.mkResponse 200 "<html>v2" in
  let shell := AppShell.mkResponse 200 "<html>v3" in
  let fresh := AppShell.mkResponse 200 "<html>v3.1" in
  let storage := [("isaac-terminal-cache-v2"%string, [(index, old)]);
                  (AppShell.CACHE_NAME, [(index, shell)])] in
  AppShell.caches_match index storage = Some old
  /\ fst (AppShell.onfetch index (Some fresh) (AppShell.onactivate storage)) = Some shell
  /\ fst (AppShell.onfetch index None
            (snd (AppShell.onfetch index (Some fresh) (AppShell.onactivate storage))))
     = Some fresh.
Proof.
  intros index old shell fresh storage. split; [reflexivity|].
  destruct (stale_while_revalidate index shell fresh storage eq_refl eq_refl eq_refl)
    as (H1 & H2 & _).
  split; [exact H1|exact (H2 eq_refl)].
Defined.

Lemma open_and_put_entries (P : AppShell.Request -> AppShell.Response -> Prop)
      (request : AppShell.Request) (response : AppShell.Response)
      (storage : AppShell.CacheStorage) :
  (AppShell.get request && AppShell.http request = true -> P request response) ->
  AppShell.shell_entries P storage ->
  AppShell.shell_entries P
    (AppShell.open_and_put AppShell.CACHE_NAME request response storage).
Proof.
  intros Hnew Hold name cache rq rs Hin Hname Hentry. subst name.
  unfold AppShell.open_and_put, AppShell.put_in in Hin.
  apply in_map_iff in Hin as ([name0 cache0] & Hf & Hin0). cbn [fst snd] in Hf.
  assert (Hc0 : forall rq0 rs0, name0 = AppShell.CACHE_NAME ->
                  In (rq0, rs0) cache0 -> P rq0 rs0).
  { intros rq0 rs0 Hn Hi. unfold AppShell.caches_open in Hin0.
    destruct (AppShell.has_cache AppShell.CACHE_NAME storage).
    - exact (Hold name0 cache0 rq0 rs0 Hin0 Hn Hi).
    - apply in_app_or in Hin0 as [Hin0|[Hin0|[]]].
      + exact (Hold name0 cache0 rq0 rs0 Hin0 Hn Hi).
      + injection Hin0 as _ <-. destruct Hi. }
  destruct (String.eqb_spec name0 AppShell.CACHE_NAME) as [Hn|Hn].
  - injection Hf as _ <-. unfold AppShell.cache_put in Hentry.
    destruct (AppShell.get request && AppShell.http request) eqn:Eput.
    + apply in_app_or in Hentry as [Hentry|[Hentry|[]]].
      * apply filter_In in Hentry as [Hentry _]. exact (Hc0 rq rs Hn Hentry).
      * injection Hentry as <- <-. apply Hnew. reflexivity.
    + exact (Hc0 rq rs Hn Hentry).
  - injection Hf as E _. congruence.
Qed.

Lemma onfetch_entries (request : AppShell.Request) (network : option AppShell.Response)
      (storage : AppShell.CacheStorage) :
  AppShell.shell_entries AppShell.revalidated storage ->
  AppShell.shell_entries AppShell.revalidated
    (snd (AppShell.onfetch request network storage)).
Proof.
  intros H. unfold AppShell.onfetch.
  destruct (AppShell.is_api request) eqn:Hapi; cbn [snd]; [exact H|].
  destruct network as [response|]; [|exact H].
  destruct (Z.eqb_spec (AppShell.status response) 200) as [Hs|_]; [|exact H].
  apply open_and_put_entries; [|exact H].
  intros Hput. apply andb_true_iff in Hput as [Hg Hh].
  repeat split; assumption.
Qed.

(** Property X25.  What the fetch listener writes to the cache of the app
    shell is a response of status 200 to a GET request over http(s) to a
    host other than the API: when the entries of that cache are such, they
    are such after any sequence of fetch events.  Requests to the API are
    never cached. *)
Theorem fetch_writes_only_revalidated
        (events : list (AppShell.Request * option AppShell.Response))
        (storage : AppShell.CacheStorage) :
  AppShell.shell_entries AppShell.revalidated storage ->
  AppShell.shell_entries AppShell.revalidated (AppShell.fetches events storage).
Proof.
  revert storage. induction events as [|[request network] events IH]; intros storage H;
    cbn [AppShell.fetches]; [exact H|].
  apply IH, onfetch_entries, H.
Qed.

Lemma fetch_writes_only_revalidated_witness :
  let api := AppShell.mkRequest "https://generativelanguage.googleapis.com/v1/models"
               "generativelanguage.googleapis.com" true true in
  let index := AppShell.mkRequest "/index.html" "isaac.example" true true in
  let answer := AppShell.mkResponse 200 "{}" in
  let page := AppShell.mkResponse 200 "<html>" in
  AppShell.fetches [(api, Some answer); (index, Some page)] []
  = [(AppShell.CACHE_NAME, [(index, page)])]
  /\ AppShell.shell_entries AppShell.revalidated
       (AppShell.fetches [(api, Some answer); (index, Some page)] []).
Proof.
  intros api index answer page. split; [reflexivity|].
  apply fetch_writes_only_revalidated. intros name cache rq rs [].
Defined.

(** ** Notification clicks *)

Lemma pick_spec (clientList : list AppShell.Client) (first : AppShell.Client) :
  AppShell.pick clientList first
  = default first (last (List.filter AppShell.focused clientList)).
Proof.
  unfold AppShell.pick. revert first.
  induction clientList as [|c l IH]; intros first; cbn [fold_left List.filter]; [reflexivity|].
  rewrite IH. destruct (AppShell.focused c); [|reflexivity].
  destruct (List.filter AppShell.focused l) as [|d fl] eqn:E; [reflexivity|].
  change (last (c :: d :: fl)) with (last (d :: fl)).
  destruct (last (d :: fl)) eqn:El; [reflexivity|].
  apply last_None in El. discriminate El.
Qed.

(** Property X26.  A click on the notification opens a window at [/] when
    the application has no window; otherwise it focuses the last window
    of the list that has the focus, and the first window of the list when
    none has. *)
Theorem notificationclick_target (clientList : list AppShell.Client) :
  AppShell.onnotificationclick clientList
  = match last (List.filter AppShell.focused clientList), head clientList with
    | Some client, _ => AppShell.focus client
    | None, Some first => AppShell.focus first
    | None, None => AppShell.openWindow "/"
    end.
Proof.
  destruct clientList as [|first l]; [reflexivity|].
  unfold AppShell.onnotificationclick. rewrite pick_spec.
  destruct (last (List.filter AppShell.focused (first :: l))) as [client|] eqn:E;
    reflexivity.
Qed.

(** ** Code blocks *)

Lemma string_length_append (a b : string) :
  String.length (String.append a b) = (String.length a + String.length b)%nat.
Proof.
  induction a as [|x a IH]; rewrite ?append_nil_l, ?append_cons; cbn [String.length];
    [reflexivity|]. rewrite IH. reflexivity.
Qed.

Lemma after_fence_spec (s rest : string) :
  ChatHistory.after_fence s = Some rest -> s = String.append ChatHistory.fence rest.
Proof.
  unfold ChatHistory.after_fence.
  destruct s as [|c0 [|c1 [|c2 r]]]; try discriminate;
    try (destruct c0 as [[] [] [] [] [] [] [] []]; discriminate).
  - destruct c0 as [[] [] [] [] [] [] [] []]; try discriminate;
      destruct c1 as [[] [] [] [] [] [] [] []]; discriminate.
  - destruct c0 as [[] [] [] [] [] [] [] []]; try discriminate;
      destruct c1 as [[] [] [] [] [] [] [] []]; try discriminate;
      destruct c2 as [[] [] [] [] [] [] [] []]; try discriminate.
    intros H. injection H as <-. reflexivity.
Qed.

Lemma word_run_spec (s : string) :
  s = String.append (fst (ChatHistory.word_run s)) (snd (ChatHistory.word_run s)).
Proof.
  induction s as [|c s IH]; cbn [ChatHistory.word_run]; [reflexivity|].
  destruct (ChatHistory.is_word c); [|reflexivity].
  destruct (ChatHistory.word_run s) as [w r]. cbn [fst snd] in *.
  rewrite append_cons, <- IH. reflexivity.
Qed.

Lemma find_fence_spec (s before after : string) :
  ChatHistory.find_fence s = Some (before, after) ->
  s = String.append before (String.append ChatHistory.fence after).
Proof.
  revert before. induction s as [|c s IH]; intros before; [discriminate|].
  cbn [ChatHistory.find_fence].
  destruct (ChatHistory.after_fence (String c s)) as [a|] eqn:E.
  - intros H. injection H as <- <-. rewrite append_nil_l. apply after_fence_spec, E.
  - destruct (ChatHistory.find_fence s) as [[b a]|]; [|discriminate].
    intros H. injection H as <- <-. rewrite append_cons, <- (IH b eq_refl). reflexivity.
Qed.

Lemma match_here_spec (s : string) (group1 : option string) (code after : string) :
  ChatHistory.match_here s = Some (group1, code, after) ->
  s = String.append (ChatHistory.written (ChatHistory.codeBlock 0 group1 code)) after.
Proof.
  unfold ChatHistory.match_here.
  destruct (ChatHistory.after_fence s) as [opened|] eqn:Ef; [|discriminate].
  pose proof (word_run_spec opened) as Hw.
  destruct (ChatHistory.word_run opened) as [w r]. cbn [fst snd] in Hw.
  destruct r as [|c [|c1 r']]; try discriminate.
  destruct (Ascii.eqb_spec c "010") as [->|_]; [|discriminate].
  destruct (ChatHistory.find_fence r') as [[before a]|] eqn:Eff; [|discriminate].
  intros H. injection H as <- <- <-.
  apply after_fence_spec in Ef. apply find_fence_spec in Eff. subst s opened r'.
  unfold ChatHistory.written.
  assert (Hg : default EmptyString match w with EmptyString => None | _ => Some w end = w)
    by (destruct w; reflexivity).
  rewrite Hg, !append_assoc, !append_cons, !append_assoc. reflexivity.
Qed.

Lemma exec_spec (s before : string) (group1 : option string) (code after : string) :
  ChatHistory.exec s = Some (before, group1, code, after) ->
  s = String.append before
        (String.append (ChatHistory.written (ChatHistory.codeBlock 0 group1 code)) after).
Proof.
  revert before. induction s as [|c s IH]; intros before; [discriminate|].
  cbn [ChatHistory.exec].
  destruct (ChatHistory.match_here (String c s)) as [[[g cd] a]|] eqn:E.
  - intros H. injection H as <- <- <- <-. rewrite append_nil_l. apply match_here_spec, E.
  - destruct (ChatHistory.exec s) as [[[[b g] cd] a]|]; [|discriminate].
    intros H. injection H as <- <- <- <-.
    rewrite append_cons, <- (IH b eq_refl). reflexivity.
Qed.

Lemma written_all_app (l1 l2 : list ChatHistory.Part) :
  ChatHistory.written_all (l1 ++ l2)
  = String.append (ChatHistory.written_all l1) (ChatHistory.written_all l2).
Proof.
  unfold ChatHistory.written_all.
  induction l1 as [|p l1 IH]; cbn [app foldr]; [reflexivity|].
  rewrite IH, append_assoc. reflexivity.
Qed.

Lemma format_written (fuel : nat) (left : string) (lastIndex : nat) :
  (String.length left < fuel)%nat ->
  ChatHistory.written_all (ChatHistory.format fuel left lastIndex) = left.
Proof.
  revert left lastIndex. induction fuel as [|fuel IH]; intros left lastIndex Hlen; [lia|].
  cbn [ChatHistory.format].
  destruct (ChatHistory.exec left) as [[[[before g] code] after]|] eqn:E.
  - apply exec_spec in E.
    assert (Hafter : (String.length after < fuel)%nat).
    { rewrite E in Hlen. rewrite !string_length_append in Hlen.
      unfold ChatHistory.written in Hlen. rewrite !string_length_append in Hlen.
      cbn [String.length ChatHistory.fence] in Hlen. lia. }
    rewrite written_all_app.
    change (ChatHistory.written_all (ChatHistory.codeBlock ?k g code :: ?l))
      with (String.append (ChatHistory.written (ChatHistory.codeBlock k g code))
              (ChatHistory.written_all l)).
    rewrite (IH after _ Hafter).
    rewrite E.
    change (ChatHistory.written
              (ChatHistory.codeBlock (lastIndex + String.length before) g code))
      with (ChatHistory.written (ChatHistory.codeBlock 0 g code)).
    f_equal.
    destruct before as [|c b].
    + cbn [String.length]. rewrite Nat.add_0_r, Nat.ltb_irrefl. reflexivity.
    + destruct (Nat.ltb_spec lastIndex (lastIndex + String.length (String c b))) as [_|H];
        [|cbn [String.length] in H; lia].
      unfold ChatHistory.written_all. cbn [foldr ChatHistory.written].
      apply append_nil_r.
  - destruct left as [|c l]; [reflexivity|].
    cbn [String.length Nat.ltb Nat.leb]. unfold ChatHistory.written_all.
    cbn [foldr ChatHistory.written]. apply append_nil_r.
Qed.

(** Property X27.  [formatContent] loses nothing and adds nothing: the
    spans and the code blocks it returns, written one after the other
    (a code block between its fences, with its language line), are the
    content. *)
Theorem formatContent_keeps_content (content : string) :
  ChatHistory.written_all (ChatHistory.formatContent content) = content.
Proof.
  unfold ChatHistory.formatContent. apply format_written. lia.
Qed.

Lemma after_fence_other (c : ascii) (s : string) :
  Ascii.eqb "`" c = false -> ChatHistory.after_fence (String c s) = None.
Proof.
  intros H. destruct c as [[] [] [] [] [] [] [] []]; try reflexivity. discriminate H.
Qed.

Lemma match_here_other (c : ascii) (s : string) :
  Ascii.eqb "`" c = false -> ChatHistory.match_here (String c s) = None.
Proof.
  intros H. unfold ChatHistory.match_here. rewrite after_fence_other by exact H. reflexivity.
Qed.

Lemma occurs_cons (c x : ascii) (s : string) :
  Text.occurs c (String x s) = Ascii.eqb c x || Text.occurs c s.
Proof. reflexivity. Qed.

(** No backtick, no match. *)
Lemma exec_no_tick (s : string) : Text.occurs "`" s = false -> ChatHistory.exec s = None.
Proof.
  induction s as [|c s IH]; [reflexivity|].
  rewrite occurs_cons. intros H. apply orb_false_elim in H as [Hc Hs].
  cbn [ChatHistory.exec]. rewrite match_here_other by exact Hc. rewrite (IH Hs). reflexivity.
Qed.

Lemma exec_skip (before rest : string) :
  Text.occurs "`" before = false ->
  ChatHistory.exec (String.append before rest)
  = match ChatHistory.exec rest with
    | Some (b, group1, code, after) => Some (String.append before b, group1, code, after)
    | None => None
    end.
Proof.
  induction before as [|c before IH]; rewrite ?append_nil_l, ?append_cons.
  - intros _. destruct (ChatHistory.exec rest) as [[[[b g] cd] a]|]; reflexivity.
  - rewrite occurs_cons. intros H. apply orb_false_elim in H as [Hc Hs].
    cbn [ChatHistory.exec]. rewrite match_here_other by exact Hc. rewrite (IH Hs).
    destruct (ChatHistory.exec rest) as [[[[b g] cd] a]|]; reflexivity.
Qed.

Lemma word_run_app (lang rest : string) :
  forallb ChatHistory.is_word (list_ascii_of_string lang) = true ->
  ChatHistory.word_run (String.append lang (String "010" rest)) = (lang, String "010" rest).
Proof.
  induction lang as [|c lang IH]; rewrite ?append_nil_l, ?append_cons.
  - intros _. reflexivity.
  - cbn [list_ascii_of_string forallb]. intros H. apply andb_true_iff in H as [Hc Hl].
    cbn [ChatHistory.word_run]. rewrite Hc, (IH Hl). reflexivity.
Qed.

Lemma find_fence_skip (code after : string) :
  Text.occurs "`" code = false ->
  ChatHistory.find_fence (String.append code (String.append ChatHistory.fence after))
  = Some (code, after).
Proof.
  induction code as [|c code IH]; rewrite ?append_nil_l, ?append_cons.
  - intros _. reflexivity.
  - rewrite occurs_cons. intros H. apply orb_false_elim in H as [Hc Hs].
    cbn [ChatHistory.find_fence]. rewrite after_fence_other by exact Hc.
    rewrite (IH Hs). reflexivity.
Qed.

Lemma format_no_tick (fuel : nat) (left : string) (lastIndex : nat) :
  Text.occurs "`" left = false ->
  ChatHistory.format (S fuel) left lastIndex
  = if Text.truthy left then [ChatHistory.span lastIndex left] else [].
Proof.
  intros H. cbn [ChatHistory.format]. rewrite exec_no_tick by exact H.
  destruct left; reflexivity.
Qed.

(** Property X28.  A fenced block between two texts without backticks is
    found as it stands: [formatContent] returns the text before it as a
    span (when there is some), the block with its language word and its
    code, and the text after it as a span (when there is some), each keyed
    by the place where it starts. *)
Theorem formatContent_code_block (before lang code after : string) :
  Text.occurs "`" before = false ->
  Text.occurs "`" code = false ->
  Text.occurs "`" after = false ->
  forallb ChatHistory.is_word (list_ascii_of_string lang) = true ->
  code <> EmptyString ->
  let block :=
    String.append ChatHistory.fence
      (String.append lang (String "010" (String.append code ChatHistory.fence))) in
  let index := String.length before in
  ChatHistory.formatContent (String.append before (String.append block after))
  = (if Text.truthy before then [ChatHistory.span 0 before] else [])
    ++ [ChatHistory.codeBlock index (if Text.truthy lang then Some lang else None) code]
    ++ (if Text.truthy after
        then [ChatHistory.span (index + String.length block) after] else []).
Proof.
  intros Hb Hc Ha Hl Hne block index.
  assert (Hnf : String.append block after
                = String "`" (String "`" (String "`"
                    (String.append lang
                       (String "010"
                          (String.append code (String.append ChatHistory.fence after))))))).
  { subst block. rewrite !append_assoc, append_cons, append_assoc. reflexivity. }
  assert (Hexec : ChatHistory.exec (String.append before (String.append block after))
                  = Some (before, if Text.truthy lang then Some lang else None, code, after)).
  { rewrite exec_skip by exact Hb. rewrite Hnf.
    cbn [ChatHistory.exec]. unfold ChatHistory.match_here. cbn [ChatHistory.after_fence].
    rewrite word_run_app by exact Hl.
    destruct code as [|c1 code']; [congruence|].
    rewrite append_cons.
    rewrite occurs_cons in Hc. apply orb_false_elim in Hc as [_ Hc].
    change (Ascii.eqb "010" "010") with true. cbv beta iota.
    rewrite find_fence_skip by exact Hc.
    rewrite append_nil_r. destruct lang; reflexivity. }
  unfold ChatHistory.formatContent. cbn [ChatHistory.format]. rewrite Hexec.
  assert (Hlen : String.length (String.append before (String.append block after))
                 = S (String.length before + 6 + String.length lang + String.length code
                      + String.length after)).
  { subst block. rewrite !string_length_append. cbn [String.length ChatHistory.fence].
    rewrite !string_length_append. cbn [String.length ChatHistory.fence]. lia. }
  rewrite Hlen. rewrite format_no_tick by exact Ha.
  assert (Hblock : String.length block
                   = (3 + String.length (default EmptyString
                                           (if Text.truthy lang then Some lang else None))
                      + 1 + String.length code + 3)%nat).
  { subst block. rewrite !string_length_append. cbn [String.length ChatHistory.fence].
    rewrite !string_length_append. cbn [String.length ChatHistory.fence].
    destruct lang; cbn [Text.truthy default from_option id String.length]; lia. }
  rewrite <- Hblock. subst index. cbn [Nat.add].
  destruct before as [|c b].
  - cbn [String.length Nat.ltb Nat.leb Text.truthy app]. reflexivity.
  - destruct (Nat.ltb_spec 0 (String.length (String c b))) as [_|H];
      [|cbn [String.length] in H; lia].
    reflexivity.
Qed.

Lemma formatContent_code_block_witness :
  ChatHistory.formatContent
    (String.append "Run:" (String "010"
       (String.append "```sh" (String "010" (String.append "ls -l```" " now")))))
  = [ChatHistory.span 0 (String.append "Run:" (String "010" EmptyString));
     ChatHistory.codeBlock 5 (Some "sh"%string) "ls -l";
     ChatHistory.span 19 " now"].
Proof.
  exact (formatContent_code_block (String.append "Run:" (String "010" EmptyString))
           "sh" "ls -l" " now" eq_refl eq_refl eq_refl eq_refl ltac:(discriminate)).
Defined.

(** ** The startup sequence *)

Lemma runSequence_spec (periodicSync : bool) (sequence : list (Z * string)) (n k : nat)
      (s : Chat.State) :
  (k + n = length sequence)%nat ->
  Chat.ascending (Chat.previous_delay sequence k) (drop k sequence) ->
  let (times, s') :=
    Chat.runSequence periodicSync sequence (seq k n) (Chat.previous_delay sequence k) s in
  times = map fst (drop k sequence)
  /\ Chat.messages s'
     = Chat.messages s ++ map (fun e => Live.entry Live.model (snd e)) (drop k sequence)
  /\ Chat.isLoading s' = (if (n =? 0)%nat then Chat.isLoading s else false)
  /\ Chat.commandHistory s' = Chat.commandHistory s.
Proof.
  revert k s. induction n as [|n IH]; intros k s Hk Hasc.
  - cbn [seq Chat.runSequence]. rewrite drop_ge by lia. cbn [map].
    rewrite app_nil_r. repeat split; reflexivity.
  - cbn [seq Chat.runSequence].
    destruct (lookup_lt_is_Some_2 sequence k ltac:(lia)) as [[delay startup_text] Hl].
    rewrite (drop_S _ _ _ Hl) in Hasc |- *. cbn [Chat.ascending] in Hasc.
    destruct Hasc as [Hle Hasc].
    assert (Ht : Chat.previous_delay sequence k
                 + Z.max 0 (Chat.timeout sequence k) = delay).
    { unfold Chat.timeout. rewrite Hl. lia. }
    rewrite Ht.
    assert (Hp : Chat.previous_delay sequence (S k) = delay).
    { cbn [Chat.previous_delay]. rewrite Hl. reflexivity. }
    rewrite <- Hp in Hasc |- *.
    specialize (IH (S k) (Chat.timer_fires periodicSync sequence k s) ltac:(lia) Hasc).
    destruct (Chat.runSequence periodicSync sequence (seq (S k) n) _ _) as [times s'].
    destruct IH as (E1 & E2 & E3 & E4).
    cbn [map fst snd]. rewrite E1, E2, E3, E4, Hp.
    unfold Chat.timer_fires. rewrite Hl.
    destruct (decide (Z.of_nat k = Z.of_nat (length sequence) - 1)) as [Hlast|Hnot].
    + rewrite bool_decide_true by exact Hlast.
      destruct periodicSync;
        cbn [Chat.messages Chat.isLoading Chat.commandHistory Chat.call Chat.set_isLoading
             Chat.append Chat.set_messages];
        rewrite <- app_assoc; repeat split; try reflexivity;
        destruct n; reflexivity.
    + rewrite bool_decide_false by exact Hnot.
      cbn [Chat.messages Chat.isLoading Chat.commandHistory Chat.append Chat.set_messages].
      rewrite <- app_assoc. repeat split; try reflexivity.
      destruct n; [lia|reflexivity].
Qed.

(** Property X29.  When the delays of the startup sequence are not
    negative and do not decrease, every text is appended at its own delay
    after the component was mounted, in the order of the sequence, and
    loading ends with the last text. *)
Theorem startup_on_schedule (periodicSync : bool) (sequence : list (Z * string))
        (s : Chat.State) :
  Chat.ascending 0 sequence ->
  let (times, s') := Chat.startup periodicSync sequence s in
  times = map fst sequence
  /\ Chat.messages s'
     = Chat.messages s ++ map (fun e => Live.entry Live.model (snd e)) sequence
  /\ Chat.isLoading s' = (if (length sequence =? 0)%nat then Chat.isLoading s else false).
Proof.
  intros Hasc. unfold Chat.startup.
  pose proof (runSequence_spec periodicSync sequence (length sequence) 0 s eq_refl Hasc) as H.
  cbn [Chat.previous_delay] in H.
  destruct (Chat.runSequence periodicSync sequence _ 0 s) as [times s'].
  destruct H as (E1 & E2 & E3 & _). rewrite drop_0 in E1, E2. repeat split; assumption.
Qed.

Lemma startup_on_schedule_witness :
  fst (Chat.startup true Chat.startupSequence Chat.initial)
  = [500; 1000; 1200; 1500; 2000; 2500]
  /\ Chat.isLoading (snd (Chat.startup true Chat.startupSequence Chat.initial)) = false
  /\ length (Chat.messages (snd (Chat.startup true Chat.startupSequence Chat.initial)))
     = 6%nat.
Proof.
  pose proof (startup_on_schedule true Chat.startupSequence Chat.initial) as H.
  destruct (Chat.startup true Chat.startupSequence Chat.initial) as [times s'].
  destruct (H ltac:(cbn; lia)) as (E1 & E2 & E3).
  cbn [fst snd]. rewrite E1, E2, E3. repeat split; reflexivity.
Defined.

(** Property X30.  While the chat cannot be created, [handleSend] makes no
    request and never starts loading, whatever is sent: it returns with
    the ref still empty, so that the next message tries again; online, a
    message with an image is answered with the two error entries of the
    failed creation. *)
Theorem handleSend_without_chat (w : Chat.Platform) (r : Chat.Render) (message : string)
        (s : Chat.State) :
  Chat.chatRef s = false ->
  Chat.create_throws w = true ->
  exists s' : Chat.State,
    Chat.handleSend w r message s = (s', Chat.Returned)
    /\ Chat.chatRef s' = false
    /\ Chat.isLoading s' = Chat.isLoading s
    /\ (Chat.r_isOffline r = false ->
        Chat.r_image r <> None ->
        Chat.messages s'
        = Chat.messages s
          ++ [Live.mkMessage Live.user (Text.trim message)
                (option_map Chat.previewUrl (Chat.r_image r));
              Live.entry Live.error
                "CRITICAL ERROR: AI Core failed to initialize. Check API Key and network.";
              Live.entry Live.error "ERROR: Chat not initialized."]).
Proof.
  intros Hc Ht. unfold Chat.handleSend, Chat.client_command, Chat.initializeTextChat,
    Chat.handleInstallClick.
  destruct (Chat.r_image r) as [img|] eqn:Ei.
  - rewrite bool_decide_true by (eexists; reflexivity). rewrite andb_false_r.
    destruct (Chat.permission_default w), (Text.truthy (Text.trim message)),
      (Chat.r_isOffline r);
      do 3 (cbn [negb Chat.chatRef Chat.append Chat.set_messages Chat.set_commandHistory
                 Chat.call Chat.set_image];
            rewrite ?Hc, ?Ht);
      (eexists; split; [reflexivity|]);
      cbn [Chat.chatRef Chat.isLoading Chat.messages Chat.append Chat.set_messages
           Chat.set_commandHistory Chat.call Chat.set_image option_map];
      (split; [exact Hc|]); (split; [reflexivity|]);
      intros Hoff _; try discriminate Hoff; rewrite <- !app_assoc; reflexivity.
  - rewrite bool_decide_false by (intros [x Hx]; discriminate Hx).
    destruct (Text.truthy (Text.trim message)); cbn [negb andb].
    + destruct (Chat.permission_default w), (Chat.r_isOffline r),
        (String.eqb (Text.toLowerCase (Text.trim message)) "clear"),
        (Live.includes (Text.toLowerCase (Text.trim message)) "how to download"
         || Live.includes (Text.toLowerCase (Text.trim message)) "install"
         || String.eqb (Text.toLowerCase (Text.trim message)) "download"),
        (String.eqb (Text.toLowerCase (Text.trim message)) "help"),
        (Chat.r_installPrompt r);
        do 3 (cbn [negb Chat.chatRef Chat.append Chat.set_messages Chat.set_commandHistory
                   Chat.call Chat.set_image Chat.set_showInstallHelp];
              rewrite ?Hc, ?Ht);
        (eexists; split; [reflexivity|]);
        cbn [Chat.chatRef Chat.isLoading Chat.append Chat.set_messages
             Chat.set_commandHistory Chat.call Chat.set_image Chat.set_showInstallHelp];
        (split; [exact Hc|]); (split; [reflexivity|]);
        intros _ Hn; congruence.
    + eexists. split; [reflexivity|]. split; [exact Hc|]. split; [reflexivity|].
      intros _ Hn. congruence.
Qed.

Lemma handleSend_without_chat_witness :
  let w := Chat.mkPlatform false 1000 true in
  exists s' : Chat.State,
    Chat.handleSend w (Chat.render Chat.initial) "hello" Chat.initial = (s', Chat.Returned)
    /\ Chat.chatRef s' = false
    /\ map Live.content (Chat.messages s')
       = ["hello";
          "CRITICAL ERROR: AI Core failed to initialize. Check API Key and network.";
          "ERROR: Chat not initialized."]%string.
Proof.
  intros w.
  destruct (handleSend_without_chat w (Chat.render Chat.initial) "hello" Chat.initial
              eq_refl eq_refl) as (s' & H1 & H2 & _).
  exists s'. split; [exact H1|]. split; [exact H2|].
  injection H1 as <-. reflexivity.
Defined.
